(** * Lighter/Aster delta-neutral rotation bot: a shallow embedding

    The definitions below follow [lighter_aster_hedge.py].  Python floats are
    idealised as exact rationals ([Q]); [Optional[float]] is [option Q]; raised
    exceptions are values of [pyexn]; calls to the two venues are oracles that
    the caller passes in. *)

From Stdlib Require Import QArith Qabs Qround Qminmax ZArith List String Ascii Bool Lia Lqa.
From Stdlib Require Import DecimalString Qpower Permutation Sorted.
Import ListNotations.

Local Open Scope Q_scope.

(* ================================================================== *)
(** * Part I: the program                                              *)
(* ================================================================== *)

(** ** Python values *)

(** Exceptions: the class and the text that [str(exc)] gives. *)
Inductive exn_kind :=
| KException
| KRuntimeError
| KValueError
| KZeroDivisionError
| KRateLimitError
| KTimeoutError
| KOSError (errno : Z).

Record pyexn := Exn { exn_class : exn_kind; exn_str : string }.

(** The result of a call that may raise. *)
Inductive outcome (A : Type) :=
| Returns (v : A)
| Raises (e : pyexn).
Arguments Returns {A} v.
Arguments Raises {A} e.

Definition Qleb (a b : Q) : bool := Qle_bool a b.
Definition Qltb (a b : Q) : bool := negb (Qle_bool b a).

(** Truth value of a float ([0.0] is falsy) and of an [Optional[float]]. *)
Definition float_truthy (q : Q) : bool := negb (Qeq_bool q 0).

Definition truthy (x : option Q) : bool :=
  match x with
  | Some q => float_truthy q
  | None => false
  end.

(** The float held by an [Optional[float]] that was tested truthy. *)
Definition value_of (x : option Q) : Q :=
  match x with
  | Some q => q
  | None => 0
  end.

(** Python's [max(a, b)] and [min(a, b)] keep the first argument on a tie. *)
Definition py_max (a b : Q) : Q := if Qltb a b then b else a.
Definition py_min (a b : Q) : Q := if Qltb b a then b else a.

(** [sum(xs)] starts from [0]. *)
Definition py_sum (xs : list Q) : Q := fold_left Qplus xs 0.
Definition py_len {A} (xs : list A) : Q := inject_Z (Z.of_nat (List.length xs)).

(** ** Strings: [str.lower] and the [in] operator (ASCII) *)

Definition lower_ascii (c : ascii) : ascii :=
  let n := nat_of_ascii c in
  if (65 <=? n)%nat && (n <=? 90)%nat then ascii_of_nat (n + 32) else c.

Fixpoint lower (s : string) : string :=
  match s with
  | EmptyString => EmptyString
  | String c t => String (lower_ascii c) (lower t)
  end.

(** [contains sub s] is Python's [sub in s]. *)
Fixpoint contains (sub s : string) : bool :=
  String.prefix sub s ||
  match s with
  | EmptyString => false
  | String _ t => contains sub t
  end.

Definition str_of_int (z : Z) : string := NilZero.string_of_int (Z.to_int z).

(** ** Rate limit handling *)

Definition is_rate_limit_error (exc : pyexn) : bool :=
  let error_str := lower (exn_str exc) in
  contains "429" error_str ||
  contains "too many requests" error_str ||
  contains "23000" error_str ||
  contains "rate limit" error_str ||
  contains "ratelimit" error_str.

(** What the retry wrapper does to the outside world. *)
Inductive retry_event :=
| EvCall (attempt : Z)
| EvSleep (delay : Q).

(** [random.uniform(a, b)] is [a + (b - a) * random()]; [r] is the draw of
    [random()]. *)
Definition uniform (a b r : Q) : Q := a + (b - a) * r.

Record RetryParams := {
  max_retries : Z;
  initial_delay : Q;
  backoff_factor : Q;
  max_delay : Q;
  jitter : bool
}.

Definition default_retry : RetryParams :=
  {| max_retries := 3; initial_delay := 1; backoff_factor := 2;
     max_delay := 30; jitter := true |}.

Definition base_delay (p : RetryParams) (attempt : Z) : Q :=
  py_min (initial_delay p * (backoff_factor p ^ attempt)) (max_delay p).

Definition jittered_delay (p : RetryParams) (attempt : Z) (r : Q) : Q :=
  let delay := base_delay p attempt in
  if jitter p then
    let jitter_range := delay * (25 # 100) in
    delay + uniform (- jitter_range) jitter_range r
  else delay.

(** The [for attempt in range(max_retries + 1)] loop.  [func k] is what the
    wrapped call does on attempt [k], [rand k] the draw of [random()] made on
    that attempt; [fuel] counts the iterations left. *)
Fixpoint retry_loop {A} (func : Z -> outcome A) (rand : Z -> Q) (p : RetryParams)
         (fuel : nat) (attempt : Z) (last_exception : option pyexn)
  : list retry_event * outcome (option A) :=
  match fuel with
  | O =>
      match last_exception with
      | Some e => ([], Raises e)
      | None => ([], Returns None)
      end
  | S fuel' =>
      match func attempt with
      | Returns v => ([EvCall attempt], Returns (Some v))
      | Raises exc =>
          if negb (is_rate_limit_error exc) then
            ([EvCall attempt], Raises exc)
          else if (max_retries p <=? attempt)%Z then
            ([EvCall attempt],
             Raises (Exn KRateLimitError
                       ("Rate limit exceeded after " ++ str_of_int (max_retries p)
                        ++ " retries: " ++ exn_str exc)))
          else
            let delay := jittered_delay p attempt (rand attempt) in
            let '(evs, res) :=
              retry_loop func rand p fuel' (attempt + 1)%Z (Some exc) in
            (EvCall attempt :: EvSleep delay :: evs, res)
      end
  end.

Definition retry_with_backoff {A} (func : Z -> outcome A) (rand : Z -> Q)
           (p : RetryParams) : list retry_event * outcome (option A) :=
  retry_loop func rand p (Z.to_nat (max_retries p + 1)) 0%Z None.

(** ** Helper functions *)

(** [Decimal.quantize(Decimal('1'), ROUND_DOWN)]: truncation toward zero. *)
Definition round_down (q : Q) : Z := Z.quot (Qnum q) (Zpos (Qden q)).

(** [ROUND_HALF_UP]: to the nearest integer, ties away from zero. *)
Definition round_half_up (q : Q) : Z :=
  if Qleb 0 q then Qfloor (q + (1 # 2)) else (- Qfloor (- q + (1 # 2)))%Z.

Definition _round_to_tick (value tick : Q) : Q :=
  if negb (float_truthy tick) || Qleb tick 0 then value
  else inject_Z (round_half_up (value / tick)) * tick.

Definition _floor_to_tick (value tick : Q) : Q :=
  if negb (float_truthy tick) || Qleb tick 0 then value
  else inject_Z (round_down (value / tick)) * tick.

Definition compute_base_size_from_quote (avg_mid size_quote : Q) : outcome Q :=
  if Qleb avg_mid 0 then
    Raises (Exn KValueError "Invalid mid price to compute base size.")
  else Returns (size_quote / avg_mid).

Definition get_avg_mid (lighter_bid lighter_ask aster_bid aster_ask : option Q)
  : outcome Q :=
  let lb := value_of lighter_bid in
  let la := value_of lighter_ask in
  let ab := value_of aster_bid in
  let aa := value_of aster_ask in
  let mids :=
    (if truthy lighter_bid && truthy lighter_ask then [(lb + la) / 2] else [])
    ++ (if truthy aster_bid && truthy aster_ask then [(ab + aa) / 2] else []) in
  match mids with
  | _ :: _ => Returns (py_sum mids / py_len mids)
  | [] =>
      if truthy lighter_bid && truthy lighter_ask then Returns ((lb + la) / 2)
      else if truthy aster_bid && truthy aster_ask then Returns ((ab + aa) / 2)
      else if truthy lighter_bid && truthy aster_ask then Returns ((lb + aa) / 2)
      else if truthy aster_bid && truthy lighter_ask then Returns ((ab + la) / 2)
      else Raises (Exn KRuntimeError "No usable prices from either venue.")
  end.

Definition _calculate_apr (rate : Q) (periods_per_day : Z) : Q :=
  rate * inject_Z periods_per_day * 365 * 100.

Definition calculate_stop_loss_percentage (leverage : Q) : Q :=
  if Qleb leverage 0 then 0
  else
    let liquidation_threshold := 100 / leverage in
    liquidation_threshold * (75 # 100).

(** ** Opportunity scanner *)

(** The price logic shared by [fetch_aster_mid] and [fetch_lighter_mid]: the
    mid of bid and ask, else the side that is there, else [None].  A fetch
    that fails is a quote with neither side. *)
Definition venue_mid (bid ask : option Q) : option Q :=
  if truthy bid && truthy ask then Some ((value_of bid + value_of ask) / 2)
  else if truthy bid || truthy ask then
    Some (if truthy bid then value_of bid else value_of ask)
  else None.

(** Python's float division. *)
Definition py_div (a b : Q) : outcome Q :=
  if float_truthy b then Returns (a / b)
  else Raises (Exn KZeroDivisionError "float division by zero").

(** Returns [(spread_pct, aster_mid, lighter_mid)]. *)
Definition fetch_symbol_spread (aster_bid aster_ask lighter_bid lighter_ask : option Q)
  : outcome (option Q * option Q * option Q) :=
  let aster_mid := venue_mid aster_bid aster_ask in
  let lighter_mid := venue_mid lighter_bid lighter_ask in
  match aster_mid, lighter_mid with
  | Some am, Some lm =>
      let price_diff := Qabs (am - lm) in
      let avg_mid := (am + lm) / 2 in
      match py_div price_diff avg_mid with
      | Returns x => Returns (Some (x * 100), aster_mid, lighter_mid)
      | Raises e => Raises e
      end
  | _, _ => Returns (None, aster_mid, lighter_mid)
  end.

(** The dict that a scan of one symbol yields; a key that the dict does not
    carry is [None]. *)
Record ScanResult := {
  r_symbol : string;
  r_available : bool;
  r_missing_on : option (list string);
  r_excluded_reason : option string;
  r_error : option string;
  r_spread_pct : option Q;
  r_aster_mid : option Q;
  r_lighter_mid : option Q;
  r_aster_rate : option Q;
  r_lighter_rate : option Q;
  r_aster_apr : option Q;
  r_lighter_apr : option Q;
  r_long_exch : option string;
  r_short_exch : option string;
  r_net_apr : option Q
}.

(** [aster_rate] and [lighter_rate] are what [fetch_aster_rate] and
    [fetch_lighter_rate] return ([None] after any failure); the quotes feed
    [fetch_symbol_spread].  The formatted numbers of the spread message are
    left out. *)
Definition fetch_symbol_funding (symbol : string)
           (aster_rate_decimal lighter_rate_decimal : option Q)
           (aster_bid aster_ask lighter_bid lighter_ask : option Q)
           (max_spread_pct : Q) : outcome ScanResult :=
  match fetch_symbol_spread aster_bid aster_ask lighter_bid lighter_ask with
  | Raises e => Raises e
  | Returns (spread_pct, aster_mid, lighter_mid) =>
      match aster_rate_decimal, lighter_rate_decimal with
      | Some ar, Some lr =>
          if match spread_pct with
             | Some sp => Qltb max_spread_pct sp
             | None => false
             end
          then
            Returns
              {| r_symbol := symbol; r_available := false;
                 r_missing_on := Some ["Spread too wide"%string];
                 r_excluded_reason := Some "spread"%string; r_error := None;
                 r_spread_pct := spread_pct;
                 r_aster_mid := aster_mid; r_lighter_mid := lighter_mid;
                 r_aster_rate := Some (ar * 100); r_lighter_rate := Some (lr * 100);
                 r_aster_apr := None; r_lighter_apr := None;
                 r_long_exch := None; r_short_exch := None; r_net_apr := None |}
          else
            let aster_apr := _calculate_apr ar 6 in
            let lighter_apr := _calculate_apr lr 3 in
            let long_aster_short_lighter := lighter_apr - aster_apr in
            let long_lighter_short_aster := aster_apr - lighter_apr in
            let '(long_exch, short_exch, net_apr) :=
              if Qleb long_lighter_short_aster long_aster_short_lighter
              then ("Aster"%string, "Lighter"%string, long_aster_short_lighter)
              else ("Lighter"%string, "Aster"%string, long_lighter_short_aster) in
            Returns
              {| r_symbol := symbol; r_available := true;
                 r_missing_on := None; r_excluded_reason := None; r_error := None;
                 r_spread_pct := spread_pct;
                 r_aster_mid := aster_mid; r_lighter_mid := lighter_mid;
                 r_aster_rate := Some (ar * 100); r_lighter_rate := Some (lr * 100);
                 r_aster_apr := Some aster_apr; r_lighter_apr := Some lighter_apr;
                 r_long_exch := Some long_exch; r_short_exch := Some short_exch;
                 r_net_apr := Some net_apr |}
      | _, _ =>
          let missing :=
            (match aster_rate_decimal with None => ["Aster"%string] | Some _ => [] end)
            ++ (match lighter_rate_decimal with None => ["Lighter"%string] | Some _ => [] end) in
          Returns
            {| r_symbol := symbol; r_available := false;
               r_missing_on :=
                 Some (match missing with
                       | [] => ["Data unavailable"%string]
                       | _ => missing
                       end);
               r_excluded_reason := None; r_error := None;
               r_spread_pct := spread_pct;
               r_aster_mid := aster_mid; r_lighter_mid := lighter_mid;
               r_aster_rate := None; r_lighter_rate := None;
               r_aster_apr := None; r_lighter_apr := None;
               r_long_exch := None; r_short_exch := None; r_net_apr := None |}
      end
  end.

(** What the two venues answer for one symbol during a scan. *)
Record SymbolFeed := {
  f_symbol : string;
  f_aster_rate : option Q;
  f_lighter_rate : option Q;
  f_aster_bid : option Q;
  f_aster_ask : option Q;
  f_lighter_bid : option Q;
  f_lighter_ask : option Q;
  f_timed_out : bool
}.

Definition fetch_with_timeout (quote : string) (max_spread_pct : Q)
           (f : SymbolFeed) : ScanResult :=
  let symbol := (f_symbol f ++ quote)%string in
  if f_timed_out f then
    {| r_symbol := symbol; r_available := false;
       r_missing_on := None; r_excluded_reason := None;
       r_error := Some "timeout"%string;
       r_spread_pct := None; r_aster_mid := None; r_lighter_mid := None;
       r_aster_rate := None; r_lighter_rate := None;
       r_aster_apr := None; r_lighter_apr := None;
       r_long_exch := None; r_short_exch := None; r_net_apr := None |}
  else
    match fetch_symbol_funding symbol (f_aster_rate f) (f_lighter_rate f)
            (f_aster_bid f) (f_aster_ask f) (f_lighter_bid f) (f_lighter_ask f)
            max_spread_pct with
    | Returns r => r
    | Raises e =>
        {| r_symbol := symbol; r_available := false;
           r_missing_on := None; r_excluded_reason := None;
           r_error := Some (substring 0 50 (exn_str e));
           r_spread_pct := None; r_aster_mid := None; r_lighter_mid := None;
           r_aster_rate := None; r_lighter_rate := None;
           r_aster_apr := None; r_lighter_apr := None;
           r_long_exch := None; r_short_exch := None; r_net_apr := None |}
    end.

(** [x["net_apr"]] of an available result. *)
Definition net_apr_of (r : ScanResult) : Q := value_of (r_net_apr r).

(** [list.sort(key=net_apr, reverse=True)]: descending and stable. *)
Fixpoint insert_desc (x : ScanResult) (l : list ScanResult) : list ScanResult :=
  match l with
  | [] => [x]
  | y :: l' =>
      if Qltb (net_apr_of x) (net_apr_of y) then y :: insert_desc x l'
      else x :: l
  end.

Definition sort_by_net_apr_desc (l : list ScanResult) : list ScanResult :=
  fold_right insert_desc [] l.

(** The scan of the supervisor loop: the results, then the available ones
    sorted, the unavailable ones, and the candidates above the threshold. *)
Definition scan_results (quote : string) (max_spread_pct : Q)
           (feeds : list SymbolFeed) : list ScanResult :=
  map (fetch_with_timeout quote max_spread_pct) feeds.

Definition scan_available (results : list ScanResult) : list ScanResult :=
  sort_by_net_apr_desc (filter r_available results).

Definition scan_unavailable (results : list ScanResult) : list ScanResult :=
  filter (fun r => negb (r_available r)) results.

Definition scan_candidates (min_net_apr_threshold : Q)
           (available : list ScanResult) : list ScanResult :=
  filter (fun r => Qleb min_net_apr_threshold (net_apr_of r)) available.

(** ** Trade coordinator: opening *)

(** An order handed to a venue. *)
Record Order := {
  ord_venue : string;
  ord_side : string;
  ord_size : Q;
  ord_ref_price : option Q
}.

(** What [open_delta_neutral_position] is called with and what the venues
    answer: the quotes, the amount ticks, and the result of each leg order. *)
Record OpenInput := {
  o_symbol : string;
  o_long_exchange : string;
  o_short_exchange : string;
  o_leverage : Q;
  o_notional_quote : Q;
  o_lighter_bid : option Q;
  o_lighter_ask : option Q;
  o_aster_bid : option Q;
  o_aster_ask : option Q;
  o_l_amount_tick : Q;
  o_aster_step_size : Q;
  o_long_fill : outcome unit;
  o_short_fill : outcome unit
}.

Record OpenMetadata := {
  m_lighter_amount_tick : Q;
  m_aster_step_size : Q;
  m_aster_bid : option Q;
  m_aster_ask : option Q;
  m_lighter_bid : option Q;
  m_lighter_ask : option Q;
  m_size_base : Q;
  m_avg_mid : Q
}.

(** The size computation of the open procedure: notional over the average
    mid, floored to the coarser tick, floored once more when the two venues
    would round it apart. *)
Definition open_size_base (avg_mid notional_quote l_amount_tick aster_step_size : Q)
  : outcome Q :=
  match compute_base_size_from_quote avg_mid notional_quote with
  | Raises e => Raises e
  | Returns size_base =>
      let coarser_tick := py_max l_amount_tick aster_step_size in
      let size_base := _floor_to_tick size_base coarser_tick in
      let lighter_rounded := _round_to_tick size_base l_amount_tick in
      let aster_rounded := _round_to_tick size_base aster_step_size in
      if Qltb (py_min l_amount_tick aster_step_size)
              (Qabs (lighter_rounded - aster_rounded))
      then Returns (_floor_to_tick size_base coarser_tick)
      else Returns size_base
  end.

Definition size_rounds_to_zero : pyexn :=
  Exn KRuntimeError "Computed size rounds to zero. Increase notional.".

(** The list of per-venue requirements that follows in the message is left
    out. *)
Definition order_size_too_small : pyexn :=
  Exn KRuntimeError "Order size too small. Requirements:".

(** The leg order for one side, or the error raised while preparing it. *)
Definition leg_order (i : OpenInput) (leg : string) (long : bool) (size_base : Q)
  : outcome Order :=
  if String.eqb leg "lighter" then
    let ref_price :=
      if long
      then (if truthy (o_lighter_ask i) then o_lighter_ask i else o_lighter_bid i)
      else (if truthy (o_lighter_bid i) then o_lighter_bid i else o_lighter_ask i) in
    match ref_price with
    | None =>
        Raises (Exn KRuntimeError
                  (if long then "Lighter: No reference price available for long leg."
                   else "Lighter: No reference price available for short leg."))
    | Some _ =>
        Returns {| ord_venue := "lighter"; ord_side := if long then "buy" else "sell";
                   ord_size := size_base; ord_ref_price := ref_price |}
    end
  else if String.eqb leg "aster" then
    Returns {| ord_venue := "aster"; ord_side := if long then "BUY" else "SELL";
               ord_size := size_base; ord_ref_price := None |}
  else
    Raises (Exn KRuntimeError
              (if long then "Unsupported long exchange" else "Unsupported short exchange")).

(** Returns the orders submitted to the venues and the result of the call.
    The leverage configuration, whose failures are only logged, is left
    out. *)
Definition open_delta_neutral_position (i : OpenInput)
  : list Order * outcome OpenMetadata :=
  let lighter_bid := o_lighter_bid i in
  let lighter_ask := o_lighter_ask i in
  let aster_bid := o_aster_bid i in
  let aster_ask := o_aster_ask i in
  if negb (truthy lighter_bid || truthy lighter_ask
           || truthy aster_bid || truthy aster_ask) then
    ([], Raises (Exn KRuntimeError "Could not fetch quotes from either venue."))
  else if negb (truthy lighter_bid || truthy lighter_ask) then
    ([], Raises (Exn KRuntimeError "Could not fetch any prices from Lighter"))
  else if negb (truthy aster_bid || truthy aster_ask) then
    ([], Raises (Exn KRuntimeError "Could not fetch any prices from Aster"))
  else
    match get_avg_mid lighter_bid lighter_ask aster_bid aster_ask with
    | Raises e => ([], Raises e)
    | Returns avg_mid =>
        match open_size_base avg_mid (o_notional_quote i)
                (o_l_amount_tick i) (o_aster_step_size i) with
        | Raises e => ([], Raises e)
        | Returns size_base =>
            if Qleb size_base 0 then ([], Raises size_rounds_to_zero)
            else
              let lighter_min_size := o_l_amount_tick i * 10 in
              let aster_min_size := o_aster_step_size i * 10 in
              let min_errors :=
                (if Qltb size_base lighter_min_size then ["Lighter"%string] else [])
                ++ (if Qltb size_base aster_min_size then ["Aster"%string] else []) in
              match min_errors with
              | _ :: _ => ([], Raises order_size_too_small)
              | [] =>
                  let long_leg := lower (o_long_exchange i) in
                  let short_leg := lower (o_short_exchange i) in
                  if String.eqb long_leg short_leg then
                    ([], Raises (Exn KRuntimeError
                                   "Long and short exchanges cannot be identical."))
                  else
                    match leg_order i long_leg true size_base with
                    | Raises e => ([], Raises e)
                    | Returns long_order =>
                        match leg_order i short_leg false size_base with
                        | Raises e => ([], Raises e)
                        | Returns short_order =>
                            ([long_order; short_order],
                             match o_long_fill i, o_short_fill i with
                             | Returns _, Returns _ =>
                                 Returns
                                   {| m_lighter_amount_tick := o_l_amount_tick i;
                                      m_aster_step_size := o_aster_step_size i;
                                      m_aster_bid := aster_bid;
                                      m_aster_ask := aster_ask;
                                      m_lighter_bid := lighter_bid;
                                      m_lighter_ask := lighter_ask;
                                      m_size_base := size_base;
                                      m_avg_mid := avg_mid |}
                             | _, _ =>
                                 Raises (Exn KRuntimeError
                                   "Delta-neutral order placement failed on at least one exchange.")
                             end)
                        end
                    end
              end
        end
    end.

(** ** State manager *)

Inductive BotState :=
| IDLE | ANALYZING | OPENING | HOLDING | CLOSING | WAITING | ERROR | SHUTDOWN.

Definition BotState_eqb (a b : BotState) : bool :=
  match a, b with
  | IDLE, IDLE | ANALYZING, ANALYZING | OPENING, OPENING | HOLDING, HOLDING
  | CLOSING, CLOSING | WAITING, WAITING | ERROR, ERROR | SHUTDOWN, SHUTDOWN => true
  | _, _ => false
  end.

Record BotConfig := {
  quote : string;
  leverage : Q;
  notional_per_position : Q;
  hold_duration_hours : Q;
  wait_between_cycles_minutes : Q;
  check_interval_seconds : Q;
  min_net_apr_threshold : Q;
  max_spread_pct : Q;
  enable_stop_loss : bool;
  funding_table_refresh_minutes : Q
}.

Definition default_config : BotConfig :=
  {| quote := "USDT"; leverage := 3; notional_per_position := 100;
     hold_duration_hours := 8; wait_between_cycles_minutes := 5;
     check_interval_seconds := 60; min_net_apr_threshold := 5;
     max_spread_pct := 15 # 100; enable_stop_loss := true;
     funding_table_refresh_minutes := 5 |}.

(** The keys of [position["metadata"]] that the bot reads back; a key that
    is not there is [None]. *)
Record PosMetadata := {
  md_size_base : option Q;
  md_avg_mid : option Q
}.

(** [state["current_position"]].  Times are seconds on the UTC clock. *)
Record Position := {
  p_symbol : string;
  p_long_exchange : string;
  p_short_exchange : string;
  p_leverage : option Q;
  p_opened_at : Q;
  p_target_close_at : Q;
  p_metadata : PosMetadata;
  p_expected_net_apr : option Q;
  p_last_table_refresh : option Q
}.

Record CycleRecord := {
  c_symbol : string;
  c_opened_at : Q;
  c_closed_at : Q;
  c_expected_net_apr : Q;
  c_status : string;
  c_pnl_at_close : option Q;
  c_pnl_pct_at_close : option Q;
  c_worst_exchange : option string
}.

Record Stats := {
  total_cycles : Z;
  successful_cycles : Z;
  failed_cycles : Z;
  last_error : option string;
  last_error_at : option Q
}.

(** [state_mgr.state], without the capital and configuration blocks and the
    [last_updated] stamp. *)
Record BotMem := {
  bot_state : BotState;
  current_position : option Position;
  completed_cycles : list CycleRecord;
  cumulative_stats : Stats
}.

(** Calls that reach the venues from the supervisor loop. *)
Inductive VenueCall :=
| CallOpen (i : OpenInput)
| CallClose (symbol : string).

(** The bot and its surroundings: the state in memory, every state written
    to the state file so far (oldest first), and the venue calls made. *)
Record World := {
  mem : BotMem;
  disk : list BotMem;
  calls : list VenueCall
}.

Definition with_mem (m : BotMem) (w : World) : World :=
  {| mem := m; disk := disk w; calls := calls w |}.

Definition with_call (c : VenueCall) (w : World) : World :=
  {| mem := mem w; disk := disk w; calls := calls w ++ [c] |}.

Definition put_state (s : BotState) (m : BotMem) : BotMem :=
  {| bot_state := s; current_position := current_position m;
     completed_cycles := completed_cycles m;
     cumulative_stats := cumulative_stats m |}.

Definition put_position (p : option Position) (m : BotMem) : BotMem :=
  {| bot_state := bot_state m; current_position := p;
     completed_cycles := completed_cycles m;
     cumulative_stats := cumulative_stats m |}.

Definition put_cycles (cs : list CycleRecord) (m : BotMem) : BotMem :=
  {| bot_state := bot_state m; current_position := current_position m;
     completed_cycles := cs; cumulative_stats := cumulative_stats m |}.

Definition put_stats (st : Stats) (m : BotMem) : BotMem :=
  {| bot_state := bot_state m; current_position := current_position m;
     completed_cycles := completed_cycles m; cumulative_stats := st |}.

(** [StateManager.save], when the write goes through: the state in memory
    becomes the content of the state file. *)
Definition save (w : World) : World :=
  {| mem := mem w; disk := disk w ++ [mem w]; calls := calls w |}.

Definition set_state (new_state : BotState) (w : World) : World :=
  save (with_mem (put_state new_state (mem w)) w).

Definition get_state (w : World) : BotState := bot_state (mem w).

(** *** Writing the state file *)

Inductive fs_event :=
| FsOpenTrunc (path : string)
| FsWrite (path content : string)
| FsFsync (path : string)
| FsClose (path : string)
| FsReplace (src dst : string)
| FsSleep (seconds : Q).

(** Where one attempt to write the file fails, if it does. *)
Inductive save_fault :=
| NoFault
| OpenFails (e : pyexn)
| DumpFails (e : pyexn)
| ReplaceFails (e : pyexn).

(** The body of the [try]: open the temporary file for writing, dump the
    state, close it, replace the state file. *)
Definition save_attempt (state_file content : string) (f : save_fault)
  : list fs_event * option pyexn :=
  let temp_file := (state_file ++ ".tmp")%string in
  match f with
  | OpenFails e => ([], Some e)
  | DumpFails e => ([FsOpenTrunc temp_file; FsClose temp_file], Some e)
  | ReplaceFails e =>
      ([FsOpenTrunc temp_file; FsWrite temp_file content; FsClose temp_file], Some e)
  | NoFault =>
      ([FsOpenTrunc temp_file; FsWrite temp_file content; FsClose temp_file;
        FsReplace temp_file state_file], None)
  end.

Definition save_max_retries : Z := 3.

(** The [for attempt in range(max_retries)] loop of [StateManager.save];
    [faults k] is what goes wrong on attempt [k]. *)
Fixpoint save_loop (state_file content : string) (faults : Z -> save_fault)
         (fuel : nat) (attempt : Z) : list fs_event :=
  match fuel with
  | O => []
  | S fuel' =>
      let '(evs, err) := save_attempt state_file content (faults attempt) in
      match err with
      | None => evs
      | Some e =>
          match exn_class e with
          | KOSError errno =>
              if (errno =? 16)%Z && (attempt <? save_max_retries - 1)%Z then
                evs ++ [FsSleep ((1 # 10) * inject_Z (attempt + 1))]
                    ++ save_loop state_file content faults fuel' (attempt + 1)%Z
              else if (attempt =? save_max_retries - 1)%Z then
                evs ++ save_loop state_file content faults fuel' (attempt + 1)%Z
              else evs
          | _ => evs
          end
      end
  end.

Definition save_file (state_file content : string) (faults : Z -> save_fault)
  : list fs_event :=
  save_loop state_file content faults (Z.to_nat save_max_retries) 0%Z.

(** ** Position recovery *)

Definition put_size_base (size_base : Q) (p : Position) : Position :=
  {| p_symbol := p_symbol p; p_long_exchange := p_long_exchange p;
     p_short_exchange := p_short_exchange p; p_leverage := p_leverage p;
     p_opened_at := p_opened_at p; p_target_close_at := p_target_close_at p;
     p_metadata := {| md_size_base := Some size_base;
                      md_avg_mid := md_avg_mid (p_metadata p) |};
     p_expected_net_apr := p_expected_net_apr p;
     p_last_table_refresh := p_last_table_refresh p |}.

Definition clear_position (w : World) : World :=
  save (with_mem (put_position None (mem w)) w).

(** A venue holds a position in the symbol. *)
Definition has_pos (size : Q) : bool := Qltb (1 # 10000) (Qabs size).

Definition opposite_signed (aster_size lighter_size : Q) : bool :=
  (Qltb 0 aster_size && Qltb lighter_size 0)
  || (Qltb aster_size 0 && Qltb 0 lighter_size).

(** [live] is what the two venues answer to the size queries,
    [(aster_size, lighter_size)], or the exception of a failed query.
    Returns whether the position is to be held.  The stored close time is a
    field of [Position], so reading it back cannot fail here. *)
Definition verify_and_recover_position (w : World) (live : outcome (Q * Q))
  : bool * World :=
  match current_position (mem w) with
  | None => (false, w)
  | Some position =>
      if String.eqb (p_symbol position) "" then (false, clear_position w)
      else
        match live with
        | Raises _ => (false, clear_position w)
        | Returns (aster_size, lighter_size) =>
            let has_aster_pos := has_pos aster_size in
            let has_lighter_pos := has_pos lighter_size in
            if has_aster_pos && has_lighter_pos then
              if opposite_signed aster_size lighter_size then
                let saved_size_base := value_of (md_size_base (p_metadata position)) in
                let actual_aster_size := Qabs aster_size in
                let actual_lighter_size := Qabs lighter_size in
                let actual_size_base := (actual_aster_size + actual_lighter_size) / 2 in
                let size_diff := Qabs (actual_size_base - saved_size_base) in
                let size_diff_pct :=
                  if Qltb 0 saved_size_base then size_diff / saved_size_base * 100
                  else 0 in
                if Qltb (1 # 1000) size_diff && Qltb (1 # 10) size_diff_pct then
                  (true,
                   save (with_mem
                           (put_position
                              (Some (put_size_base actual_size_base position))
                              (mem w)) w))
                else (true, w)
              else (false, clear_position w)
            else if has_aster_pos || has_lighter_pos then (false, clear_position w)
            else (false, clear_position w)
        end
  end.

(** The recovery check that [main_loop] runs before its loop. *)
Definition startup_recovery (w : World) (live : outcome (Q * Q)) : World :=
  match current_position (mem w) with
  | None => w
  | Some _ =>
      let '(position_valid, w1) := verify_and_recover_position w live in
      if position_valid then
        if negb (BotState_eqb (get_state w1) HOLDING) then set_state HOLDING w1
        else w1
      else
        if BotState_eqb (get_state w1) HOLDING then set_state IDLE w1
        else w1
  end.

(** ** Supervisor loop *)

(** What the outside world answers during one pass of the loop. *)
Record IterEnv := {
  e_now : Q;
  e_feeds : list SymbolFeed;
  e_venues : OpenInput;
  e_aster_pnl : option Q;
  e_lighter_pnl : option Q;
  e_close : outcome unit;
  e_refresh_ok : bool
}.

(** The call [open_delta_neutral_position(best['symbol'], best['long_exch'],
    best['short_exch'], config.leverage, config.notional_per_position)]. *)
Definition open_call (config : BotConfig) (best : ScanResult) (v : OpenInput)
  : OpenInput :=
  {| o_symbol := r_symbol best;
     o_long_exchange := match r_long_exch best with Some x => x | None => "" end;
     o_short_exchange := match r_short_exch best with Some x => x | None => "" end;
     o_leverage := leverage config;
     o_notional_quote := notional_per_position config;
     o_lighter_bid := o_lighter_bid v; o_lighter_ask := o_lighter_ask v;
     o_aster_bid := o_aster_bid v; o_aster_ask := o_aster_ask v;
     o_l_amount_tick := o_l_amount_tick v;
     o_aster_step_size := o_aster_step_size v;
     o_long_fill := o_long_fill v; o_short_fill := o_short_fill v |}.

Definition record_error (msg : string) (now : Q) (w : World) : World :=
  let st := cumulative_stats (mem w) in
  with_mem (put_stats {| total_cycles := total_cycles st;
                         successful_cycles := successful_cycles st;
                         failed_cycles := failed_cycles st;
                         last_error := Some msg;
                         last_error_at := Some now |} (mem w)) w.

(** [set_state(ERROR)], then the error is noted and the state saved again. *)
Definition enter_error (msg : string) (now : Q) (w : World) : World :=
  save (record_error msg now (set_state ERROR w)).

(** The branch for [IDLE] and [WAITING]: scan, pick, open. *)
Definition analyze_and_open (config : BotConfig) (env : IterEnv) (w : World)
  : World :=
  let w := set_state ANALYZING w in
  let results := scan_results (quote config) (max_spread_pct config) (e_feeds env) in
  match filter r_available results with
  | [] => set_state WAITING w
  | _ :: _ =>
      let available := scan_available results in
      match scan_candidates (min_net_apr_threshold config) available with
      | [] => set_state WAITING w
      | best :: _ =>
          let w := set_state OPENING w in
          let call := open_call config best (e_venues env) in
          let w := with_call (CallOpen call) w in
          match snd (open_delta_neutral_position call) with
          | Returns metadata =>
              let position :=
                {| p_symbol := r_symbol best;
                   p_long_exchange := o_long_exchange call;
                   p_short_exchange := o_short_exchange call;
                   p_leverage := Some (leverage config);
                   p_opened_at := e_now env;
                   p_target_close_at :=
                     e_now env + hold_duration_hours config * 3600;
                   p_metadata := {| md_size_base := Some (m_size_base metadata);
                                    md_avg_mid := Some (m_avg_mid metadata) |};
                   p_expected_net_apr := r_net_apr best;
                   p_last_table_refresh := None |} in
              set_state HOLDING (with_mem (put_position (Some position) (mem w)) w)
          | Raises e => enter_error (exn_str e) (e_now env) w
          end
      end
  end.

Definition append_cycle (c : CycleRecord) (failed : bool) (w : World) : World :=
  let m := mem w in
  let st := cumulative_stats m in
  let st' :=
    {| total_cycles := total_cycles st + 1;
       successful_cycles := if failed then successful_cycles st
                            else successful_cycles st + 1;
       failed_cycles := if failed then failed_cycles st + 1 else failed_cycles st;
       last_error := last_error st; last_error_at := last_error_at st |} in
  with_mem (put_position None
              (put_stats st' (put_cycles (completed_cycles m ++ [c]) m))) w.

(** The leg with the most negative PnL; the other leg when one is missing. *)
Definition worst_leg (aster_pnl lighter_pnl : option Q) : option (Q * string) :=
  match aster_pnl, lighter_pnl with
  | Some a, Some l =>
      if Qleb a l then Some (a, "Aster"%string) else Some (l, "Lighter"%string)
  | Some a, None => Some (a, "Aster"%string)
  | None, Some l => Some (l, "Lighter"%string)
  | None, None => None
  end.

(** The value that PnL is measured against. *)
Definition position_value (config : BotConfig) (position : Position) : Q :=
  let size_base := value_of (md_size_base (p_metadata position)) in
  let avg_mid := value_of (md_avg_mid (p_metadata position)) in
  if float_truthy size_base && float_truthy avg_mid then size_base * avg_mid
  else notional_per_position config.

Definition position_leverage (config : BotConfig) (position : Position) : Q :=
  match p_leverage position with
  | Some l => l
  | None => leverage config
  end.

(** The stop-loss test of the monitor: [Some (worst_pnl, pnl_pct,
    worst_exchange)] when the position is to be closed early. *)
Definition stop_loss_check (config : BotConfig) (position : Position)
           (aster_pnl lighter_pnl : option Q) : option (Q * Q * string) :=
  let stop_loss_pct :=
    calculate_stop_loss_percentage (position_leverage config position) in
  let position_value := position_value config position in
  match worst_leg aster_pnl lighter_pnl with
  | Some (worst_pnl, worst_exchange) =>
      if Qltb 0 position_value then
        let pnl_pct := worst_pnl / position_value * 100 in
        if enable_stop_loss config && Qleb stop_loss_pct (Qabs pnl_pct)
        then Some (worst_pnl, pnl_pct, worst_exchange)
        else None
      else None
  | None => None
  end.

Definition put_last_table_refresh (t : Q) (p : Position) : Position :=
  {| p_symbol := p_symbol p; p_long_exchange := p_long_exchange p;
     p_short_exchange := p_short_exchange p; p_leverage := p_leverage p;
     p_opened_at := p_opened_at p; p_target_close_at := p_target_close_at p;
     p_metadata := p_metadata p;
     p_expected_net_apr := p_expected_net_apr p;
     p_last_table_refresh := Some t |}.

Definition cycle_of (position : Position) (closed_at : Q) (status : string)
           (pnl : option (Q * Q * string)) : CycleRecord :=
  {| c_symbol := p_symbol position;
     c_opened_at := p_opened_at position;
     c_closed_at := closed_at;
     c_expected_net_apr := value_of (p_expected_net_apr position);
     c_status := status;
     c_pnl_at_close := match pnl with Some (w, _, _) => Some w | None => None end;
     c_pnl_pct_at_close := match pnl with Some (_, pct, _) => Some pct | None => None end;
     c_worst_exchange := match pnl with Some (_, _, ex) => Some ex | None => None end |}.

(** The branch for [HOLDING]: close when the hold time is over, else test
    the stop-loss, else refresh the funding table when it is due. *)
Definition hold_and_monitor (config : BotConfig) (env : IterEnv) (w : World)
  : World :=
  match current_position (mem w) with
  | None => set_state IDLE w
  | Some position =>
      let now := e_now env in
      if Qleb (p_target_close_at position) now then
        let w := set_state CLOSING w in
        let w := with_call (CallClose (p_symbol position)) w in
        match e_close env with
        | Returns _ =>
            let w := append_cycle (cycle_of position now "success" None) false w in
            let w := set_state WAITING w in
            set_state IDLE w
        | Raises e => enter_error (exn_str e) now w
        end
      else
        match stop_loss_check config position (e_aster_pnl env) (e_lighter_pnl env) with
        | Some hit =>
            let w := set_state CLOSING w in
            let w := with_call (CallClose (p_symbol position)) w in
            match e_close env with
            | Returns _ =>
                let w := append_cycle (cycle_of position now "stop-loss" (Some hit))
                                      true w in
                let w := save w in
                set_state IDLE w
            | Raises e =>
                enter_error ("Stop-loss execution failed: " ++ exn_str e) now w
            end
        | None =>
            let should_refresh :=
              match p_last_table_refresh position with
              | None => true
              | Some last_refresh_time =>
                  Qleb (funding_table_refresh_minutes config)
                       ((now - last_refresh_time) / 60)
              end in
            if should_refresh && e_refresh_ok env then
              save (with_mem
                      (put_position (Some (put_last_table_refresh now position))
                                    (mem w)) w)
            else w
        end
  end.

(** One pass of the [while True] loop. *)
Definition loop_iteration (config : BotConfig) (env : IterEnv) (w : World)
  : World :=
  match get_state w with
  | IDLE | WAITING => analyze_and_open config env w
  | HOLDING => hold_and_monitor config env w
  | ERROR => set_state IDLE w
  | ANALYZING | OPENING | CLOSING | SHUTDOWN => set_state IDLE w
  end.

(** The loop, for as many passes as there are environments. *)
Definition main_loop (config : BotConfig) (envs : list IterEnv) (w : World)
  : World :=
  fold_left (fun w env => loop_iteration config env w) envs w.

(** ** Rounding up to a tick *)

(** [Decimal.quantize(Decimal('1'), ROUND_UP)]: away from zero. *)
Definition round_up (q : Q) : Z := if Qleb 0 q then Qceiling q else Qfloor q.

Definition _ceil_to_tick (value tick : Q) : Q :=
  if negb (float_truthy tick) || Qleb tick 0 then value
  else inject_Z (round_up (value / tick)) * tick.

(** ** Trade coordinator: closing *)

(** The [positionAmt] of the first Aster position in the symbol, [0.0] when
    there is none.  A position is its symbol and its signed amount. *)
Definition aster_position_amt (positions : list (string * Q)) (symbol : string) : Q :=
  match find (fun pos => String.eqb (fst pos) symbol) positions with
  | Some pos => snd pos
  | None => 0
  end.

(** Truth value of an [Optional[str]]: [None] and the empty text are
    falsy. *)
Definition str_truthy (s : option string) : bool :=
  match s with
  | Some text => negb (String.eqb text "")
  | None => false
  end.

(** What [close_delta_neutral_position] is called with and what the venues
    answer, call by call in the order of the source: the error text of
    [check_client], the market details (of which only the amount tick is
    used here), the Lighter quote, the Aster account and the Lighter size
    before the close, the result of each close order, the Aster account and
    the Lighter size after it.  Every read may raise.  The positions of the
    Aster account are given as symbol and amount, already parsed. *)
Record CloseInput := {
  k_symbol : string;
  k_check_client : option string;
  k_market_details : outcome Q;
  k_best_bid_ask : outcome (option Q * option Q);
  k_aster_account : outcome (list (string * Q));
  k_lighter_open_size : outcome Q;
  k_lighter_fill : outcome unit;
  k_aster_fill : outcome unit;
  k_aster_account_after : outcome (list (string * Q));
  k_lighter_open_size_after : outcome Q
}.

(** Returns the close orders submitted and the result of the call; a call
    that returns yields what it reports on the console,
    [(aster_closed, lighter_closed)].  No read is inside a [try]: the
    exception of a failing read is the exception of the call.  Building the
    clients and closing them at the end are taken to succeed. *)
Definition close_delta_neutral_position (i : CloseInput)
  : list Order * outcome (bool * bool) :=
  let err := k_check_client i in
  if str_truthy err then
    ([], Raises (Exn KRuntimeError
                     ("Lighter check_client error: "
                      ++ match err with Some text => text | None => "" end)))
  else
    match k_market_details i with
    | Raises e => ([], Raises e)
    | Returns l_amount_tick =>
    match k_best_bid_ask i with
    | Raises e => ([], Raises e)
    | Returns (lighter_bid, lighter_ask) =>
    match k_aster_account i with
    | Raises e => ([], Raises e)
    | Returns aster_positions =>
    let aster_size := aster_position_amt aster_positions (k_symbol i) in
    match k_lighter_open_size i with
    | Raises e => ([], Raises e)
    | Returns lighter_size =>
      let lighter_tasks :=
        if Qltb l_amount_tick (Qabs lighter_size) then
          let lighter_close_side := if Qltb 0 lighter_size then "sell"%string
                                    else "buy"%string in
          let ref_price := if String.eqb lighter_close_side "sell"
                           then lighter_bid else lighter_ask in
          if truthy ref_price then
            [({| ord_venue := "lighter"; ord_side := lighter_close_side;
                 ord_size := Qabs lighter_size; ord_ref_price := ref_price |},
              k_lighter_fill i)]
          else []
        else [] in
      let aster_tasks :=
        if Qltb (1 # 10000) (Qabs aster_size) then
          let aster_close_side := if Qltb aster_size 0 then "BUY"%string
                                  else "SELL"%string in
          [({| ord_venue := "aster"; ord_side := aster_close_side;
               ord_size := Qabs aster_size; ord_ref_price := None |},
            k_aster_fill i)]
        else [] in
      let tasks := lighter_tasks ++ aster_tasks in
      let orders := map fst tasks in
      let errors :=
        filter (fun res => match res with Raises _ => true | Returns _ => false end)
               (map snd tasks) in
      match errors with
      | _ :: _ =>
          (orders,
           Raises (Exn KRuntimeError
                       "Failed to close positions on one or more venues."))
      | [] =>
          match k_aster_account_after i with
          | Raises e => (orders, Raises e)
          | Returns aster_positions_after =>
          let aster_size_after :=
            aster_position_amt aster_positions_after (k_symbol i) in
          match k_lighter_open_size_after i with
          | Raises e => (orders, Raises e)
          | Returns lighter_size_after =>
              let aster_closed := Qltb (Qabs aster_size_after) (1 # 10000) in
              let lighter_closed := Qltb (Qabs lighter_size_after) l_amount_tick in
              (orders, Returns (aster_closed, lighter_closed))
          end
          end
      end
    end
    end
    end
    end.

(** ** Emergency exit *)

(** A position as [emergency_exit.py] lists it. *)
Record EPosition := {
  ep_symbol : string;
  ep_size : Q;
  ep_entry_price : Q;
  ep_unrealized_pnl : Q;
  ep_side : string
}.

(** A position of the Aster account as the venue reports it. *)
Record AsterRaw := {
  ar_symbol : string;
  ar_positionAmt : Q;
  ar_entryPrice : Q;
  ar_unrealizedProfit : Q
}.

(** The Aster half of [get_all_positions]. *)
Definition aster_open_positions (raw : list AsterRaw) : list EPosition :=
  flat_map
    (fun pos =>
       let size := ar_positionAmt pos in
       if Qltb (1 # 10000) (Qabs size) then
         [{| ep_symbol := ar_symbol pos; ep_size := size;
             ep_entry_price := ar_entryPrice pos;
             ep_unrealized_pnl := ar_unrealizedProfit pos;
             ep_side := if Qltb 0 size then "LONG" else "SHORT" |}]
       else [])
    raw.

Record MatchedPair := {
  mp_symbol : string;
  mp_aster : EPosition;
  mp_lighter : EPosition
}.

Definition match_delta_neutral_positions (aster_positions lighter_positions : list EPosition)
  : list MatchedPair :=
  flat_map
    (fun aster_pos =>
       let aster_symbol := ep_symbol aster_pos in
       flat_map
         (fun lighter_pos =>
            let lighter_symbol := (ep_symbol lighter_pos ++ "USDT")%string in
            if String.eqb aster_symbol lighter_symbol then
              let aster_size := ep_size aster_pos in
              let lighter_size := ep_size lighter_pos in
              if (Qltb 0 aster_size && Qltb lighter_size 0)
                 || (Qltb aster_size 0 && Qltb 0 lighter_size)
              then [{| mp_symbol := aster_symbol; mp_aster := aster_pos;
                       mp_lighter := lighter_pos |}]
              else []
            else [])
         lighter_positions)
    aster_positions.

(** Returns the total unrealized PnL that it prints, [None] when there is
    no pair. *)
Definition display_positions (matched_pairs : list MatchedPair) : option Q :=
  match matched_pairs with
  | [] => None
  | _ :: _ =>
      Some (fold_left
              (fun total_pnl pair =>
                 let pair_pnl := ep_unrealized_pnl (mp_aster pair)
                                 + ep_unrealized_pnl (mp_lighter pair) in
                 total_pnl + pair_pnl)
              matched_pairs 0)
  end.

(** What the venues answer for one pair: the two Lighter lookups of the
    closing loop, and the three reads of the verifying loop.  Every one may
    raise. *)
Record PairVenue := {
  pv_market_details : outcome Q;
  pv_best_bid_ask : outcome (option Q * option Q);
  pv_aster_account_after : outcome (list (string * Q));
  pv_market_details_after : outcome Q;
  pv_lighter_open_size_after : outcome Q
}.

(** One pass of the closing loop of [close_positions]: the close orders
    submitted for the pair, and the exception that ends the loop when a
    lookup fails.  A rejected order is printed and the loop goes on. *)
Definition close_pair_orders (pair : MatchedPair) (v : PairVenue)
  : list Order * option pyexn :=
  match pv_market_details v with
  | Raises e => ([], Some e)
  | Returns l_amount_tick =>
  match pv_best_bid_ask v with
  | Raises e => ([], Some e)
  | Returns (lighter_bid, lighter_ask) =>
    let lighter_size := ep_size (mp_lighter pair) in
    let lighter_tasks :=
      if Qltb l_amount_tick (Qabs lighter_size) then
        let lighter_close_side := if Qltb 0 lighter_size then "sell"%string
                                  else "buy"%string in
        let ref_price := if String.eqb lighter_close_side "sell"
                         then lighter_bid else lighter_ask in
        if truthy ref_price then
          [{| ord_venue := "lighter"; ord_side := lighter_close_side;
              ord_size := Qabs lighter_size; ord_ref_price := ref_price |}]
        else []
      else [] in
    let aster_size := ep_size (mp_aster pair) in
    let aster_tasks :=
      if Qltb (1 # 10000) (Qabs aster_size) then
        let aster_close_side := if Qltb aster_size 0 then "BUY"%string
                                else "SELL"%string in
        [{| ord_venue := "aster"; ord_side := aster_close_side;
            ord_size := Qabs aster_size; ord_ref_price := None |}]
      else [] in
    (lighter_tasks ++ aster_tasks, None)
  end
  end.

(** The closing loop: pair after pair, until a lookup raises. *)
Fixpoint close_loop (pairs : list (MatchedPair * PairVenue))
  : list Order * option pyexn :=
  match pairs with
  | [] => ([], None)
  | (matched_pair, v) :: rest =>
      match close_pair_orders matched_pair v with
      | (orders, Some e) => (orders, Some e)
      | (orders, None) =>
          let '(later, err) := close_loop rest in
          (orders ++ later, err)
      end
  end.

(** The verifying loop: what it prints for each pair,
    [(aster_closed, lighter_closed)], until a read raises. *)
Fixpoint verify_loop (pairs : list (MatchedPair * PairVenue))
  : outcome (list (bool * bool)) :=
  match pairs with
  | [] => Returns []
  | (matched_pair, v) :: rest =>
      match pv_aster_account_after v with
      | Raises e => Raises e
      | Returns positions =>
      let aster_size := aster_position_amt positions (mp_symbol matched_pair) in
      match pv_market_details_after v with
      | Raises e => Raises e
      | Returns l_amount_tick =>
      match pv_lighter_open_size_after v with
      | Raises e => Raises e
      | Returns lighter_size =>
          let aster_closed := Qltb (Qabs aster_size) (1 # 10000) in
          let lighter_closed := Qltb (Qabs lighter_size) l_amount_tick in
          match verify_loop rest with
          | Raises e => Raises e
          | Returns report => Returns ((aster_closed, lighter_closed) :: report)
          end
      end
      end
      end
  end.

(** [close_positions]: the orders submitted and the result of the call.
    [check_client] is the error text of the Lighter signer; the loops run
    under [try ... finally] with no [except], so the exception of a failing
    read is the exception of the call.  Building the clients and closing
    them in the [finally] are taken to succeed. *)
Definition close_positions (check_client : option string)
           (pairs : list (MatchedPair * PairVenue))
  : list Order * outcome (list (bool * bool)) :=
  if str_truthy check_client then
    ([], Raises (Exn KRuntimeError
                     ("Lighter check_client error: "
                      ++ match check_client with Some text => text | None => "" end)))
  else
    match close_loop pairs with
    | (orders, Some e) => (orders, Raises e)
    | (orders, None) => (orders, verify_loop pairs)
    end.

(** ** The state file on disk *)

(** A file system: the content of each path that exists. *)
Definition fs_state := string -> option string.

Definition fs_set (fs : fs_state) (path : string) (c : option string) : fs_state :=
  fun q => if String.eqb q path then c else fs q.

(** [open(path, 'w')] creates or empties the file, the dump fills it,
    [os.replace] moves the source over the destination. *)
Definition apply_fs_event (fs : fs_state) (ev : fs_event) : fs_state :=
  match ev with
  | FsOpenTrunc path => fs_set fs path (Some ""%string)
  | FsWrite path content => fs_set fs path (Some content)
  | FsReplace src dst => fs_set (fs_set fs dst (fs src)) src None
  | FsFsync _ | FsClose _ | FsSleep _ => fs
  end.

Definition run_fs (evs : list fs_event) (fs : fs_state) : fs_state :=
  fold_left apply_fs_event evs fs.

(** ** Vocabulary of the properties *)

(** A call returns a float equal to [q]; a call raises. *)
Definition returns_to (o : outcome Q) (q : Q) : Prop :=
  exists r, o = Returns r /\ r == q.

Definition raises {A} (o : outcome A) : Prop := exists e, o = Raises e.

(** A price of [0] read as an absent price. *)
Definition zero_as_absent (x : option Q) : option Q :=
  if truthy x then x else None.

(** How many of the given prices are present. *)
Definition present_count (xs : list (option Q)) : nat :=
  List.length (filter truthy xs).

(** The markers the classifier looks for. *)
Definition rate_limit_markers : list string :=
  ["429"; "too many requests"; "23000"; "rate limit"; "ratelimit"]%string.

(** Attempt [k] of the wrapped call fails with a rate-limit error. *)
Definition rate_limited {A} (func : Z -> outcome A) (k : Z) : Prop :=
  exists e, func k = Raises e /\ is_rate_limit_error e = true.

(** The calls and sleeps of [n] failed attempts, starting at attempt [from]:
    each failed call is followed by one sleep of its jittered delay. *)
Definition retries_before (p : RetryParams) (rand : Z -> Q) (from n : nat)
  : list retry_event :=
  flat_map (fun i => [EvCall (Z.of_nat i);
                      EvSleep (jittered_delay p (Z.of_nat i) (rand (Z.of_nat i)))])
           (seq from n).

(** A feed on which one of the two mids could not be fetched. *)
Definition mid_missing (f : SymbolFeed) : Prop :=
  venue_mid (f_aster_bid f) (f_aster_ask f) = None \/
  venue_mid (f_lighter_bid f) (f_lighter_ask f) = None.

(** A feed on which one of the two funding rates could not be fetched. *)
Definition rate_missing (f : SymbolFeed) : Prop :=
  f_aster_rate f = None \/ f_lighter_rate f = None.

(** The names of the venues whose funding rate is missing. *)
Definition missing_venues (f : SymbolFeed) : list string :=
  (match f_aster_rate f with None => ["Aster"%string] | Some _ => [] end)
  ++ (match f_lighter_rate f with None => ["Lighter"%string] | Some _ => [] end).

(** Both rates arrive, the Aster book answers nothing. *)
Definition feed_without_aster_mid : SymbolFeed :=
  {| f_symbol := "ETH"; f_aster_rate := Some (1 # 10000);
     f_lighter_rate := Some (5 # 10000);
     f_aster_bid := None; f_aster_ask := None;
     f_lighter_bid := Some 3000; f_lighter_ask := Some 3001;
     f_timed_out := false |}.

(** The Lighter rate fetch fails, both books answer. *)
Definition feed_without_lighter_rate : SymbolFeed :=
  {| f_symbol := "ETH"; f_aster_rate := Some (1 # 10000);
     f_lighter_rate := None;
     f_aster_bid := Some 3000; f_aster_ask := Some 3001;
     f_lighter_bid := Some 3000; f_lighter_ask := Some 3001;
     f_timed_out := false |}.

(** The two errors by which the open procedure refuses a size. *)
Definition size_too_small (e : pyexn) : Prop :=
  e = size_rounds_to_zero \/ e = order_size_too_small.

(** A BTC open: 100 USDT at a mid near 50 000 with ticks of 0.001. *)
Definition btc_open : OpenInput :=
  {| o_symbol := "BTCUSDT"; o_long_exchange := "Lighter";
     o_short_exchange := "Aster"; o_leverage := 3; o_notional_quote := 100;
     o_lighter_bid := Some 49999; o_lighter_ask := Some 50001;
     o_aster_bid := Some 49998; o_aster_ask := Some 50002;
     o_l_amount_tick := 1 # 1000; o_aster_step_size := 1 # 1000;
     o_long_fill := Returns tt; o_short_fill := Returns tt |}.

(** The average mid that [btc_open] yields. *)
Definition btc_avg_mid : Q :=
  Eval vm_compute in
    match get_avg_mid (o_lighter_bid btc_open) (o_lighter_ask btc_open)
                      (o_aster_bid btc_open) (o_aster_ask btc_open) with
    | Returns m => m
    | Raises _ => 0
    end.

(** Attempt [k] of a save fails with [OSError] number 16 (busy). *)
Definition busy_at (state_file content : string) (faults : Z -> save_fault)
           (k : Z) : Prop :=
  exists e, snd (save_attempt state_file content (faults k)) = Some e /\
            exn_class e = KOSError 16.

(** The events of attempt [k] of a save. *)
Definition attempt_events (state_file content : string)
           (faults : Z -> save_fault) (k : Z) : list fs_event :=
  fst (save_attempt state_file content (faults k)).

(** A transient error that is not "busy": [EAGAIN], number 11. *)
Definition fails_once_with_eagain (k : Z) : save_fault :=
  if (k =? 0)%Z then ReplaceFails (Exn (KOSError 11) "Resource temporarily unavailable")
  else NoFault.

(** The invariant of the state file as the specification words it, and the
    half of it that the supervisor loop keeps. *)
Definition holding_iff_position (m : BotMem) : Prop :=
  bot_state m = HOLDING <-> current_position m <> None.

Definition holding_has_position (m : BotMem) : Prop :=
  bot_state m = HOLDING -> current_position m <> None.

(** [w'] is [w] after some more saves, each of a state that satisfies [P]. *)
Definition saves_only (P : BotMem -> Prop) (w w' : World) : Prop :=
  exists added, disk w' = disk w ++ added /\ Forall P added.

(** A BTC hedge of 0.02 BTC opened at time 0 for eight hours. *)
Definition btc_position : Position :=
  {| p_symbol := "BTCUSDT"; p_long_exchange := "Lighter";
     p_short_exchange := "Aster"; p_leverage := Some 3;
     p_opened_at := 0; p_target_close_at := 28800;
     p_metadata := {| md_size_base := Some (2 # 100); md_avg_mid := Some 50000 |};
     p_expected_net_apr := Some 30; p_last_table_refresh := None |}.

Definition no_stats : Stats :=
  {| total_cycles := 0; successful_cycles := 0; failed_cycles := 0;
     last_error := None; last_error_at := None |}.

(** The bot with [btc_position] stored and the given state, nothing saved
    yet. *)
Definition btc_world (s : BotState) : World :=
  {| mem := {| bot_state := s; current_position := Some btc_position;
               completed_cycles := []; cumulative_stats := no_stats |};
     disk := []; calls := [] |}.

(** A pass of the loop at time [now] on which the legs show the given PnL
    and the close goes through. *)
Definition quiet_env (now : Q) (aster_pnl lighter_pnl : option Q) : IterEnv :=
  {| e_now := now; e_feeds := []; e_venues := btc_open;
     e_aster_pnl := aster_pnl; e_lighter_pnl := lighter_pnl;
     e_close := Returns tt; e_refresh_ok := false |}.

(** The size mismatch that makes recovery take over the observed size. *)
Definition size_mismatch (observed stored : Q) : Prop :=
  (1 # 1000) < Qabs (observed - stored) /\ 0 < stored /\
  (1 # 10) < Qabs (observed - stored) / stored * 100.

(** The error by which the retry wrapper gives up on [cause]. *)
Definition rate_limit_exhausted (p : RetryParams) (cause : pyexn) : pyexn :=
  Exn KRateLimitError
      ("Rate limit exceeded after " ++ str_of_int (max_retries p)
       ++ " retries: " ++ exn_str cause).

(** How a run of the retry wrapper ends on attempt [k]. *)
Definition retry_ending {A} (func : Z -> outcome A) (p : RetryParams) (k : nat)
           (res : outcome (option A)) : Prop :=
  (exists v, func (Z.of_nat k) = Returns v /\ res = Returns (Some v)) \/
  (exists e, func (Z.of_nat k) = Raises e /\ is_rate_limit_error e = false /\
             res = Raises e) \/
  (exists e, func (Z.of_nat k) = Raises e /\ is_rate_limit_error e = true /\
             Z.of_nat k = max_retries p /\ res = Raises (rate_limit_exhausted p e)).

(** A price that is present is not negative. *)
Definition not_negative (x : option Q) : Prop :=
  forall q, x = Some q -> 0 <= q.

(** The venue answered for this symbol without timing out, both funding
    rates came back, and the spread could be computed or was left
    undefined and does not exceed the limit. *)
Definition feed_eligible (max_spread_pct : Q) (f : SymbolFeed) : Prop :=
  f_timed_out f = false /\
  f_aster_rate f <> None /\ f_lighter_rate f <> None /\
  exists sp am lm,
    fetch_symbol_spread (f_aster_bid f) (f_aster_ask f)
                        (f_lighter_bid f) (f_lighter_ask f) = Returns (sp, am, lm) /\
    forall x, sp = Some x -> x <= max_spread_pct.

(** A feed with both rates and both books. *)
Definition btc_feed : SymbolFeed :=
  {| f_symbol := "BTC"; f_aster_rate := Some (1 # 10000);
     f_lighter_rate := Some (5 # 10000);
     f_aster_bid := Some 50000; f_aster_ask := Some 50010;
     f_lighter_bid := Some 50002; f_lighter_ask := Some 50012;
     f_timed_out := false |}.

(** Sides as the two venues spell them. *)
Definition is_buy (o : Order) : Prop :=
  ord_side o = "buy"%string \/ ord_side o = "BUY"%string.

Definition is_sell (o : Order) : Prop :=
  ord_side o = "sell"%string \/ ord_side o = "SELL"%string.

(** The change of the signed position that an order asks for. *)
Definition signed_size (o : Order) : Q :=
  if String.eqb (ord_side o) "buy" || String.eqb (ord_side o) "BUY"
  then ord_size o else - ord_size o.

Definition placement_failed : pyexn :=
  Exn KRuntimeError "Delta-neutral order placement failed on at least one exchange.".

(** [btc_open] with a notional of 1000 USDT, which is large enough. *)
Definition btc_open_1000 : OpenInput :=
  {| o_symbol := "BTCUSDT"; o_long_exchange := "Lighter";
     o_short_exchange := "Aster"; o_leverage := 3; o_notional_quote := 1000;
     o_lighter_bid := Some 49999; o_lighter_ask := Some 50001;
     o_aster_bid := Some 49998; o_aster_ask := Some 50002;
     o_l_amount_tick := 1 # 1000; o_aster_step_size := 1 # 1000;
     o_long_fill := Returns tt; o_short_fill := Returns tt |}.

(** An order for the given venue is among the orders. *)
Definition submitted_to (venue : string) (orders : list Order) : Prop :=
  exists o, In o orders /\ ord_venue o = venue.

(** The Lighter quote that a close of the given size is priced against:
    the bid for a long position, the ask otherwise. *)
Definition closing_quote (bid ask : option Q) (size : Q) : option Q :=
  if Qltb 0 size then bid else ask.

(** A read of [close_delta_neutral_position] that comes before the close
    orders fails: [check_client] reports an error or a venue read raises. *)
Definition close_reads_fail (i : CloseInput) : Prop :=
  str_truthy (k_check_client i) = true \/
  raises (k_market_details i) \/ raises (k_best_bid_ask i) \/
  raises (k_aster_account i) \/ raises (k_lighter_open_size i).

(** All of them return, with these answers. *)
Definition close_reads (i : CloseInput) (tick : Q) (bid ask : option Q)
           (positions : list (string * Q)) (lighter_size : Q) : Prop :=
  str_truthy (k_check_client i) = false /\
  k_market_details i = Returns tick /\
  k_best_bid_ask i = Returns (bid, ask) /\
  k_aster_account i = Returns positions /\
  k_lighter_open_size i = Returns lighter_size.

(** What a close reports when its orders went through: the exception of a
    failing read after the orders, else the two flags. *)
Definition close_report (i : CloseInput) (tick : Q) : outcome (bool * bool) :=
  match k_aster_account_after i with
  | Raises e => Raises e
  | Returns positions_after =>
      match k_lighter_open_size_after i with
      | Raises e => Raises e
      | Returns size_after =>
          Returns (Qltb (Qabs (aster_position_amt positions_after (k_symbol i)))
                        (1 # 10000),
                   Qltb (Qabs size_after) tick)
      end
  end.

(** An order was submitted and the venue rejected it. *)
Definition rejected (orders : list Order) (fill : outcome unit) : bool :=
  match orders, fill with
  | _ :: _, Raises _ => true
  | _, _ => false
  end.

(** A Lighter lookup of the emergency tool's closing loop fails. *)
Definition lookups_fail (v : PairVenue) : Prop :=
  raises (pv_market_details v) \/ raises (pv_best_bid_ask v).

(** A close of a hedge of 0.02 BTC, long on Lighter and short on Aster. *)
Definition btc_close : CloseInput :=
  {| k_symbol := "BTCUSDT";
     k_check_client := None;
     k_market_details := Returns (1 # 1000);
     k_best_bid_ask := Returns (Some 49999, Some 50001);
     k_aster_account :=
       Returns [("ETHUSDT"%string, 1); ("BTCUSDT"%string, - (2 # 100))];
     k_lighter_open_size := Returns (2 # 100);
     k_lighter_fill := Returns tt; k_aster_fill := Returns tt;
     k_aster_account_after := Returns [("ETHUSDT"%string, 1)];
     k_lighter_open_size_after := Returns 0 |}.

(** The close order for a Lighter position, if one is due, and the one for
    an Aster position: the orders of a close written side by side. *)
Definition lighter_close_orders (bid ask : option Q) (tick size : Q) : list Order :=
  if Qltb tick (Qabs size) && truthy (closing_quote bid ask size) then
    [{| ord_venue := "lighter";
        ord_side := if Qltb 0 size then "sell" else "buy";
        ord_size := Qabs size;
        ord_ref_price := closing_quote bid ask size |}]
  else [].

Definition aster_close_orders (size : Q) : list Order :=
  if Qltb (1 # 10000) (Qabs size) then
    [{| ord_venue := "aster";
        ord_side := if Qltb size 0 then "BUY" else "SELL";
        ord_size := Qabs size; ord_ref_price := None |}]
  else [].

(** What the Aster account and the Lighter account show while one hedge of
    0.02 BTC is open beside an unhedged ETH position. *)
Definition aster_account : list AsterRaw :=
  [ {| ar_symbol := "BTCUSDT"; ar_positionAmt := - (2 # 100);
       ar_entryPrice := 50000; ar_unrealizedProfit := 3 |};
    {| ar_symbol := "ETHUSDT"; ar_positionAmt := 1;
       ar_entryPrice := 3000; ar_unrealizedProfit := - (1) |};
    {| ar_symbol := "SOLUSDT"; ar_positionAmt := 0;
       ar_entryPrice := 0; ar_unrealizedProfit := 0 |} ].

Definition lighter_account : list EPosition :=
  [ {| ep_symbol := "BTC"; ep_size := 2 # 100; ep_entry_price := 50001;
       ep_unrealized_pnl := - (2); ep_side := "LONG" |} ].

Definition btc_pair_venue : PairVenue :=
  {| pv_market_details := Returns (1 # 1000);
     pv_best_bid_ask := Returns (Some 49999, Some 50001);
     pv_aster_account_after := Returns [];
     pv_market_details_after := Returns (1 # 1000);
     pv_lighter_open_size_after := Returns 0 |}.

(** An event that can change no file but [tmp]. *)
Definition touches_only (tmp : string) (ev : fs_event) : Prop :=
  match ev with
  | FsOpenTrunc path | FsWrite path _ => path = tmp
  | FsReplace _ _ => False
  | FsFsync _ | FsClose _ | FsSleep _ => True
  end.

(** The events of an attempt on which nothing fails. *)
Definition clean_attempt (state_file content : string) : list fs_event :=
  [FsOpenTrunc (state_file ++ ".tmp"); FsWrite (state_file ++ ".tmp") content;
   FsClose (state_file ++ ".tmp"); FsReplace (state_file ++ ".tmp") state_file].

Definition is_close_call (c : VenueCall) : bool :=
  match c with CallClose _ => true | CallOpen _ => false end.

Definition has_status (status : string) (c : CycleRecord) : bool :=
  String.eqb (c_status c) status.

(** Between [w] and [w'] the cycles [new] were recorded and the calls
    [added] made, and the counters moved with them. *)
Definition accounts (w w' : World) (new : list CycleRecord)
           (added : list VenueCall) : Prop :=
  let st := cumulative_stats (mem w) in
  let st' := cumulative_stats (mem w') in
  completed_cycles (mem w') = completed_cycles (mem w) ++ new /\
  total_cycles st' = (total_cycles st + Z.of_nat (List.length new))%Z /\
  successful_cycles st'
  = (successful_cycles st
     + Z.of_nat (List.length (filter (has_status "success") new)))%Z /\
  failed_cycles st'
  = (failed_cycles st
     + Z.of_nat (List.length (filter (has_status "stop-loss") new)))%Z /\
  Forall (fun c => c_status c = "success"%string \/ c_status c = "stop-loss"%string)
         new /\
  calls w' = calls w ++ added /\
  (List.length new <= List.length (filter is_close_call added))%nat.

(** [worst] is the most negative of the PnLs that were fetched, and
    [exchange] the venue it comes from. *)
Definition most_negative (aster_pnl lighter_pnl : option Q) (worst : Q)
           (exchange : string) : Prop :=
  ((aster_pnl = Some worst /\ exchange = "Aster"%string) \/
   (lighter_pnl = Some worst /\ exchange = "Lighter"%string)) /\
  (forall x, aster_pnl = Some x \/ lighter_pnl = Some x -> worst <= x).

(** A pass of the loop at time 100 on which the Aster leg shows a loss of
    260 USDT and the close fails. *)
Definition losing_env_close_fails : IterEnv :=
  {| e_now := 100; e_feeds := []; e_venues := btc_open;
     e_aster_pnl := Some (- (260)); e_lighter_pnl := Some 250;
     e_close := Raises (Exn KRuntimeError
                            "Failed to close positions on one or more venues.");
     e_refresh_ok := false |}.

(** The monitor wants the position closed on this pass: its hold time is
    over, or the stop-loss test fires. *)
Definition close_due (config : BotConfig) (env : IterEnv) (position : Position)
  : Prop :=
  p_target_close_at position <= e_now env \/
  stop_loss_check config position (e_aster_pnl env) (e_lighter_pnl env) <> None.

(** A pass of the loop at time [now] on which the close fails. *)
Definition failing_close_env (now : Q) : IterEnv :=
  {| e_now := now; e_feeds := []; e_venues := btc_open;
     e_aster_pnl := None; e_lighter_pnl := None;
     e_close := Raises (Exn KRuntimeError "Failed to close"); e_refresh_ok := false |}.

(* ================================================================== *)
(** * Part II: properties                                              *)
(* ================================================================== *)

(** ** Booleans on rationals *)

Lemma Qleb_le (a b : Q) : Qleb a b = true <-> a <= b.
Proof. unfold Qleb. apply Qle_bool_iff. Qed.

Lemma Qleb_gt (a b : Q) : Qleb a b = false <-> b < a.
Proof.
  unfold Qleb. split; intro H.
  - apply Qnot_le_lt. intro Hle. apply Qle_bool_iff in Hle. congruence.
  - destruct (Qle_bool a b) eqn:E; [|reflexivity].
    apply Qle_bool_iff in E. apply Qlt_not_le in H. contradiction.
Qed.

Lemma Qltb_lt (a b : Q) : Qltb a b = true <-> a < b.
Proof.
  unfold Qltb. rewrite negb_true_iff. apply (Qleb_gt b a).
Qed.

Lemma Qltb_ge (a b : Q) : Qltb a b = false <-> b <= a.
Proof.
  unfold Qltb. rewrite negb_false_iff. apply (Qleb_le b a).
Qed.

Lemma float_truthy_neq (q : Q) : float_truthy q = true <-> ~ q == 0.
Proof.
  unfold float_truthy. rewrite negb_true_iff. split; intro H.
  - intro E. apply Qeq_bool_iff in E. congruence.
  - destruct (Qeq_bool q 0) eqn:E; [|reflexivity].
    apply Qeq_bool_iff in E. contradiction.
Qed.

(** ** The [in] operator *)

Lemma prefix_app (sub s : string) :
  String.prefix sub s = true <-> exists post, s = (sub ++ post)%string.
Proof.
  revert s. induction sub as [|c sub IH]; intros s.
  - split; [intros _; exists s; reflexivity | intros _; now destruct s].
  - destruct s as [|d s]; simpl.
    + split; [discriminate | intros [post H]; discriminate].
    + destruct (ascii_dec c d) as [->|Hne].
      * rewrite IH. split; intros [post H]; exists post.
        -- now rewrite H.
        -- now injection H.
      * split; [discriminate|]. intros [post H]. injection H as H1 H2.
        congruence.
Qed.

Lemma contains_substring (sub s : string) :
  contains sub s = true <->
  exists pre post, s = (pre ++ sub ++ post)%string.
Proof.
  induction s as [|d s IH]; cbn [contains].
  - rewrite orb_false_r, prefix_app. split.
    + intros [post H]. exists EmptyString, post. exact H.
    + intros [pre [post H]]. destruct pre; simpl in H.
      * exists post. exact H.
      * discriminate.
  - rewrite orb_true_iff, prefix_app, IH. split.
    + intros [[post H] | [pre [post H]]].
      * exists EmptyString, post. exact H.
      * exists (String d pre), post. simpl. now rewrite H.
    + intros [pre [post H]]. destruct pre as [|c pre]; simpl in H.
      * left. exists post. exact H.
      * right. injection H as _ H. exists pre, post. exact H.
Qed.

(** C8, as amended: an exception is classified as a rate-limit error exactly
    when its lowercased text contains one of "429", "too many requests",
    "23000", "rate limit" or "ratelimit" as a substring. *)
Theorem is_rate_limit_error_markers (exc : pyexn) :
  is_rate_limit_error exc = true <->
  exists m, In m rate_limit_markers /\
    exists pre post, lower (exn_str exc) = (pre ++ m ++ post)%string.
Proof.
  unfold is_rate_limit_error, rate_limit_markers.
  repeat rewrite orb_true_iff. repeat rewrite contains_substring.
  split.
  - intros [[[[H|H]|H]|H]|H]; eexists; (split; [|exact H]); simpl; tauto.
  - intros [m [Hin H]]. simpl in Hin.
    destruct Hin as [<-|[<-|[<-|[<-|[<-|[]]]]]]; tauto.
Qed.

(** C8, as stated, fails: an error text carrying only the code 23000 is
    classified as a rate-limit error although none of the four listed
    substrings occurs in it. *)
Lemma is_rate_limit_error_23000 :
  ~ (is_rate_limit_error (Exn KException "code=23000 request rejected") = true <->
     exists m, In m ["429"; "too many requests"; "rate limit"; "ratelimit"]%string /\
       contains m (lower "code=23000 request rejected") = true).
Proof.
  intros [H _]. destruct (H eq_refl) as [m [Hin Hc]].
  simpl in Hin.
  destruct Hin as [<-|[<-|[<-|[<-|[]]]]]; vm_compute in Hc; discriminate.
Qed.

(** ** Average mid price *)

Lemma returns_to_intro (r q : Q) : r == q -> returns_to (Returns r) q.
Proof. intro H. exists r. split; [reflexivity | exact H]. Qed.

(** C10: [get_avg_mid] averages the mids of the venues that quote both sides;
    with no such venue it averages a cross pair (Lighter bid with Aster ask,
    or Aster bid with Lighter ask); it raises when at most one price is
    present; and a price of 0 counts as absent. *)
Theorem get_avg_mid_cases (lighter_bid lighter_ask aster_bid aster_ask : option Q) :
  let lb := value_of lighter_bid in
  let la := value_of lighter_ask in
  let ab := value_of aster_bid in
  let aa := value_of aster_ask in
  let lighter_both := truthy lighter_bid && truthy lighter_ask in
  let aster_both := truthy aster_bid && truthy aster_ask in
  let res := get_avg_mid lighter_bid lighter_ask aster_bid aster_ask in
  (lighter_both = true -> aster_both = true ->
     returns_to res (((lb + la) / 2 + (ab + aa) / 2) / 2)) /\
  (lighter_both = true -> aster_both = false ->
     returns_to res ((lb + la) / 2)) /\
  (lighter_both = false -> aster_both = true ->
     returns_to res ((ab + aa) / 2)) /\
  (lighter_both = false -> aster_both = false ->
     truthy lighter_bid && truthy aster_ask = true ->
     returns_to res ((lb + aa) / 2)) /\
  (lighter_both = false -> aster_both = false ->
     truthy aster_bid && truthy lighter_ask = true ->
     returns_to res ((ab + la) / 2)) /\
  ((present_count [lighter_bid; lighter_ask; aster_bid; aster_ask] <= 1)%nat ->
     raises res) /\
  res = get_avg_mid (zero_as_absent lighter_bid) (zero_as_absent lighter_ask)
          (zero_as_absent aster_bid) (zero_as_absent aster_ask).
Proof.
  cbv zeta. unfold get_avg_mid, present_count, zero_as_absent.
  destruct (truthy lighter_bid) eqn:Hlb; destruct (truthy lighter_ask) eqn:Hla;
    destruct (truthy aster_bid) eqn:Hab; destruct (truthy aster_ask) eqn:Haa;
    cbn [andb app filter List.length truthy];
    rewrite ?Hlb, ?Hla, ?Hab, ?Haa; cbn [andb app filter List.length truthy];
    repeat split; intros; try discriminate; try lia;
    try (apply returns_to_intro; unfold py_sum, py_len; cbn; field);
    try (eexists; reflexivity).
Qed.

Lemma get_avg_mid_cases_witness :
  returns_to (get_avg_mid (Some 100) (Some 102) (Some 99) (Some 101))
             (((100 + 102) / 2 + (99 + 101) / 2) / 2)
  /\ returns_to (get_avg_mid (Some 100) (Some 0) (Some 0) (Some 104)) ((100 + 104) / 2)
  /\ raises (get_avg_mid (Some 100) None (Some 0) None).
Proof.
  split; [|split].
  - apply (get_avg_mid_cases (Some 100) (Some 102) (Some 99) (Some 101));
      reflexivity.
  - apply (get_avg_mid_cases (Some 100) (Some 0) (Some 0) (Some 104));
      reflexivity.
  - apply (get_avg_mid_cases (Some 100) None (Some 0) None). vm_compute. lia.
Defined.

(** ** Retry with backoff *)

Lemma py_min_Qmin (a b : Q) : py_min a b == Qmin a b.
Proof.
  unfold py_min. destruct (Qltb b a) eqn:E.
  - apply Qltb_lt in E. symmetry. apply Q.min_r. lra.
  - apply Qltb_ge in E. symmetry. apply Q.min_l. exact E.
Qed.

Lemma jitter_within_quarter (p : RetryParams) (k : Z) (r : Q) :
  0 <= r -> r < 1 ->
  Qabs (jittered_delay p k r - base_delay p k) <= (25 # 100) * Qabs (base_delay p k).
Proof.
  intros H0 H1. unfold jittered_delay, uniform.
  set (d := base_delay p k). destruct (jitter p).
  - apply Qabs_case; intros Hs; apply (Qabs_case d); intros Hd; nra.
  - setoid_replace (d - d) with 0 by ring. simpl Qabs at 1.
    assert (0 <= Qabs d) by apply Qabs_nonneg. lra.
Qed.

Lemma retry_loop_last {A} (func : Z -> outcome A) rand p fuel k l1 l2 :
  retry_loop func rand p (S fuel) k l1 = retry_loop func rand p (S fuel) k l2.
Proof. reflexivity. Qed.

Lemma retry_loop_failed_prefix {A} (func : Z -> outcome A) rand p :
  forall n from fuel last tail,
    (forall i, (from <= i < from + n)%nat -> rate_limited func (Z.of_nat i)) ->
    (Z.of_nat (from + n) <= max_retries p)%Z ->
    tail = retry_loop func rand p (S fuel) (Z.of_nat (from + n)) None ->
    retry_loop func rand p (n + S fuel) (Z.of_nat from) last =
    (retries_before p rand from n ++ fst tail, snd tail).
Proof.
  induction n as [|n IH]; intros from fuel last tail Hrl Hmax Htail.
  - rewrite Nat.add_0_r in Htail. unfold retries_before.
    cbn [Nat.add seq flat_map app].
    rewrite (retry_loop_last func rand p fuel _ last None), <- Htail.
    now destruct tail.
  - destruct (Hrl from ltac:(lia)) as [e [He Hrle]].
    change (S n + S fuel)%nat with (S (n + S fuel)).
    remember (n + S fuel)%nat as f eqn:Ef.
    cbn [retry_loop]. rewrite He, Hrle. cbn [negb].
    destruct (max_retries p <=? Z.of_nat from)%Z eqn:E;
      [apply Z.leb_le in E; lia|].
    replace (Z.of_nat from + 1)%Z with (Z.of_nat (S from)) by lia.
    subst f. rewrite (IH (S from) fuel (Some e) tail).
    + destruct tail as [l o]. reflexivity.
    + intros i Hi. apply Hrl. lia.
    + replace (S from + n)%nat with (from + S n)%nat by lia. exact Hmax.
    + replace (S from + n)%nat with (from + S n)%nat by lia. exact Htail.
Qed.

(** C7: after [k] rate-limited attempts, (1) any other exception raised by
    attempt [k] is re-raised as it is, with no further call or sleep;
    (2) when attempt [k] is the last one allowed ([k = max_retries]) and is
    rate limited too, a [RateLimitError] is raised after exactly
    [max_retries] sleeps; (3) the delay computed on attempt [i] is
    [min(initial * factor^i, max)] before jitter, and the sleep differs from
    it by at most 25 %; the defaults are 3 retries, 1 s, factor 2, 30 s. *)
Theorem retry_with_backoff_policy {A} (func : Z -> outcome A) (rand : Z -> Q)
        (p : RetryParams) (k : nat) :
  (Z.of_nat k <= max_retries p)%Z ->
  (forall i, (i < k)%nat -> rate_limited func (Z.of_nat i)) ->
  (forall i, 0 <= rand i /\ rand i < 1) ->
  (forall e, func (Z.of_nat k) = Raises e -> is_rate_limit_error e = false ->
     retry_with_backoff func rand p
     = (retries_before p rand 0 k ++ [EvCall (Z.of_nat k)], Raises e)) /\
  (forall e, func (Z.of_nat k) = Raises e -> is_rate_limit_error e = true ->
     Z.of_nat k = max_retries p ->
     retry_with_backoff func rand p
     = (retries_before p rand 0 k ++ [EvCall (Z.of_nat k)],
        Raises (Exn KRateLimitError
                  ("Rate limit exceeded after " ++ str_of_int (max_retries p)
                   ++ " retries: " ++ exn_str e)))) /\
  (forall i : Z,
     base_delay p i == Qmin (initial_delay p * backoff_factor p ^ i) (max_delay p) /\
     Qabs (jittered_delay p i (rand i) - base_delay p i)
       <= (25 # 100) * Qabs (base_delay p i)) /\
  (max_retries default_retry = 3%Z /\ initial_delay default_retry = 1 /\
   backoff_factor default_retry = 2 /\ max_delay default_retry = 30 /\
   jitter default_retry = true).
Proof.
  intros Hk Hrl Hrand.
  assert (Hfuel : Z.to_nat (max_retries p + 1)
                  = (k + S (Z.to_nat (max_retries p) - k))%nat) by lia.
  assert (Hpre := fun tail => retry_loop_failed_prefix func rand p k 0
                    (Z.to_nat (max_retries p) - k) None tail
                    ltac:(intros; apply Hrl; lia) ltac:(lia)).
  cbn [Nat.add] in Hpre.
  repeat split.
  - intros e He Hne. unfold retry_with_backoff. rewrite Hfuel.
    change 0%Z with (Z.of_nat 0). erewrite Hpre; [|reflexivity].
    cbn [retry_loop]. rewrite He, Hne. reflexivity.
  - intros e He Hy Hlast. unfold retry_with_backoff. rewrite Hfuel.
    change 0%Z with (Z.of_nat 0). erewrite Hpre; [|reflexivity].
    cbn [retry_loop]. rewrite He, Hy. cbn [negb].
    rewrite <- Hlast, Z.leb_refl. reflexivity.
  - apply py_min_Qmin.
  - apply jitter_within_quarter; apply Hrand.
Qed.

Lemma retry_with_backoff_policy_witness :
  let func := fun _ : Z => @Raises unit (Exn KException "HTTP 429 Too Many Requests") in
  let rand := fun _ : Z => 1 # 2 in
  retry_with_backoff func rand default_retry
  = (retries_before default_retry rand 0 3 ++ [EvCall 3%Z],
     Raises (Exn KRateLimitError
               "Rate limit exceeded after 3 retries: HTTP 429 Too Many Requests")).
Proof.
  intros func rand.
  assert (H : (Z.of_nat 3 <= max_retries default_retry)%Z) by (simpl; lia).
  assert (Hrl : forall i, (i < 3)%nat -> rate_limited func (Z.of_nat i)).
  { intros i _. exists (Exn KException "HTTP 429 Too Many Requests").
    split; reflexivity. }
  assert (Hrand : forall i, 0 <= rand i /\ rand i < 1).
  { intros i. unfold rand. split; lra. }
  destruct (retry_with_backoff_policy func rand default_retry 3 H Hrl Hrand)
    as (_ & Hexhaust & _).
  apply (Hexhaust (Exn KException "HTTP 429 Too Many Requests"));
    reflexivity.
Defined.

(** With the defaults the three sleeps fall in [0.75, 1.25], [1.5, 2.5] and
    [3, 5] seconds. *)
Example default_sleep_windows (r : Q) :
  0 <= r -> r < 1 ->
  (3 # 4) <= jittered_delay default_retry 0 r <= (5 # 4) /\
  (3 # 2) <= jittered_delay default_retry 1 r <= (5 # 2) /\
  3 <= jittered_delay default_retry 2 r <= 5.
Proof.
  intros H0 H1. unfold jittered_delay, base_delay, uniform, py_min. cbn.
  repeat split; lra.
Qed.

(** ** Opportunity scanner *)

Lemma fetch_symbol_spread_missing_mid ab aa lb la :
  venue_mid ab aa = None \/ venue_mid lb la = None ->
  fetch_symbol_spread ab aa lb la
  = Returns (None, venue_mid ab aa, venue_mid lb la).
Proof.
  unfold fetch_symbol_spread.
  intros [H|H]; rewrite H; [|destruct (venue_mid ab aa)]; reflexivity.
Qed.

Lemma Qabs_of_diff (a b : Q) :
  (b - a <= a - b -> Qabs (a - b) == a - b) /\
  (a - b <= b - a -> Qabs (a - b) == b - a).
Proof.
  split; intro H.
  - apply Qabs_pos. lra.
  - rewrite Qabs_neg by lra. ring.
Qed.

(** C1: when both funding rates and both mids were retrieved and the spread
    is within the limit, the scan result is available, its [net_apr] is
    [|apr_A - apr_L|] with [apr_A = aster_rate * 6 * 365 * 100] and
    [apr_L = lighter_rate * 3 * 365 * 100], and the venues chosen are those of
    the direction whose APR difference is the greater one (long Aster, short
    Lighter on a tie). *)
Theorem fetch_symbol_funding_best_direction (symbol : string)
        (aster_rate lighter_rate : Q) (ab aa lb la : option Q)
        (am lm max_spread_pct : Q) :
  venue_mid ab aa = Some am ->
  venue_mid lb la = Some lm ->
  ~ (am + lm) / 2 == 0 ->
  Qabs (am - lm) / ((am + lm) / 2) * 100 <= max_spread_pct ->
  let apr_A := aster_rate * 6 * 365 * 100 in
  let apr_L := lighter_rate * 3 * 365 * 100 in
  exists r net,
    fetch_symbol_funding symbol (Some aster_rate) (Some lighter_rate)
                         ab aa lb la max_spread_pct = Returns r /\
    r_available r = true /\
    r_net_apr r = Some net /\
    net == Qabs (apr_A - apr_L) /\
    ((r_long_exch r = Some "Aster"%string /\ r_short_exch r = Some "Lighter"%string /\
      net == apr_L - apr_A /\ apr_A - apr_L <= apr_L - apr_A) \/
     (r_long_exch r = Some "Lighter"%string /\ r_short_exch r = Some "Aster"%string /\
      net == apr_A - apr_L /\ apr_L - apr_A < apr_A - apr_L)).
Proof.
  intros Ham Hlm Havg Hspread apr_A apr_L.
  unfold fetch_symbol_funding, fetch_symbol_spread, py_div.
  rewrite Ham, Hlm.
  apply float_truthy_neq in Havg. rewrite Havg.
  apply Qltb_ge in Hspread. rewrite Hspread.
  assert (EA : _calculate_apr aster_rate 6 == apr_A)
    by (unfold _calculate_apr, apr_A; reflexivity).
  assert (EL : _calculate_apr lighter_rate 3 == apr_L)
    by (unfold _calculate_apr, apr_L; reflexivity).
  destruct (Qleb (_calculate_apr aster_rate 6 - _calculate_apr lighter_rate 3)
                 (_calculate_apr lighter_rate 3 - _calculate_apr aster_rate 6))
    eqn:E.
  - apply Qleb_le in E. rewrite EA, EL in E.
    eexists; eexists; repeat split; try reflexivity.
    + rewrite EA, EL. symmetry. apply Qabs_of_diff. exact E.
    + left. split; [reflexivity|]. split; [reflexivity|].
      split; [rewrite EA, EL; reflexivity | exact E].
  - apply Qleb_gt in E. rewrite EA, EL in E.
    eexists; eexists; repeat split; try reflexivity.
    + rewrite EA, EL. symmetry. apply Qabs_of_diff. lra.
    + right. split; [reflexivity|]. split; [reflexivity|].
      split; [rewrite EA, EL; reflexivity | exact E].
Qed.

Lemma fetch_symbol_funding_best_direction_witness :
  exists r net,
    fetch_symbol_funding "BTCUSDT" (Some (1 # 10000)) (Some (5 # 10000))
      (Some 50000) (Some 50010) (Some 50002) (Some 50012) (15 # 100) = Returns r /\
    r_available r = true /\
    r_net_apr r = Some net /\
    net == Qabs ((1 # 10000) * 6 * 365 * 100 - (5 # 10000) * 3 * 365 * 100) /\
    ((r_long_exch r = Some "Aster"%string /\ r_short_exch r = Some "Lighter"%string /\
      net == (5 # 10000) * 3 * 365 * 100 - (1 # 10000) * 6 * 365 * 100 /\
      (1 # 10000) * 6 * 365 * 100 - (5 # 10000) * 3 * 365 * 100
        <= (5 # 10000) * 3 * 365 * 100 - (1 # 10000) * 6 * 365 * 100) \/
     (r_long_exch r = Some "Lighter"%string /\ r_short_exch r = Some "Aster"%string /\
      net == (1 # 10000) * 6 * 365 * 100 - (5 # 10000) * 3 * 365 * 100 /\
      (5 # 10000) * 3 * 365 * 100 - (1 # 10000) * 6 * 365 * 100
        < (1 # 10000) * 6 * 365 * 100 - (5 # 10000) * 3 * 365 * 100)).
Proof.
  apply (fetch_symbol_funding_best_direction "BTCUSDT" (1 # 10000) (5 # 10000)
           (Some 50000) (Some 50010) (Some 50002) (Some 50012)
           ((50000 + 50010) / 2) ((50002 + 50012) / 2) (15 # 100)).
  - reflexivity.
  - reflexivity.
  - vm_compute. discriminate.
  - vm_compute. discriminate.
Defined.

Lemma In_insert_desc (x y : ScanResult) (l : list ScanResult) :
  In y (insert_desc x l) <-> y = x \/ In y l.
Proof.
  induction l as [|z l IH]; simpl.
  - intuition.
  - destruct (Qltb (net_apr_of x) (net_apr_of z)); simpl; rewrite ?IH;
      intuition.
Qed.

Lemma In_sort_by_net_apr_desc (y : ScanResult) (l : list ScanResult) :
  In y (sort_by_net_apr_desc l) <-> In y l.
Proof.
  induction l as [|x l IH]; simpl.
  - tauto.
  - rewrite In_insert_desc, IH. intuition.
Qed.

Lemma rate_missing_unavailable quote max_spread_pct f :
  rate_missing f ->
  r_available (fetch_with_timeout quote max_spread_pct f) = false.
Proof.
  intros Hm. unfold fetch_with_timeout, fetch_symbol_funding.
  destruct (f_timed_out f); [reflexivity|].
  destruct (fetch_symbol_spread _ _ _ _) as [[[sp am] lm]|e]; [|reflexivity].
  destruct Hm as [H|H]; rewrite H; [|destruct (f_aster_rate f)]; reflexivity.
Qed.

(** C9, as amended: a symbol for which a funding rate is missing is marked
    unavailable, with the venues that miss it as the reason when the fetch
    itself completed, and no result in the available list comes from such a
    feed; a missing mid alone does not exclude a symbol: its spread stays
    undefined and it is available as soon as both rates were retrieved. *)
Theorem scan_missing_data (quote : string) (max_spread_pct : Q)
        (feeds : list SymbolFeed) :
  (forall f, rate_missing f ->
     r_available (fetch_with_timeout quote max_spread_pct f) = false) /\
  (forall f, rate_missing f -> f_timed_out f = false ->
     ~ raises (fetch_symbol_spread (f_aster_bid f) (f_aster_ask f)
                                   (f_lighter_bid f) (f_lighter_ask f)) ->
     r_missing_on (fetch_with_timeout quote max_spread_pct f)
       = Some (missing_venues f) /\ missing_venues f <> []) /\
  (forall r, In r (scan_available (scan_results quote max_spread_pct feeds)) ->
     exists f, In f feeds /\ r = fetch_with_timeout quote max_spread_pct f /\
               ~ rate_missing f) /\
  (forall f, mid_missing f -> ~ rate_missing f -> f_timed_out f = false ->
     r_available (fetch_with_timeout quote max_spread_pct f) = true /\
     r_spread_pct (fetch_with_timeout quote max_spread_pct f) = None).
Proof.
  split; [|split; [|split]].
  - intros f. apply rate_missing_unavailable.
  - intros f Hm Ht Hnr. unfold fetch_with_timeout, fetch_symbol_funding.
    rewrite Ht.
    destruct (fetch_symbol_spread _ _ _ _) as [[[sp am] lm]|e];
      [|exfalso; apply Hnr; eexists; reflexivity].
    unfold missing_venues.
    destruct Hm as [H|H]; rewrite H;
      destruct (f_aster_rate f); destruct (f_lighter_rate f);
      try discriminate; split; try reflexivity; discriminate.
  - intros r Hin. unfold scan_available, scan_results in Hin.
    apply (proj1 (In_sort_by_net_apr_desc _ _)) in Hin.
    apply (proj1 (filter_In _ _ _)) in Hin.
    destruct Hin as [Hin Hav]. apply (proj1 (in_map_iff _ _ _)) in Hin.
    destruct Hin as [f [Hf Hinf]]. exists f. repeat split; auto.
    intro Hm. apply (rate_missing_unavailable quote max_spread_pct) in Hm.
    congruence.
  - intros f Hmid Hrate Ht. unfold fetch_with_timeout, fetch_symbol_funding.
    rewrite Ht, (fetch_symbol_spread_missing_mid _ _ _ _ Hmid).
    unfold rate_missing in Hrate.
    destruct (f_aster_rate f) as [ar|]; [|exfalso; auto].
    destruct (f_lighter_rate f) as [lr|]; [|exfalso; auto].
    destruct (Qleb _ _); split; reflexivity.
Qed.

Lemma scan_missing_data_witness :
  r_available (fetch_with_timeout "USDT" (15 # 100) feed_without_lighter_rate) = false
  /\ r_missing_on (fetch_with_timeout "USDT" (15 # 100) feed_without_lighter_rate)
     = Some ["Lighter"%string]
  /\ r_available (fetch_with_timeout "USDT" (15 # 100) feed_without_aster_mid) = true.
Proof.
  destruct (scan_missing_data "USDT" (15 # 100) []) as (H1 & H2 & _ & H4).
  split; [|split].
  - apply H1. right. reflexivity.
  - apply H2.
    + right. reflexivity.
    + reflexivity.
    + intros [e He]. vm_compute in He. discriminate.
  - apply H4.
    + left. reflexivity.
    + intros [H|H]; discriminate.
    + reflexivity.
Defined.

(** C9, as stated, fails: with both funding rates retrieved and no Aster mid,
    the scan result is available, carries no missing-data reason, and heads
    the available list. *)
Lemma missing_mid_still_available :
  mid_missing feed_without_aster_mid /\
  ~ (r_available (fetch_with_timeout "USDT" (15 # 100) feed_without_aster_mid) = false /\
     r_missing_on (fetch_with_timeout "USDT" (15 # 100) feed_without_aster_mid) <> None) /\
  map r_symbol (scan_available (scan_results "USDT" (15 # 100) [feed_without_aster_mid]))
  = ["ETHUSDT"%string].
Proof.
  split; [left; reflexivity|]. split.
  - intros [H _]. vm_compute in H. discriminate.
  - reflexivity.
Qed.

(** ** Tick rounding and the size of an open *)

Lemma round_down_nonneg (q : Q) : 0 <= q -> round_down q = Qfloor q.
Proof.
  destruct q as [n d]. unfold round_down, Qfloor, Qle. simpl.
  intro H. apply Z.quot_div_nonneg; lia.
Qed.

Lemma round_down_opp (q : Q) : round_down (- q) = (- round_down q)%Z.
Proof.
  destruct q as [n d]. unfold round_down. simpl. apply Z.quot_opp_l. lia.
Qed.

Lemma round_down_inject_Z (q : Q) (k : Z) : q == inject_Z k -> round_down q = k.
Proof.
  intro H. destruct (Z.le_gt_cases 0 k) as [Hk|Hk].
  - rewrite round_down_nonneg.
    + rewrite H. apply Qfloor_Z.
    + rewrite H. change 0 with (inject_Z 0). rewrite <- Zle_Qle. exact Hk.
  - assert (Hq : 0 <= - q).
    { rewrite H. change 0 with (inject_Z 0). rewrite <- inject_Z_opp, <- Zle_Qle. lia. }
    assert (E := round_down_opp q). rewrite (round_down_nonneg _ Hq) in E.
    assert (E2 : Qfloor (- q) = (- k)%Z).
    { rewrite H, <- inject_Z_opp. apply Qfloor_Z. }
    lia.
Qed.

Lemma tick_guard_positive (tick : Q) :
  0 < tick -> negb (float_truthy tick) || Qleb tick 0 = false.
Proof.
  intro H. apply orb_false_iff. split.
  - apply negb_false_iff, float_truthy_neq. lra.
  - apply Qleb_gt. exact H.
Qed.

Lemma _floor_to_tick_positive (value tick : Q) :
  0 < tick ->
  _floor_to_tick value tick = inject_Z (round_down (value / tick)) * tick.
Proof.
  intro H. unfold _floor_to_tick. now rewrite tick_guard_positive.
Qed.

Lemma _floor_to_tick_idempotent (value tick : Q) :
  0 < tick ->
  _floor_to_tick (_floor_to_tick value tick) tick == _floor_to_tick value tick.
Proof.
  intro H. rewrite !_floor_to_tick_positive by exact H.
  rewrite (round_down_inject_Z _ (round_down (value / tick))); [reflexivity|].
  field. lra.
Qed.

(** Flooring a non-negative value moves it down by less than one tick. *)
Lemma _floor_to_tick_bounds (value tick : Q) :
  0 < tick -> 0 <= value ->
  _floor_to_tick value tick <= value /\ value < _floor_to_tick value tick + tick.
Proof.
  intros Ht Hv. rewrite _floor_to_tick_positive by exact Ht.
  assert (Hq : 0 <= value / tick).
  { apply Qle_shift_div_l; lra. }
  rewrite (round_down_nonneg _ Hq).
  assert (Hlo := Qfloor_le (value / tick)).
  assert (Hhi := Qlt_floor (value / tick)).
  rewrite inject_Z_plus in Hhi.
  assert (E : value == value / tick * tick) by (field; lra).
  split.
  - rewrite E at 2. apply Qmult_le_compat_r; lra.
  - rewrite E at 1.
    setoid_replace (inject_Z (Qfloor (value / tick)) * tick + tick)
      with ((inject_Z (Qfloor (value / tick)) + inject_Z 1) * tick) by ring.
    apply Qmult_lt_compat_r; lra.
Qed.

Lemma py_max_cases (a b : Q) :
  (py_max a b = a /\ b <= a) \/ (py_max a b = b /\ a < b).
Proof.
  unfold py_max. destruct (Qltb a b) eqn:E.
  - right. split; [reflexivity | now apply Qltb_lt].
  - left. split; [reflexivity | now apply Qltb_ge].
Qed.

Lemma open_size_base_floor (avg_mid notional l_tick a_step : Q) :
  0 < l_tick -> 0 < a_step -> 0 < avg_mid ->
  exists size_base,
    open_size_base avg_mid notional l_tick a_step = Returns size_base /\
    size_base == _floor_to_tick (notional / avg_mid) (py_max l_tick a_step).
Proof.
  intros Hl Ha Hm. unfold open_size_base, compute_base_size_from_quote.
  apply Qleb_gt in Hm. rewrite Hm.
  assert (Ht : 0 < py_max l_tick a_step).
  { destruct (py_max_cases l_tick a_step) as [[-> _]|[-> _]]; assumption. }
  destruct (Qltb _ _).
  - eexists. split; [reflexivity|]. now apply _floor_to_tick_idempotent.
  - eexists. split; reflexivity.
Qed.

Lemma leg_order_error (i : OpenInput) (leg : string) (long : bool) (sb : Q) (e : pyexn) :
  leg_order i leg long sb = Raises e -> ~ size_too_small e.
Proof.
  unfold leg_order, size_too_small, size_rounds_to_zero, order_size_too_small.
  intros H [E|E]; subst e;
    destruct (String.eqb leg "lighter"); destruct (String.eqb leg "aster");
    destruct long;
    repeat match type of H with
           | context [match ?x with _ => _ end] => destruct x
           end; discriminate.
Qed.

(** C2: in the open procedure, the size that results from flooring
    [notional_quote / avg_mid] to the coarser tick is an integer multiple of
    [max(tick_lighter, tick_aster)] (and, for a non-negative notional, lies
    less than one such tick below the unrounded size); the call raises a
    size-too-small error exactly when that size is [<= 0] or below
    [10 * amount_tick] of either venue, which is the same as being below
    [10 * max(tick_lighter, tick_aster)]; and then no order is submitted. *)
Theorem open_size_on_grid (i : OpenInput) (avg_mid : Q) :
  0 < o_l_amount_tick i ->
  0 < o_aster_step_size i ->
  truthy (o_lighter_bid i) || truthy (o_lighter_ask i) = true ->
  truthy (o_aster_bid i) || truthy (o_aster_ask i) = true ->
  get_avg_mid (o_lighter_bid i) (o_lighter_ask i) (o_aster_bid i) (o_aster_ask i)
    = Returns avg_mid ->
  0 < avg_mid ->
  let tick := py_max (o_l_amount_tick i) (o_aster_step_size i) in
  let too_small := fun size_base =>
    size_base <= 0 \/ size_base < 10 * o_l_amount_tick i
    \/ size_base < 10 * o_aster_step_size i in
  exists size_base,
    open_size_base avg_mid (o_notional_quote i)
                   (o_l_amount_tick i) (o_aster_step_size i) = Returns size_base /\
    size_base == inject_Z (round_down (o_notional_quote i / avg_mid / tick)) * tick /\
    (0 <= o_notional_quote i ->
       size_base <= o_notional_quote i / avg_mid /\
       o_notional_quote i / avg_mid < size_base + tick) /\
    ((exists e, snd (open_delta_neutral_position i) = Raises e /\ size_too_small e)
       <-> too_small size_base) /\
    (too_small size_base <-> size_base < 10 * tick) /\
    (too_small size_base -> fst (open_delta_neutral_position i) = []).
Proof.
  intros Hl Ha Hql Hqa Havg Hm tick too_small.
  destruct (open_size_base_floor avg_mid (o_notional_quote i) _ _ Hl Ha Hm)
    as [sb [Hsb Hfloor]].
  assert (Ht : 0 < tick).
  { unfold tick. destruct (py_max_cases (o_l_amount_tick i) (o_aster_step_size i))
      as [[-> _]|[-> _]]; assumption. }
  exists sb. split; [exact Hsb|]. split; [|split; [|split; [|split]]].
  - rewrite Hfloor. fold tick. now rewrite _floor_to_tick_positive.
  - intro Hn. rewrite Hfloor. fold tick. apply _floor_to_tick_bounds; [exact Ht|].
    apply Qle_shift_div_l; lra.
  - unfold open_delta_neutral_position. rewrite Hql, Hqa. cbn [orb negb].
    rewrite Havg, Hsb. unfold too_small.
    destruct (Qleb sb 0) eqn:E0.
    { apply Qleb_le in E0. cbn [snd]. split; [tauto|]. intros _.
      exists size_rounds_to_zero. split; [reflexivity | left; reflexivity]. }
    apply Qleb_gt in E0.
    destruct (Qltb sb (o_l_amount_tick i * 10)) eqn:E1.
    { apply Qltb_lt in E1. cbn [app snd]. split; [intros _; right; left; lra|].
      intros _. exists order_size_too_small.
      split; [reflexivity | right; reflexivity]. }
    apply Qltb_ge in E1.
    destruct (Qltb sb (o_aster_step_size i * 10)) eqn:E2.
    { apply Qltb_lt in E2. cbn [app snd]. split; [intros _; right; right; lra|].
      intros _. exists order_size_too_small.
      split; [reflexivity | right; reflexivity]. }
    apply Qltb_ge in E2. cbn [app].
    split; [|intros [H|[H|H]]; lra].
    intros [e [He Hsmall]]. exfalso. revert He Hsmall.
    destruct (String.eqb _ _).
    { cbn [snd]. intros [= <-] [E|E]; discriminate. }
    destruct (leg_order i (lower (o_long_exchange i)) true sb) as [lo|e1] eqn:L1.
    2:{ cbn [snd]. intros [= <-]. now apply leg_order_error in L1. }
    destruct (leg_order i (lower (o_short_exchange i)) false sb) as [so|e2] eqn:L2.
    2:{ cbn [snd]. intros [= <-]. now apply leg_order_error in L2. }
    cbn [snd]. destruct (o_long_fill i); destruct (o_short_fill i);
      intros [= <-] [E|E]; discriminate.
  - unfold too_small, tick.
    destruct (py_max_cases (o_l_amount_tick i) (o_aster_step_size i))
      as [[-> Hle]|[-> Hlt]]; split; intros; try lra;
      repeat match goal with H : _ \/ _ |- _ => destruct H end; lra.
  - unfold open_delta_neutral_position. rewrite Hql, Hqa. cbn [orb negb].
    rewrite Havg, Hsb. unfold too_small. intros Hsmall.
    destruct (Qleb sb 0) eqn:E0; [reflexivity|]. apply Qleb_gt in E0.
    destruct (Qltb sb (o_l_amount_tick i * 10)) eqn:E1; [reflexivity|].
    destruct (Qltb sb (o_aster_step_size i * 10)) eqn:E2; [reflexivity|].
    apply Qltb_ge in E1, E2. exfalso. destruct Hsmall as [H|[H|H]]; lra.
Qed.

Lemma open_size_on_grid_witness :
  fst (open_delta_neutral_position btc_open) = [] /\
  exists e, snd (open_delta_neutral_position btc_open) = Raises e /\ size_too_small e.
Proof.
  destruct (open_size_on_grid btc_open btc_avg_mid)
    as (sb & Hsb & _ & _ & Hiff & _ & Hnone); try reflexivity.
  vm_compute in Hsb. injection Hsb as <-.
  assert (Hsmall : (2 # 1000) <= 0 \/ (2 # 1000) < 10 * o_l_amount_tick btc_open
                   \/ (2 # 1000) < 10 * o_aster_step_size btc_open).
  { right. left. reflexivity. }
  split.
  - apply Hnone. exact Hsmall.
  - apply Hiff. exact Hsmall.
Defined.

(** ** Writing the state file *)

Lemma save_attempt_events state_file content f ev :
  In ev (fst (save_attempt state_file content f)) ->
  ev = FsOpenTrunc (state_file ++ ".tmp") \/
  ev = FsWrite (state_file ++ ".tmp") content \/
  ev = FsClose (state_file ++ ".tmp") \/
  ev = FsReplace (state_file ++ ".tmp") state_file.
Proof.
  destruct f; simpl; intuition.
Qed.

Lemma save_loop_events state_file content faults :
  forall fuel attempt ev,
    In ev (save_loop state_file content faults fuel attempt) ->
    In ev (attempt_events state_file content faults attempt) \/
    ev = FsSleep ((1 # 10) * inject_Z (attempt + 1)) \/
    In ev (save_loop state_file content faults (pred fuel) (attempt + 1)%Z).
Proof.
  intros fuel attempt ev. unfold attempt_events.
  destruct fuel as [|fuel]; [intros []|]. cbn [save_loop pred].
  destruct (save_attempt state_file content (faults attempt)) as [evs [e|]];
    cbn [fst]; [|tauto].
  destruct (exn_class e); try tauto.
  destruct ((errno =? 16)%Z && (attempt <? save_max_retries - 1)%Z).
  - rewrite !in_app_iff. simpl. intros [H|[[H|[]]|H]]; auto.
  - destruct (attempt =? save_max_retries - 1)%Z; [|tauto].
    rewrite in_app_iff. tauto.
Qed.

Lemma save_loop_no_fsync state_file content faults p :
  forall fuel attempt,
    ~ In (FsFsync p) (save_loop state_file content faults fuel attempt).
Proof.
  induction fuel as [|fuel IH]; intros attempt H; [exact H|].
  apply save_loop_events in H. destruct H as [H|[H|H]].
  - apply save_attempt_events in H. destruct H as [H|[H|[H|H]]]; discriminate.
  - discriminate.
  - exact (IH _ H).
Qed.

(** C6, as amended: a save writes the full state to [<state_file>.tmp] and
    then renames that file over the target, and issues no fsync; an attempt
    that fails with anything but [OSError] 16 ends the save; after [OSError]
    16 the save sleeps 0.1 s, tries again, sleeps 0.2 s and tries a third and
    last time. *)
Theorem save_file_protocol (state_file content : string) (faults : Z -> save_fault) :
  let tmp := (state_file ++ ".tmp")%string in
  let trace := save_file state_file content faults in
  (forall p, ~ In (FsFsync p) trace) /\
  (faults 0%Z = NoFault ->
     trace = [FsOpenTrunc tmp; FsWrite tmp content; FsClose tmp;
              FsReplace tmp state_file]) /\
  (forall e, snd (save_attempt state_file content (faults 0%Z)) = Some e ->
     exn_class e <> KOSError 16 ->
     trace = attempt_events state_file content faults 0) /\
  (busy_at state_file content faults 0 ->
   ~ busy_at state_file content faults 1 ->
     trace = attempt_events state_file content faults 0
             ++ [FsSleep ((1 # 10) * inject_Z 1)]
             ++ attempt_events state_file content faults 1) /\
  (busy_at state_file content faults 0 ->
   busy_at state_file content faults 1 ->
     trace = attempt_events state_file content faults 0
             ++ [FsSleep ((1 # 10) * inject_Z 1)]
             ++ attempt_events state_file content faults 1
             ++ [FsSleep ((1 # 10) * inject_Z 2)]
             ++ attempt_events state_file content faults 2).
Proof.
  cbv zeta. unfold save_file, busy_at, attempt_events.
  split; [intros p; apply save_loop_no_fsync|].
  change (Z.to_nat save_max_retries) with 3%nat.
  cbn [save_loop]. change (save_max_retries - 1)%Z with 2%Z.
  change (0 + 1)%Z with 1%Z. change (0 + 1 + 1)%Z with 2%Z.
  change (1 + 1)%Z with 2%Z.
  change (0 <? 2)%Z with true. change (1 <? 2)%Z with true.
  change (2 <? 2)%Z with false. change (0 =? 2)%Z with false.
  change (1 =? 2)%Z with false. change (2 =? 2)%Z with true.
  destruct (save_attempt state_file content (faults 0%Z)) as [ev0 err0] eqn:A0.
  destruct (save_attempt state_file content (faults 1%Z)) as [ev1 err1] eqn:A1.
  destruct (save_attempt state_file content (faults 2%Z)) as [ev2 err2] eqn:A2.
  cbn [fst snd].
  split; [|split; [|split]].
  - intros F0. rewrite F0 in A0. cbn in A0. injection A0 as <- <-. reflexivity.
  - intros e [= ->] Hcls.
    destruct (exn_class e) as [| | | | | |errno] eqn:C; try reflexivity.
    destruct (errno =? 16)%Z eqn:E; [apply Z.eqb_eq in E; congruence|].
    reflexivity.
  - intros [e0 [-> C0]] Hn1. rewrite C0. cbn [Z.eqb Pos.eqb andb].
    destruct err1 as [e1|]; [|reflexivity].
    destruct (exn_class e1) as [| | | | | |errno] eqn:C1; try reflexivity.
    destruct (errno =? 16)%Z eqn:E; [|reflexivity].
    apply Z.eqb_eq in E. subst errno. exfalso. apply Hn1. now exists e1.
  - intros [e0 [-> C0]] [e1 [-> C1]]. rewrite C0, C1. cbn [Z.eqb Pos.eqb andb].
    destruct err2 as [e2|]; [|reflexivity].
    destruct (exn_class e2) as [| | | | | |errno]; rewrite ?app_nil_r;
      try reflexivity.
    cbn [andb]. destruct (errno =? 16)%Z; cbn [andb]; rewrite ?app_nil_r;
      reflexivity.
Qed.

Lemma save_file_protocol_witness :
  save_file "bot_state.json" "{}" (fun _ => NoFault)
  = [FsOpenTrunc "bot_state.json.tmp"; FsWrite "bot_state.json.tmp" "{}";
     FsClose "bot_state.json.tmp";
     FsReplace "bot_state.json.tmp" "bot_state.json"].
Proof.
  apply (save_file_protocol "bot_state.json" "{}" (fun _ => NoFault)).
  reflexivity.
Defined.

(** C6, as stated, fails: a save that meets no error writes, closes and
    renames the temporary file without any fsync; and a save whose rename
    fails with the transient [EAGAIN] stops after that one attempt. *)
Lemma save_file_never_fsyncs :
  save_file "bot_state.json" "{}" (fun _ => NoFault)
  = [FsOpenTrunc "bot_state.json.tmp"; FsWrite "bot_state.json.tmp" "{}";
     FsClose "bot_state.json.tmp";
     FsReplace "bot_state.json.tmp" "bot_state.json"] /\
  ~ In (FsFsync "bot_state.json.tmp")
       (save_file "bot_state.json" "{}" (fun _ => NoFault)) /\
  save_file "bot_state.json" "{}" fails_once_with_eagain
  = [FsOpenTrunc "bot_state.json.tmp"; FsWrite "bot_state.json.tmp" "{}";
     FsClose "bot_state.json.tmp"].
Proof.
  split; [reflexivity|]. split; [|reflexivity].
  simpl. intros [H|[H|[H|[H|[]]]]]; discriminate.
Qed.

(** ** Position recovery *)

Lemma size_mismatch_test (observed stored : Q) :
  Qltb (1 # 1000) (Qabs (observed - stored))
  && Qltb (1 # 10) (if Qltb 0 stored
                    then Qabs (observed - stored) / stored * 100 else 0) = true
  <-> size_mismatch observed stored.
Proof.
  unfold size_mismatch. rewrite andb_true_iff, Qltb_lt.
  destruct (Qltb 0 stored) eqn:E.
  - rewrite Qltb_lt. apply Qltb_lt in E. tauto.
  - apply Qltb_ge in E. rewrite Qltb_lt. split; intros [H1 H2].
    + exfalso. revert H2. apply Qle_not_lt. discriminate.
    + exfalso. destruct H2 as [H2 _]. lra.
Qed.

(** C4, as amended: with a stored position, recovery goes by the two live
    sizes, a side counting as present above 0.0001 units.  Both present with
    opposite signs: the position is kept and the state is HOLDING; the stored
    [size_base] is replaced by the observed average, and saved, exactly when
    the two differ by more than 0.001 units and by more than 0.1 % of a
    positive stored size, and the position is left as it was otherwise.  Both
    present with the same sign, one side only, or neither side: the position
    is cleared and saved, and the state becomes IDLE when the stored state was
    HOLDING and stays as stored otherwise. *)
Theorem startup_recovery_truth_table (w : World) (position : Position)
        (aster_size lighter_size : Q) :
  current_position (mem w) = Some position ->
  p_symbol position <> ""%string ->
  let w' := startup_recovery w (Returns (aster_size, lighter_size)) in
  let on_aster := has_pos aster_size in
  let on_lighter := has_pos lighter_size in
  let opposite := opposite_signed aster_size lighter_size in
  let observed := (Qabs aster_size + Qabs lighter_size) / 2 in
  let stored := value_of (md_size_base (p_metadata position)) in
  let cleared :=
    current_position (mem w') = None /\
    (exists older, disk w' = older ++ [mem w']) /\
    get_state w' = if BotState_eqb (get_state w) HOLDING then IDLE
                   else get_state w in
  (on_aster = true -> on_lighter = true -> opposite = true ->
     get_state w' = HOLDING /\
     (size_mismatch observed stored ->
        current_position (mem w') = Some (put_size_base observed position) /\
        exists older, disk w' = older ++ [mem w']) /\
     (~ size_mismatch observed stored ->
        current_position (mem w') = Some position)) /\
  (on_aster = true -> on_lighter = true -> opposite = false -> cleared) /\
  (xorb on_aster on_lighter = true -> cleared) /\
  (on_aster = false -> on_lighter = false -> cleared).
Proof.
  intros Hpos Hsym w' on_aster on_lighter opposite observed stored cleared.
  subst cleared w'. unfold startup_recovery, verify_and_recover_position.
  rewrite Hpos.
  destruct (String.eqb (p_symbol position) "") eqn:Es;
    [apply String.eqb_eq in Es; contradiction|].
  fold observed stored on_aster on_lighter opposite.
  assert (Hm := size_mismatch_test observed stored).
  destruct on_aster; destruct on_lighter; destruct opposite; cbn [andb orb xorb];
    (split; [|split; [|split]]); intros; try discriminate.
  1: { destruct (Qltb (1 # 1000) (Qabs (observed - stored))
                 && Qltb (1 # 10) (if Qltb 0 stored
                                   then Qabs (observed - stored) / stored * 100
                                   else 0)) eqn:T.
    + unfold get_state, set_state, save, with_mem, put_position, put_state.
      cbn. destruct (bot_state (mem w)); cbn;
        (split; [reflexivity|]); (split; [intros _|intros Hn; exfalso; tauto]);
        (split; [reflexivity|]); eexists; reflexivity.
    + unfold get_state, set_state, save, with_mem, put_position, put_state.
      destruct (bot_state (mem w)) eqn:B; cbn; rewrite ?B;
        (split; [reflexivity|]);
        (split; [intros Hy; apply Hm in Hy; discriminate Hy|intros _]);
        assumption. }
  all: unfold clear_position, get_state, set_state, save, with_mem,
         put_position, put_state; cbn;
       destruct (bot_state (mem w)); cbn; (split; [reflexivity|]);
       (split; [eexists; reflexivity | reflexivity]).
Qed.

Lemma startup_recovery_truth_table_witness :
  get_state (startup_recovery (btc_world SHUTDOWN)
               (Returns (- (2 # 100), 2 # 100))) = HOLDING /\
  current_position (mem (startup_recovery (btc_world HOLDING) (Returns (2 # 100, 0))))
  = None /\
  get_state (startup_recovery (btc_world HOLDING) (Returns (2 # 100, 0))) = IDLE.
Proof.
  destruct (startup_recovery_truth_table (btc_world SHUTDOWN) btc_position
              (- (2 # 100)) (2 # 100)) as (Hresume & _);
    [reflexivity | discriminate |].
  destruct (startup_recovery_truth_table (btc_world HOLDING) btc_position
              (2 # 100) 0) as (_ & _ & Hone & _);
    [reflexivity | discriminate |].
  split; [apply Hresume; reflexivity|].
  destruct (Hone eq_refl) as (Hnone & _ & Hstate).
  split; [exact Hnone | exact Hstate].
Defined.

(** C4, as stated, fails.  The bot was shut down while holding, so the state
    file says SHUTDOWN and carries the position; neither venue shows a position
    on restart; recovery clears the position and leaves the state at SHUTDOWN
    instead of setting IDLE.  With WAITING stored the state is not IDLE after
    the next pass of the loop either: that pass saves ANALYZING and then
    WAITING. *)
Lemma recovery_leaves_state_when_not_holding :
  has_pos 0 = false /\
  current_position (mem (startup_recovery (btc_world SHUTDOWN) (Returns (0, 0))))
  = None /\
  get_state (startup_recovery (btc_world SHUTDOWN) (Returns (0, 0))) = SHUTDOWN /\
  get_state (startup_recovery (btc_world SHUTDOWN) (Returns (0, 0))) <> IDLE /\
  map bot_state
      (disk (main_loop default_config [quiet_env 60 None None]
               (startup_recovery (btc_world WAITING) (Returns (0, 0)))))
  = [WAITING; ANALYZING; WAITING].
Proof.
  repeat split. discriminate.
Qed.

(** ** What the supervisor loop writes to the state file *)

Lemma saves_only_refl P w : saves_only P w w.
Proof. exists []. split; [now rewrite app_nil_r | constructor]. Qed.

Lemma saves_only_trans P w1 w2 w3 :
  saves_only P w1 w2 -> saves_only P w2 w3 -> saves_only P w1 w3.
Proof.
  intros [a1 [E1 F1]] [a2 [E2 F2]]. exists (a1 ++ a2). split.
  - now rewrite E2, E1, app_assoc.
  - apply Forall_app. now split.
Qed.

Lemma saves_only_save P w w' :
  saves_only P w w' -> P (mem w') -> saves_only P w (save w').
Proof.
  intros H Hm. apply (saves_only_trans P w w'); [exact H|].
  exists [mem w']. split; [reflexivity | now constructor].
Qed.

Lemma saves_only_set_state w w' s :
  saves_only holding_has_position w w' ->
  (s = HOLDING -> current_position (mem w') <> None) ->
  saves_only holding_has_position w (set_state s w').
Proof.
  intros H Hs. apply (saves_only_trans _ w w'); [exact H|].
  exists [put_state s (mem w')]. split; [reflexivity|].
  constructor; [exact Hs | constructor].
Qed.

(** Steps that do not touch the state file. *)
Lemma saves_only_same_disk P w w' w'' :
  saves_only P w w' -> disk w'' = disk w' -> saves_only P w w''.
Proof.
  intros [added [E F]] H. exists added. split; [congruence | exact F].
Qed.

Lemma saves_only_with_mem P w w' m :
  saves_only P w w' -> saves_only P w (with_mem m w').
Proof. intro H. now apply (saves_only_same_disk P w w'). Qed.

Lemma saves_only_with_call P w w' c :
  saves_only P w w' -> saves_only P w (with_call c w').
Proof. intro H. now apply (saves_only_same_disk P w w'). Qed.

Lemma saves_only_append_cycle P w w' c failed :
  saves_only P w w' -> saves_only P w (append_cycle c failed w').
Proof. intro H. now apply (saves_only_same_disk P w w'). Qed.

Lemma saves_only_enter_error msg now w w' :
  saves_only holding_has_position w w' ->
  saves_only holding_has_position w (enter_error msg now w').
Proof.
  intro H. unfold enter_error. apply saves_only_save.
  - apply (saves_only_same_disk _ w (set_state ERROR w')); [|reflexivity].
    apply saves_only_set_state; [exact H | discriminate].
  - unfold holding_has_position. cbn. discriminate.
Qed.

(** Peels the steps of a handler off its result, last step first. *)
Ltac peel_saves :=
  repeat first
    [ apply saves_only_refl
    | apply saves_only_enter_error
    | apply saves_only_with_mem
    | apply saves_only_with_call
    | apply saves_only_append_cycle
    | apply saves_only_set_state; [|cbn; first [discriminate | congruence]]
    | apply saves_only_save;
      [|unfold holding_has_position; cbn; first [discriminate | congruence]] ].

Lemma analyze_and_open_saves config env w :
  saves_only holding_has_position w (analyze_and_open config env w).
Proof.
  unfold analyze_and_open.
  destruct (filter r_available _); [peel_saves|].
  destruct (scan_candidates _ _) as [|best rest]; [peel_saves|].
  destruct (snd (open_delta_neutral_position _)) as [metadata|e]; peel_saves.
Qed.

Lemma hold_and_monitor_saves config env w :
  get_state w = HOLDING ->
  saves_only holding_has_position w (hold_and_monitor config env w).
Proof.
  intro Hst. unfold hold_and_monitor.
  destruct (current_position (mem w)) as [position|] eqn:Hpos; [|peel_saves].
  destruct (Qleb (p_target_close_at position) (e_now env)).
  - destruct (e_close env) as [u|e]; peel_saves.
  - destruct (stop_loss_check _ _ _ _) as [hit|].
    + destruct (e_close env) as [u|e]; peel_saves.
    + destruct (_ && e_refresh_ok env); peel_saves.
Qed.

Lemma loop_iteration_saves config env w :
  saves_only holding_has_position w (loop_iteration config env w).
Proof.
  unfold loop_iteration. destruct (get_state w) eqn:Hst;
    try apply analyze_and_open_saves;
    try (now apply hold_and_monitor_saves);
    peel_saves.
Qed.

(** C5, as amended: every state that the supervisor loop writes to the state
    file, over any number of passes and whatever the venues answer, has a
    position whenever its state is HOLDING. *)
Theorem main_loop_holding_has_position (config : BotConfig)
        (envs : list IterEnv) (w : World) :
  exists added,
    disk (main_loop config envs w) = disk w ++ added /\
    Forall holding_has_position added.
Proof.
  change (saves_only holding_has_position w (main_loop config envs w)).
  revert w. induction envs as [|env envs IH]; intro w.
  - apply saves_only_refl.
  - cbn [main_loop fold_left]. eapply saves_only_trans.
    + apply loop_iteration_saves.
    + apply IH.
Qed.

(** C5, as stated, fails in both directions: when the hold time is over the
    loop saves the state CLOSING with the position still stored; and startup
    recovery, finding nothing on the venues, saves the cleared position while
    the state still says HOLDING. *)
Lemma persisted_states_break_invariant :
  (exists m, In m (disk (main_loop default_config
                           [quiet_env 28800 (Some 0) (Some 0)]
                           (btc_world HOLDING))) /\
             bot_state m = CLOSING /\ current_position m = Some btc_position /\
             ~ holding_iff_position m) /\
  (exists m, In m (disk (startup_recovery (btc_world HOLDING) (Returns (0, 0)))) /\
             bot_state m = HOLDING /\ current_position m = None /\
             ~ holding_iff_position m).
Proof.
  split.
  - eexists. split; [left; reflexivity|].
    split; [reflexivity|]. split; [reflexivity|].
    unfold holding_iff_position. cbn. intros [_ H].
    assert (E : CLOSING = HOLDING) by (apply H; discriminate). discriminate E.
  - eexists. split; [left; reflexivity|].
    split; [reflexivity|]. split; [reflexivity|].
    unfold holding_iff_position. cbn. intros [H _].
    apply (H eq_refl). reflexivity.
Qed.

(** ** Stop-loss *)

Lemma worst_leg_most_negative (aster_pnl lighter_pnl : option Q) (worst : Q) (ex : string) :
  worst_leg aster_pnl lighter_pnl = Some (worst, ex) ->
  ((aster_pnl = Some worst /\ ex = "Aster"%string) \/
   (lighter_pnl = Some worst /\ ex = "Lighter"%string)) /\
  (forall x, aster_pnl = Some x \/ lighter_pnl = Some x -> worst <= x).
Proof.
  unfold worst_leg. destruct aster_pnl as [a|]; destruct lighter_pnl as [l|];
    try discriminate.
  - destruct (Qleb a l) eqn:E; intros [= <- <-].
    + apply Qleb_le in E. split; [left; auto|].
      intros x [[= <-]|[= <-]]; lra.
    + apply Qleb_gt in E. split; [right; auto|].
      intros x [[= <-]|[= <-]]; lra.
  - intros [= <- <-]. split; [left; auto|].
    intros x [[= <-]|H]; [lra | discriminate].
  - intros [= <- <-]. split; [right; auto|].
    intros x [H|[= <-]]; [discriminate | lra].
Qed.

Lemma Qabs_pct (pnl value : Q) :
  0 < value -> Qabs (pnl / value * 100) == Qabs pnl / value * 100.
Proof.
  intro H. unfold Qdiv. rewrite !Qabs_Qmult.
  assert (Hinv : 0 < / value) by now apply Qinv_lt_0_compat.
  rewrite (Qabs_pos (/ value)) by lra.
  rewrite (Qabs_pos 100) by discriminate. reflexivity.
Qed.

Lemma position_value_of_size (config : BotConfig) (position : Position)
      (size_base avg_mid : Q) :
  md_size_base (p_metadata position) = Some size_base -> 0 < size_base ->
  md_avg_mid (p_metadata position) = Some avg_mid -> 0 < avg_mid ->
  position_value config position = size_base * avg_mid.
Proof.
  intros Hs Hs0 Ha Ha0. unfold position_value. rewrite Hs, Ha. cbn [value_of].
  assert (T1 : float_truthy size_base = true) by (apply float_truthy_neq; lra).
  assert (T2 : float_truthy avg_mid = true) by (apply float_truthy_neq; lra).
  now rewrite T1, T2.
Qed.

Lemma stop_loss_check_rule (config : BotConfig) (position : Position)
      (aster_pnl lighter_pnl : option Q) (lev size_base avg_mid worst : Q)
      (ex : string) :
  enable_stop_loss config = true ->
  position_leverage config position = lev -> 0 < lev ->
  md_size_base (p_metadata position) = Some size_base -> 0 < size_base ->
  md_avg_mid (p_metadata position) = Some avg_mid -> 0 < avg_mid ->
  worst_leg aster_pnl lighter_pnl = Some (worst, ex) ->
  ((100 / lev) * (75 # 100) <= Qabs worst / (size_base * avg_mid) * 100 /\
   stop_loss_check config position aster_pnl lighter_pnl
   = Some (worst, worst / (size_base * avg_mid) * 100, ex))
  \/
  (~ (100 / lev) * (75 # 100) <= Qabs worst / (size_base * avg_mid) * 100 /\
   stop_loss_check config position aster_pnl lighter_pnl = None).
Proof.
  intros Hen Hlev Hlev0 Hs Hs0 Ha Ha0 Hworst.
  unfold stop_loss_check.
  rewrite (position_value_of_size config position size_base avg_mid) by assumption.
  rewrite Hworst, Hlev, Hen. cbn [andb].
  assert (Hv : 0 < size_base * avg_mid) by nra.
  assert (T : Qltb 0 (size_base * avg_mid) = true) by now apply Qltb_lt.
  rewrite T. unfold calculate_stop_loss_percentage.
  assert (L : Qleb lev 0 = false) by now apply Qleb_gt.
  rewrite L. clear L T.
  destruct (Qleb (100 / lev * (75 # 100)) _) eqn:E.
  - left. apply Qleb_le in E. rewrite (Qabs_pct _ _ Hv) in E. now split.
  - right. apply Qleb_gt in E. rewrite (Qabs_pct _ _ Hv) in E.
    split; [|reflexivity]. now apply Qlt_not_le.
Qed.

Lemma app_one_neq {A} (l : list A) (x : A) : l <> l ++ [x].
Proof.
  intro H. apply (f_equal (@List.length A)) in H.
  rewrite length_app in H. simpl in H. lia.
Qed.

Lemma worst_leg_exists (aster_pnl lighter_pnl : option Q) :
  aster_pnl <> None \/ lighter_pnl <> None ->
  exists worst ex, worst_leg aster_pnl lighter_pnl = Some (worst, ex) /\
                   (aster_pnl = Some worst -> ex = "Aster"%string).
Proof.
  unfold worst_leg. destruct aster_pnl as [a|]; destruct lighter_pnl as [l|].
  - intros _. destruct (Qleb a l) eqn:E; eexists; eexists;
      (split; [reflexivity|]); [reflexivity|].
    intros [= ->]. unfold Qleb in E.
    assert (H : Qle_bool l l = true) by (apply Qle_bool_iff; lra).
    congruence.
  - intros _. eexists; eexists. split; reflexivity.
  - intros _. eexists; eexists. split; [reflexivity | discriminate].
  - intros [H|H]; now contradiction H.
Qed.

(** C3: while HOLDING before the close time, with the stop-loss enabled, a
    positive leverage and a positive stored [size_base] and [avg_mid]: when
    no PnL was fetched nothing is closed; otherwise [worst_pnl] is the most
    negative of the PnLs fetched (the Aster one on a tie), [worst_exchange]
    is its venue, and the loop calls for a close exactly when
    [|worst_pnl| / (size_base * avg_mid) * 100 >= (100 / leverage) * 0.75];
    the state CLOSING is then saved first; when the close returns, the cycle
    is recorded with status "stop-loss" and with [pnl_at_close],
    [pnl_pct_at_close] and [worst_exchange]; when the close raises, no cycle
    is recorded and the bot is in ERROR with the position still stored. *)
Theorem stop_loss_rule (config : BotConfig) (env : IterEnv) (w : World)
        (position : Position) (lev size_base avg_mid : Q) :
  get_state w = HOLDING ->
  current_position (mem w) = Some position ->
  enable_stop_loss config = true ->
  e_now env < p_target_close_at position ->
  position_leverage config position = lev -> 0 < lev ->
  md_size_base (p_metadata position) = Some size_base -> 0 < size_base ->
  md_avg_mid (p_metadata position) = Some avg_mid -> 0 < avg_mid ->
  let w' := loop_iteration config env w in
  (e_aster_pnl env = None /\ e_lighter_pnl env = None -> calls w' = calls w) /\
  (e_aster_pnl env <> None \/ e_lighter_pnl env <> None ->
   exists worst_pnl worst_exchange,
     most_negative (e_aster_pnl env) (e_lighter_pnl env) worst_pnl worst_exchange /\
     (e_aster_pnl env = Some worst_pnl -> worst_exchange = "Aster"%string) /\
     let fires :=
       (100 / lev) * (75 # 100) <= Qabs worst_pnl / (size_base * avg_mid) * 100 in
     (fires <-> calls w' = calls w ++ [CallClose (p_symbol position)]) /\
     (~ fires -> calls w' = calls w) /\
     (fires -> exists later, disk w' = disk w ++ put_state CLOSING (mem w) :: later) /\
     (fires -> forall u, e_close env = Returns u ->
        exists c, completed_cycles (mem w') = completed_cycles (mem w) ++ [c] /\
          c_symbol c = p_symbol position /\
          c_status c = "stop-loss"%string /\
          c_pnl_at_close c = Some worst_pnl /\
          c_pnl_pct_at_close c = Some (worst_pnl / (size_base * avg_mid) * 100) /\
          c_worst_exchange c = Some worst_exchange) /\
     (fires -> forall e, e_close env = Raises e ->
        completed_cycles (mem w') = completed_cycles (mem w) /\
        get_state w' = ERROR /\
        current_position (mem w') = Some position)).
Proof.
  intros Hst Hpos Hen Hnow Hlev Hlev0 Hs Hs0 Ha Ha0 w'.
  subst w'. unfold loop_iteration. rewrite Hst. unfold hold_and_monitor.
  rewrite Hpos. apply Qleb_gt in Hnow. rewrite Hnow.
  split.
  { intros [Hna Hnl]. unfold stop_loss_check. rewrite Hna, Hnl. cbn [worst_leg].
    now destruct (_ && e_refresh_ok env). }
  intros Hsome.
  destruct (worst_leg_exists _ _ Hsome) as (worst_pnl & worst_exchange & Hworst & Htie).
  exists worst_pnl, worst_exchange.
  split; [exact (worst_leg_most_negative _ _ _ _ Hworst)|].
  split; [exact Htie|]. cbv zeta.
  destruct (stop_loss_check_rule config position (e_aster_pnl env)
              (e_lighter_pnl env) lev size_base avg_mid worst_pnl worst_exchange
              Hen Hlev Hlev0 Hs Hs0 Ha Ha0 Hworst) as [[Hf Hc]|[Hf Hc]];
    rewrite Hc.
  - destruct (e_close env) as [u|e] eqn:Hclose.
    + split; [split; [intros _; reflexivity | intros _; exact Hf]|].
      split; [intros Hn; contradiction|].
      split; [intros _; eexists; cbn; rewrite <- !app_assoc; reflexivity|].
      split.
      * intros _ u' _. eexists. split; [reflexivity|]. repeat split; reflexivity.
      * intros _ e H. discriminate H.
    + split; [split; [intros _; reflexivity | intros _; exact Hf]|].
      split; [intros Hn; contradiction|].
      split; [intros _; eexists; cbn; rewrite <- !app_assoc; reflexivity|].
      split.
      * intros _ u H. discriminate H.
      * intros _ e' _. cbn. repeat split. exact Hpos.
  - destruct (_ && e_refresh_ok env).
    all: split; [split; [intros H; contradiction|]|].
    all: try (intros H; exfalso; exact (app_one_neq _ _ H)).
    all: split; [intros _; reflexivity|].
    all: split; [intros H; contradiction|].
    all: split; intros H; contradiction.
Qed.

(** Leverage 3 puts the stop-loss at 25 %. *)
Example stop_loss_at_leverage_3 : calculate_stop_loss_percentage 3 == 25.
Proof. reflexivity. Qed.

Lemma stop_loss_rule_witness :
  let w' := loop_iteration default_config (quiet_env 100 (Some (- (260))) (Some 250))
                           (btc_world HOLDING) in
  calls w' = [CallClose "BTCUSDT"] /\
  exists c, completed_cycles (mem w') = [c] /\
            c_status c = "stop-loss"%string /\
            c_pnl_at_close c = Some (- (260)) /\
            c_worst_exchange c = Some "Aster"%string.
Proof.
  intro w'.
  assert (Hfires : (100 / 3) * (75 # 100) <= Qabs (- (260)) / ((2 # 100) * 50000) * 100)
    by (vm_compute; discriminate).
  destruct (stop_loss_rule default_config (quiet_env 100 (Some (- (260))) (Some 250))
              (btc_world HOLDING) btc_position 3 (2 # 100) 50000)
    as (_ & Hsome); try reflexivity.
  destruct Hsome as (worst & ex & [Hleg Hmin] & Htie & Hiff & _ & _ & Hrec & _);
    [left; discriminate|].
  assert (Hw : worst = - (260)).
  { destruct Hleg as [[[= <-] _]|[[= <-] _]]; [reflexivity|].
    exfalso. assert (H : 250 <= - (260)) by (apply Hmin; left; reflexivity).
    vm_compute in H. now apply H. }
  subst worst. cbn [e_aster_pnl quiet_env] in Htie.
  rewrite (Htie eq_refl) in Hrec.
  split.
  - apply Hiff. exact Hfires.
  - destruct (Hrec Hfires tt eq_refl) as (c & Hc & _ & Hstatus & Hpnl & _ & Hex).
    exists c. repeat split; assumption.
Defined.

(** C3, as stated, fails.  The Aster leg of the BTC hedge shows a loss of
    260 USDT on a position worth 1000 USDT, 26 % against a threshold of
    25 %, so the stop-loss fires and the close is called; the close raises,
    and no cycle is recorded: the bot is in ERROR with the position still
    stored. *)
Lemma stop_loss_fires_without_record :
  (100 / 3) * (75 # 100) <= Qabs (- (260)) / ((2 # 100) * 50000) * 100 /\
  calls (loop_iteration default_config losing_env_close_fails (btc_world HOLDING))
  = [CallClose "BTCUSDT"] /\
  completed_cycles
    (mem (loop_iteration default_config losing_env_close_fails (btc_world HOLDING)))
  = [] /\
  get_state (loop_iteration default_config losing_env_close_fails (btc_world HOLDING))
  = ERROR /\
  current_position
    (mem (loop_iteration default_config losing_env_close_fails (btc_world HOLDING)))
  = Some btc_position.
Proof.
  split; [vm_compute; discriminate|]. repeat split.
Qed.

(* ================================================================== *)
(** * Part III: further properties of the code                         *)
(* ================================================================== *)

(** ** Rounding to a tick *)

Lemma Zle_of_Qlt_succ (a b : Z) : inject_Z a < inject_Z b + 1 -> (a <= b)%Z.
Proof.
  intro H. change 1 with (inject_Z 1) in H. rewrite <- inject_Z_plus in H.
  rewrite <- Zlt_Qlt in H. lia.
Qed.

Lemma round_down_bounds (q : Q) :
  (0 <= q -> inject_Z (round_down q) <= q /\ q < inject_Z (round_down q) + 1) /\
  (q <= 0 -> q <= inject_Z (round_down q) /\ inject_Z (round_down q) - 1 < q).
Proof.
  split; intro H.
  - rewrite (round_down_nonneg q H).
    assert (Hhi := Qlt_floor q). rewrite inject_Z_plus in Hhi.
    split; [apply Qfloor_le | exact Hhi].
  - assert (Hq : 0 <= - q) by lra.
    assert (E : round_down q = (- Qfloor (- q))%Z).
    { assert (E := round_down_opp q). rewrite (round_down_nonneg _ Hq) in E. lia. }
    rewrite E, inject_Z_opp.
    assert (Hlo := Qfloor_le (- q)). assert (Hhi := Qlt_floor (- q)).
    rewrite inject_Z_plus in Hhi. change (inject_Z 1) with 1 in Hhi.
    split; lra.
Qed.

Lemma round_half_up_bounds (q : Q) :
  inject_Z (round_half_up q) - (1 # 2) <= q /\ q <= inject_Z (round_half_up q) + (1 # 2).
Proof.
  unfold round_half_up. destruct (Qleb 0 q) eqn:E.
  - assert (Hlo := Qfloor_le (q + (1 # 2))).
    assert (Hhi := Qlt_floor (q + (1 # 2))).
    rewrite inject_Z_plus in Hhi. change (inject_Z 1) with 1 in Hhi.
    split; lra.
  - rewrite inject_Z_opp.
    assert (Hlo := Qfloor_le (- q + (1 # 2))).
    assert (Hhi := Qlt_floor (- q + (1 # 2))).
    rewrite inject_Z_plus in Hhi. change (inject_Z 1) with 1 in Hhi.
    split; lra.
Qed.

Lemma round_up_bounds (q : Q) :
  (0 <= q -> q <= inject_Z (round_up q) /\ inject_Z (round_up q) < q + 1) /\
  (q <= 0 -> inject_Z (round_up q) <= q).
Proof.
  unfold round_up. split; intro H.
  - apply Qleb_le in H. rewrite H.
    assert (Hlo := Qle_ceiling q). assert (Hhi := Qceiling_lt q).
    unfold Z.sub in Hhi. rewrite inject_Z_plus, inject_Z_opp in Hhi.
    change (inject_Z 1) with 1 in Hhi.
    split; lra.
  - destruct (Qleb 0 q) eqn:E.
    + apply Qleb_le in E. assert (E0 : q == 0) by lra.
      rewrite (Qceiling_comp q 0 E0). change (Qceiling 0) with 0%Z.
      change (inject_Z 0) with 0. lra.
    + apply Qfloor_le.
Qed.

Lemma scaled_by_tick (value tick : Q) : 0 < tick -> value == value / tick * tick.
Proof. intro H. field. lra. Qed.

Lemma _round_to_tick_positive (value tick : Q) :
  0 < tick ->
  _round_to_tick value tick = inject_Z (round_half_up (value / tick)) * tick.
Proof.
  intro H. unfold _round_to_tick. now rewrite tick_guard_positive.
Qed.

Lemma _ceil_to_tick_positive (value tick : Q) :
  0 < tick ->
  _ceil_to_tick value tick = inject_Z (round_up (value / tick)) * tick.
Proof.
  intro H. unfold _ceil_to_tick. now rewrite tick_guard_positive.
Qed.

Lemma tick_guard_cases (tick : Q) :
  negb (float_truthy tick) || Qleb tick 0 = true \/ 0 < tick.
Proof.
  destruct (Qleb tick 0) eqn:E.
  - left. apply orb_true_r.
  - right. now apply Qleb_gt.
Qed.

(** X1: for a non-negative value and any tick, rounding down, to the nearest
    and up are ordered: floor <= round <= ceil, with the value between floor
    and ceil; when the tick is zero or negative all three leave the value
    as it is. *)
Theorem tick_roundings_ordered (value tick : Q) :
  0 <= value ->
  _floor_to_tick value tick <= _round_to_tick value tick /\
  _round_to_tick value tick <= _ceil_to_tick value tick /\
  _floor_to_tick value tick <= value /\
  value <= _ceil_to_tick value tick /\
  (tick <= 0 ->
     _floor_to_tick value tick = value /\ _round_to_tick value tick = value /\
     _ceil_to_tick value tick = value).
Proof.
  intro Hv. destruct (tick_guard_cases tick) as [G|Ht].
  - unfold _floor_to_tick, _round_to_tick, _ceil_to_tick. rewrite G.
    repeat split; lra.
  - rewrite (_floor_to_tick_positive _ _ Ht), (_round_to_tick_positive _ _ Ht),
      (_ceil_to_tick_positive _ _ Ht).
    assert (Hq : 0 <= value / tick) by (apply Qle_shift_div_l; lra).
    assert (E := scaled_by_tick value tick Ht).
    destruct (round_down_bounds (value / tick)) as [Hd _]. specialize (Hd Hq).
    destruct (round_up_bounds (value / tick)) as [Hu _]. specialize (Hu Hq).
    assert (Hr := round_half_up_bounds (value / tick)).
    assert (Hdr : (round_down (value / tick) <= round_half_up (value / tick))%Z).
    { apply Zle_of_Qlt_succ. lra. }
    assert (Hru : (round_half_up (value / tick) <= round_up (value / tick))%Z).
    { apply Zle_of_Qlt_succ. lra. }
    rewrite Zle_Qle in Hdr, Hru.
    set (q := value / tick) in *.
    repeat split; try (intros; lra); try nra.
Qed.

Lemma tick_roundings_ordered_witness :
  _floor_to_tick (27 # 10) 1 <= _round_to_tick (27 # 10) 1 /\
  _round_to_tick (27 # 10) 1 <= _ceil_to_tick (27 # 10) 1.
Proof.
  destruct (tick_roundings_ordered (27 # 10) 1) as (H1 & H2 & _);
    [discriminate|]. split; assumption.
Defined.

Lemma round_up_nonpos (q : Q) :
  q <= 0 -> inject_Z (round_up q) <= q /\ q - 1 < inject_Z (round_up q).
Proof.
  intro H. split; [now apply round_up_bounds|].
  unfold round_up. destruct (Qleb 0 q) eqn:E.
  - apply Qleb_le in E. assert (E0 : q == 0) by lra.
    rewrite (Qceiling_comp q 0 E0). change (Qceiling 0) with 0%Z.
    change (inject_Z 0) with 0. lra.
  - assert (Hhi := Qlt_floor q). rewrite inject_Z_plus in Hhi.
    change (inject_Z 1) with 1 in Hhi. lra.
Qed.

(** X2: with a positive tick, [_round_to_tick] returns a multiple of the
    tick that lies within half a tick of the value. *)
Theorem round_to_tick_nearest (value tick : Q) :
  0 < tick ->
  (exists k : Z, _round_to_tick value tick = inject_Z k * tick) /\
  Qabs (_round_to_tick value tick - value) <= tick / 2.
Proof.
  intro Ht. rewrite (_round_to_tick_positive _ _ Ht).
  split; [eexists; reflexivity|].
  assert (Hr := round_half_up_bounds (value / tick)).
  assert (E := scaled_by_tick value tick Ht).
  set (q := value / tick) in *. set (k := inject_Z (round_half_up q)) in *.
  setoid_replace (k * tick - value) with ((k - q) * tick) by (rewrite E at 1; ring).
  setoid_replace (tick / 2) with ((1 # 2) * tick) by field.
  apply Qabs_case; intros _; nra.
Qed.

Lemma round_to_tick_nearest_witness :
  Qabs (_round_to_tick (27 # 10) (1 # 2) - (27 # 10)) <= (1 # 2) / 2.
Proof.
  apply (round_to_tick_nearest (27 # 10) (1 # 2)). reflexivity.
Defined.

Lemma round_down_sign (q : Q) :
  (0 <= q -> 0 <= inject_Z (round_down q)) /\
  (q <= 0 -> inject_Z (round_down q) <= 0).
Proof.
  destruct (round_down_bounds q) as [Hpos Hneg]. split; intro H.
  - destruct (Hpos H) as [H1 H2].
    assert (Hz : (-1 < round_down q)%Z).
    { rewrite Zlt_Qlt. change (inject_Z (-1)) with (- (1)). lra. }
    change 0 with (inject_Z 0). rewrite <- Zle_Qle. lia.
  - destruct (Hneg H) as [H1 H2].
    assert (Hz : (round_down q < 1)%Z).
    { rewrite Zlt_Qlt. change (inject_Z 1) with 1. lra. }
    change 0 with (inject_Z 0). rewrite <- Zle_Qle. lia.
Qed.

(** X3: with a positive tick, [_floor_to_tick] rounds toward zero: the
    result is no larger in magnitude than the value, differs from it by less
    than one tick, keeps the sign, and flooring it again changes nothing. *)
Theorem floor_to_tick_toward_zero (value tick : Q) :
  0 < tick ->
  Qabs (_floor_to_tick value tick) <= Qabs value /\
  Qabs (value - _floor_to_tick value tick) < tick /\
  (0 <= value -> 0 <= _floor_to_tick value tick) /\
  (value <= 0 -> _floor_to_tick value tick <= 0) /\
  _floor_to_tick (_floor_to_tick value tick) tick == _floor_to_tick value tick.
Proof.
  intro Ht.
  split; [|split; [|split; [|split]]];
    try (now apply _floor_to_tick_idempotent);
    rewrite (_floor_to_tick_positive _ _ Ht);
    assert (E := scaled_by_tick value tick Ht);
    destruct (round_down_bounds (value / tick)) as [Hpos Hneg];
    destruct (round_down_sign (value / tick)) as [Spos Sneg];
    set (q := value / tick) in *; set (k := inject_Z (round_down q)) in *.
  - destruct (Qlt_le_dec q 0) as [Hq|Hq].
    + destruct (Hneg ltac:(lra)) as [H1 H2]. assert (Hk := Sneg ltac:(lra)).
      assert (V : value <= 0) by (rewrite E; nra).
      assert (K : k * tick <= 0) by nra.
      rewrite (Qabs_neg _ V), (Qabs_neg _ K). rewrite E. nra.
    + destruct (Hpos Hq) as [H1 H2]. assert (Hk := Spos Hq).
      assert (V : 0 <= value) by (rewrite E; nra).
      assert (K : 0 <= k * tick) by nra.
      rewrite (Qabs_pos _ V), (Qabs_pos _ K). rewrite E. nra.
  - setoid_replace (value - k * tick) with ((q - k) * tick) by (rewrite E at 1; ring).
    destruct (Qlt_le_dec q 0) as [Hq|Hq].
    + destruct (Hneg ltac:(lra)) as [H1 H2]. apply Qabs_case; intros _; nra.
    + destruct (Hpos Hq) as [H1 H2]. apply Qabs_case; intros _; nra.
  - intro Hv. assert (Hq : 0 <= q) by (apply Qle_shift_div_l; lra).
    assert (Hk := Spos Hq). nra.
  - intro Hv. assert (Hq : q <= 0) by (unfold q; apply Qle_shift_div_r; lra).
    assert (Hk := Sneg Hq). nra.
Qed.

Lemma floor_to_tick_toward_zero_witness :
  Qabs (_floor_to_tick (- (27 # 10)) 1) <= Qabs (- (27 # 10)) /\
  Qabs (- (27 # 10) - _floor_to_tick (- (27 # 10)) 1) < 1.
Proof.
  destruct (floor_to_tick_toward_zero (- (27 # 10)) 1) as (H1 & H2 & _);
    [reflexivity|]. split; assumption.
Defined.

(** X4: with a positive tick, [_ceil_to_tick] rounds away from zero: a
    non-negative value goes up and a non-positive value goes down, in both
    cases by less than one tick. *)
Theorem ceil_to_tick_away_from_zero (value tick : Q) :
  0 < tick ->
  (0 <= value ->
     value <= _ceil_to_tick value tick /\ _ceil_to_tick value tick < value + tick) /\
  (value <= 0 ->
     _ceil_to_tick value tick <= value /\ value - tick < _ceil_to_tick value tick).
Proof.
  intro Ht. rewrite (_ceil_to_tick_positive _ _ Ht).
  assert (E := scaled_by_tick value tick Ht).
  split; intro Hv.
  - assert (Hq : 0 <= value / tick) by (apply Qle_shift_div_l; lra).
    destruct (round_up_bounds (value / tick)) as [Hu _]. specialize (Hu Hq).
    set (q := value / tick) in *. set (k := inject_Z (round_up q)) in *.
    split; rewrite E; nra.
  - assert (Hq : value / tick <= 0) by (apply Qle_shift_div_r; lra).
    destruct (round_up_nonpos (value / tick) Hq) as [H1 H2].
    set (q := value / tick) in *. set (k := inject_Z (round_up q)) in *.
    split; rewrite E; nra.
Qed.

Lemma ceil_to_tick_away_from_zero_witness :
  _ceil_to_tick (- (27 # 10)) 1 <= - (27 # 10).
Proof.
  destruct (ceil_to_tick_away_from_zero (- (27 # 10)) 1) as (_ & H);
    [reflexivity|]. apply H. discriminate.
Defined.

(** ** Retry with backoff: every run *)

Lemma retry_loop_step {A} (func : Z -> outcome A) rand p fuel k last :
  retry_loop func rand p (S fuel) k last =
  match func k with
  | Returns v => ([EvCall k], Returns (Some v))
  | Raises exc =>
      if negb (is_rate_limit_error exc) then ([EvCall k], Raises exc)
      else if (max_retries p <=? k)%Z then
        ([EvCall k], Raises (rate_limit_exhausted p exc))
      else
        (EvCall k :: EvSleep (jittered_delay p k (rand k))
           :: fst (retry_loop func rand p fuel (k + 1)%Z (Some exc)),
         snd (retry_loop func rand p fuel (k + 1)%Z (Some exc)))
  end.
Proof.
  cbn [retry_loop]. destruct (func k) as [v|exc]; [reflexivity|].
  destruct (negb (is_rate_limit_error exc)); [reflexivity|].
  destruct (max_retries p <=? k)%Z; [reflexivity|].
  now destruct (retry_loop func rand p fuel (k + 1)%Z (Some exc)).
Qed.

Lemma retry_loop_shape {A} (func : Z -> outcome A) rand p :
  forall f from last,
    (Z.of_nat from + Z.of_nat f = max_retries p)%Z ->
    exists n,
      (n <= f)%nat /\
      (forall i, (from <= i < from + n)%nat -> rate_limited func (Z.of_nat i)) /\
      fst (retry_loop func rand p (S f) (Z.of_nat from) last)
      = retries_before p rand from n ++ [EvCall (Z.of_nat (from + n))] /\
      retry_ending func p (from + n)
                   (snd (retry_loop func rand p (S f) (Z.of_nat from) last)).
Proof.
  induction f as [|f IH]; intros from last Hsum; rewrite !retry_loop_step.
  - destruct (func (Z.of_nat from)) as [v|e] eqn:F.
    + exists 0%nat. rewrite Nat.add_0_r. repeat split; try lia.
      left. exists v. auto.
    + destruct (is_rate_limit_error e) eqn:R; cbn [negb].
      * assert (L : (max_retries p <=? Z.of_nat from)%Z = true)
          by (apply Z.leb_le; lia).
        rewrite L. exists 0%nat. rewrite Nat.add_0_r. repeat split; try lia.
        right. right. exists e. repeat split; auto. lia.
      * exists 0%nat. rewrite Nat.add_0_r. repeat split; try lia.
        right. left. exists e. auto.
  - destruct (func (Z.of_nat from)) as [v|e] eqn:F.
    + exists 0%nat. rewrite Nat.add_0_r. repeat split; try lia.
      left. exists v. auto.
    + destruct (is_rate_limit_error e) eqn:R; cbn [negb].
      * assert (L : (max_retries p <=? Z.of_nat from)%Z = false)
          by (apply Z.leb_gt; lia).
        rewrite L.
        replace (Z.of_nat from + 1)%Z with (Z.of_nat (S from)) by lia.
        destruct (IH (S from) (Some e) ltac:(lia)) as (n & Hn & Hrl & Htr & Hend).
        cbn [fst snd]. exists (S n).
        replace (from + S n)%nat with (S from + n)%nat by lia.
        split; [lia|]. split; [|split].
        -- intros i Hi. destruct (Nat.eq_dec i from) as [->|Hne].
           ++ exists e. auto.
           ++ apply Hrl. lia.
        -- rewrite Htr. reflexivity.
        -- exact Hend.
      * exists 0%nat. rewrite Nat.add_0_r. repeat split; try lia.
        right. left. exists e. auto.
Qed.

(** X5: every run of [retry_with_backoff] has one shape.  With a negative
    [max_retries] the wrapped call is never made and [None] is returned.
    Otherwise there is an attempt [k <= max_retries] before which every
    attempt was rate limited and followed by exactly one sleep, after which
    nothing is called or slept, and on which the run ends: with the value of
    the call, with its exception when that is no rate-limit error, or with
    [RateLimitError] when [k = max_retries]. *)
Theorem retry_with_backoff_shape {A} (func : Z -> outcome A) (rand : Z -> Q)
        (p : RetryParams) :
  ((max_retries p < 0)%Z /\
   retry_with_backoff func rand p = ([], Returns None)) \/
  exists k : nat,
    (Z.of_nat k <= max_retries p)%Z /\
    (forall i, (i < k)%nat -> rate_limited func (Z.of_nat i)) /\
    fst (retry_with_backoff func rand p)
    = retries_before p rand 0 k ++ [EvCall (Z.of_nat k)] /\
    retry_ending func p k (snd (retry_with_backoff func rand p)).
Proof.
  unfold retry_with_backoff.
  destruct (Z.ltb_spec (max_retries p) 0) as [Hneg|Hpos].
  - left. split; [exact Hneg|].
    replace (Z.to_nat (max_retries p + 1)) with 0%nat by lia. reflexivity.
  - right.
    replace (Z.to_nat (max_retries p + 1)) with (S (Z.to_nat (max_retries p)))
      by lia.
    change 0%Z with (Z.of_nat 0).
    destruct (retry_loop_shape func rand p (Z.to_nat (max_retries p)) 0 None
                ltac:(lia)) as (n & Hn & Hrl & Htr & Hend).
    cbn [Nat.add] in *. exists n. split; [lia|]. split; [|split]; auto.
    intros i Hi. apply Hrl. lia.
Qed.

Lemma lower_app (a b : string) : lower (a ++ b) = (lower a ++ lower b)%string.
Proof. induction a as [|c a IH]; simpl; [reflexivity | now rewrite IH]. Qed.

Lemma rate_limit_exhausted_classified (p : RetryParams) (cause : pyexn) :
  is_rate_limit_error (rate_limit_exhausted p cause) = true.
Proof.
  unfold is_rate_limit_error, rate_limit_exhausted. cbn [exn_str].
  rewrite lower_app.
  assert (H : contains "rate limit"
                (lower "Rate limit exceeded after "
                 ++ lower (str_of_int (max_retries p) ++ " retries: " ++ exn_str cause))
              = true).
  { apply contains_substring. exists ""%string.
    exists (" exceeded after "
            ++ lower (str_of_int (max_retries p) ++ " retries: " ++ exn_str cause))%string.
    reflexivity. }
  rewrite H. rewrite !orb_true_r. reflexivity.
Qed.

(** X6: when every attempt up to the last is rate limited, the error that
    [retry_with_backoff] raises is itself classified as a rate-limit error by
    [is_rate_limit_error], so a retry wrapper around the caller would retry
    it in turn. *)
Theorem exhausted_retry_is_rate_limit_error {A} (func : Z -> outcome A)
        (rand : Z -> Q) (p : RetryParams) :
  (0 <= max_retries p)%Z ->
  (forall i, (0 <= i <= max_retries p)%Z -> rate_limited func i) ->
  exists e, snd (retry_with_backoff func rand p) = Raises e /\
            exn_class e = KRateLimitError /\
            is_rate_limit_error e = true.
Proof.
  intros Hpos Hall. unfold retry_with_backoff.
  replace (Z.to_nat (max_retries p + 1)) with (S (Z.to_nat (max_retries p)))
    by lia.
  change 0%Z with (Z.of_nat 0).
  destruct (retry_loop_shape func rand p (Z.to_nat (max_retries p)) 0 None
              ltac:(lia)) as (n & Hn & _ & _ & Hend).
  cbn [Nat.add] in Hend.
  destruct (Hall (Z.of_nat n) ltac:(lia)) as (e0 & F0 & R0).
  destruct Hend as [(v & F & _)|[(e & F & R & _)|(e & F & R & Hk & Hres)]];
    try congruence.
  exists (rate_limit_exhausted p e). split; [exact Hres|].
  split; [reflexivity | apply rate_limit_exhausted_classified].
Qed.

Lemma exhausted_retry_is_rate_limit_error_witness :
  exists e,
    snd (retry_with_backoff (fun _ : Z => @Raises unit (Exn KException "HTTP 429"))
                            (fun _ => 0) default_retry) = Raises e /\
    exn_class e = KRateLimitError /\ is_rate_limit_error e = true.
Proof.
  apply (exhausted_retry_is_rate_limit_error
           (fun _ : Z => @Raises unit (Exn KException "HTTP 429")) (fun _ => 0)
           default_retry).
  - discriminate.
  - intros i _. exists (Exn KException "HTTP 429"). split; reflexivity.
Defined.

Lemma py_min_le_r (a b : Q) : py_min a b <= b.
Proof.
  unfold py_min. destruct (Qltb b a) eqn:E; [lra|]. now apply Qltb_ge in E.
Qed.

Lemma py_min_mono_l (a a' b : Q) : a <= a' -> py_min a b <= py_min a' b.
Proof.
  intro H. unfold py_min.
  destruct (Qltb b a) eqn:E; destruct (Qltb b a') eqn:E'; try lra.
  - apply Qltb_lt in E. apply Qltb_ge in E'. lra.
  - apply Qltb_ge in E. apply Qltb_lt in E'. lra.
Qed.

Lemma py_min_nonneg (a b : Q) : 0 <= a -> 0 <= b -> 0 <= py_min a b.
Proof. intros Ha Hb. unfold py_min. now destruct (Qltb b a). Qed.

(** X7: the delay before jitter never exceeds [max_delay]; without jitter
    the sleep is that delay; with non-negative parameters and a draw in
    [0, 1) the sleep is non-negative and at most 1.25 times [max_delay]; and
    with a factor of at least 1 the delay never shrinks from one attempt to
    the next. *)
Theorem backoff_delays_bounded (p : RetryParams) (i : Z) (r : Q) :
  base_delay p i <= max_delay p /\
  (jitter p = false -> jittered_delay p i r = base_delay p i) /\
  (0 <= initial_delay p -> 0 <= backoff_factor p -> 0 <= max_delay p ->
   0 <= r -> r < 1 ->
     0 <= jittered_delay p i r /\
     jittered_delay p i r <= (125 # 100) * max_delay p) /\
  (0 <= initial_delay p -> 1 <= backoff_factor p ->
     base_delay p i <= base_delay p (i + 1)).
Proof.
  split; [apply py_min_le_r|]. split; [|split].
  - intro J. unfold jittered_delay. now rewrite J.
  - intros Hi Hf Hm Hr0 Hr1.
    assert (Hcap := py_min_le_r (initial_delay p * backoff_factor p ^ i) (max_delay p)).
    assert (Hpow := Qpower_0_le (backoff_factor p) i Hf).
    assert (Hnn : 0 <= base_delay p i).
    { apply py_min_nonneg; [nra | exact Hm]. }
    fold (base_delay p i) in Hcap.
    unfold jittered_delay, uniform. set (d := base_delay p i) in *.
    destruct (jitter p); split; nra.
  - intros Hi Hf. unfold base_delay. apply py_min_mono_l.
    assert (Hle := Qpower_le_compat_l (backoff_factor p) i (i + 1) ltac:(lia) Hf).
    nra.
Qed.

Lemma backoff_delays_bounded_witness :
  0 <= jittered_delay default_retry 7 (1 # 2) /\
  jittered_delay default_retry 7 (1 # 2) <= (125 # 100) * 30 /\
  base_delay default_retry 7 <= base_delay default_retry (7 + 1).
Proof.
  destruct (backoff_delays_bounded default_retry 7 (1 # 2)) as (_ & _ & Hb & Hm).
  destruct Hb as [H0 H1]; try discriminate; [reflexivity|].
  split; [exact H0|]. split; [exact H1|]. apply Hm; discriminate.
Defined.

(** ** Prices and spreads *)

Lemma truthy_value (x : option Q) :
  truthy x = true -> x = Some (value_of x) /\ ~ value_of x == 0.
Proof.
  destruct x as [q|]; [|discriminate]. simpl. intro H.
  split; [reflexivity | now apply float_truthy_neq].
Qed.

Lemma truthy_positive (x : option Q) :
  not_negative x -> truthy x = true -> 0 < value_of x.
Proof.
  intros Hn Ht. destruct (truthy_value x Ht) as [E Hz].
  specialize (Hn _ E). lra.
Qed.

(** X8: [get_avg_mid] does not depend on which venue is which: with the two
    venues swapped it raises in the same cases and returns an equal mid; and
    when no price that is present is negative, the mid it returns is
    strictly positive, so that [compute_base_size_from_quote] accepts it. *)
Theorem get_avg_mid_symmetric_positive (lb la ab aa : option Q) :
  (raises (get_avg_mid lb la ab aa) <-> raises (get_avg_mid ab aa lb la)) /\
  (forall r r', get_avg_mid lb la ab aa = Returns r ->
                get_avg_mid ab aa lb la = Returns r' -> r == r') /\
  (not_negative lb -> not_negative la -> not_negative ab -> not_negative aa ->
   forall r notional, get_avg_mid lb la ab aa = Returns r ->
     0 < r /\
     compute_base_size_from_quote r notional = Returns (notional / r)).
Proof.
  split; [|split].
  - unfold get_avg_mid, raises.
    destruct (truthy lb); destruct (truthy la); destruct (truthy ab);
      destruct (truthy aa); cbn [andb app];
      split; intros [e H]; try discriminate H; eexists; reflexivity.
  - unfold get_avg_mid.
    destruct (truthy lb); destruct (truthy la); destruct (truthy ab);
      destruct (truthy aa); cbn [andb app]; intros r r' [= <-] [= <-];
      unfold py_sum, py_len; cbn; field.
  - intros Nlb Nla Nab Naa r notional H.
    assert (Hr : 0 < r).
    { revert H. unfold get_avg_mid.
      destruct (truthy lb) eqn:Tlb; destruct (truthy la) eqn:Tla;
        destruct (truthy ab) eqn:Tab; destruct (truthy aa) eqn:Taa;
        cbn [andb app]; intros [= <-];
        repeat match goal with
               | T : truthy ?x = true, N : not_negative ?x |- _ =>
                   let P := fresh "P" in
                   assert (P := truthy_positive x N T); clear T
               end;
        unfold py_sum, py_len; cbn [fold_left List.length]; unfold Qdiv;
        try change (/ inject_Z (Z.of_nat 2)) with (1 # 2);
        try change (/ inject_Z (Z.of_nat 1)) with 1;
        try change (/ 2) with (1 # 2); lra. }
    split; [exact Hr|]. unfold compute_base_size_from_quote.
    apply Qleb_gt in Hr. now rewrite Hr.
Qed.

Lemma get_avg_mid_symmetric_positive_witness :
  exists r, get_avg_mid (Some 100) (Some 102) None (Some 0) = Returns r /\ 0 < r.
Proof.
  eexists. split; [reflexivity|].
  destruct (get_avg_mid_symmetric_positive (Some 100) (Some 102) None (Some 0))
    as (_ & _ & Hpos).
  apply (Hpos ltac:(intros q [= <-]; discriminate)
              ltac:(intros q [= <-]; discriminate)
              ltac:(intros q [=])
              ltac:(intros q [= <-]; discriminate) _ 0 eq_refl).
Defined.

(** X9: [fetch_symbol_spread] leaves the spread undefined exactly when a mid
    is missing, and raises (a division by zero) exactly when both mids are
    there and cancel out; for two positive mids the spread is defined, lies
    in [0, 200) per cent, and is zero exactly when the mids are equal. *)
Theorem fetch_symbol_spread_range (ab aa lb la : option Q) :
  (venue_mid ab aa = None \/ venue_mid lb la = None <->
   fetch_symbol_spread ab aa lb la = Returns (None, venue_mid ab aa, venue_mid lb la)) /\
  (raises (fetch_symbol_spread ab aa lb la) <->
   exists am lm, venue_mid ab aa = Some am /\ venue_mid lb la = Some lm /\
                 am + lm == 0) /\
  (forall am lm, venue_mid ab aa = Some am -> venue_mid lb la = Some lm ->
     0 < am -> 0 < lm ->
     exists x, fetch_symbol_spread ab aa lb la = Returns (Some x, Some am, Some lm) /\
               0 <= x /\ x < 200 /\ (x == 0 <-> am == lm)).
Proof.
  split; [|split].
  - split; [apply fetch_symbol_spread_missing_mid|].
    unfold fetch_symbol_spread.
    destruct (venue_mid ab aa) as [am|]; [|auto].
    destruct (venue_mid lb la) as [lm|]; [|auto].
    destruct (py_div _ _); discriminate.
  - unfold fetch_symbol_spread, raises, py_div.
    destruct (venue_mid ab aa) as [am|]; destruct (venue_mid lb la) as [lm|].
    2-4: split; [intros [e H]; discriminate H
                | intros (x & y & H1 & H2 & _); discriminate].
    destruct (float_truthy ((am + lm) / 2)) eqn:T.
    + apply float_truthy_neq in T. split; [intros [e H]; discriminate H|].
      intros (x & y & [= <-] & [= <-] & Hz). exfalso. apply T.
      unfold Qdiv. rewrite Hz. reflexivity.
    + unfold float_truthy in T. apply negb_false_iff, Qeq_bool_iff in T.
      split; [intros _|intros _; eexists; reflexivity].
      exists am, lm. repeat split.
      setoid_replace (am + lm) with ((am + lm) / 2 * 2) by field.
      rewrite T. reflexivity.
  - intros am lm Ha Hl Pa Pl. unfold fetch_symbol_spread, py_div.
    rewrite Ha, Hl.
    assert (Hd : 0 < (am + lm) / 2).
    { unfold Qdiv. change (/ 2) with (1 # 2). lra. }
    assert (T : float_truthy ((am + lm) / 2) = true)
      by (apply float_truthy_neq; lra).
    rewrite T. eexists. split; [reflexivity|].
    set (d := (am + lm) / 2) in *.
    assert (Ed : am + lm == 2 * d) by (unfold d; field).
    assert (Hi : 0 < / d) by now apply Qinv_lt_0_compat.
    assert (Hdi : d * / d == 1) by (apply Qmult_inv_r; lra).
    assert (Hn : 0 <= Qabs (am - lm)) by apply Qabs_nonneg.
    assert (Hlt : Qabs (am - lm) < 2 * d).
    { apply Qabs_case; intros _; lra. }
    unfold Qdiv. set (a := Qabs (am - lm)) in *. set (i := / d) in *.
    split; [nra|]. split; [nra|].
    split; intro H.
    + assert (Ha0 : a == 0) by nra.
      unfold a in Ha0. revert Ha0. apply Qabs_case; intros; lra.
    + assert (Ha0 : a == 0).
      { unfold a. setoid_replace (am - lm) with 0 by lra. reflexivity. }
      rewrite Ha0. ring.
Qed.

Lemma fetch_symbol_spread_range_witness :
  exists x,
    fetch_symbol_spread (Some 100) (Some 102) (Some 101) None
    = Returns (Some x, Some ((100 + 102) / 2), Some 101) /\ 0 <= x /\ x < 200.
Proof.
  destruct (fetch_symbol_spread_range (Some 100) (Some 102) (Some 101) None)
    as (_ & _ & H).
  destruct (H ((100 + 102) / 2) 101) as (x & Hx & H0 & H200 & _);
    try reflexivity.
  exists x. auto.
Defined.

(** ** What the scanner calls available *)

(** X10: a scan result is available exactly when the fetch did not time
    out, both funding rates came back, the spread computation did not fail,
    and the spread, if it is defined at all, does not exceed
    [max_spread_pct]. *)
Theorem fetch_with_timeout_available_iff (quote : string) (max_spread_pct : Q)
        (f : SymbolFeed) :
  r_available (fetch_with_timeout quote max_spread_pct f) = true
  <-> feed_eligible max_spread_pct f.
Proof.
  unfold fetch_with_timeout, fetch_symbol_funding, feed_eligible.
  destruct (f_timed_out f).
  { split; [discriminate | intros [H _]; discriminate]. }
  destruct (fetch_symbol_spread _ _ _ _) as [[[sp am] lm]|e].
  2:{ split; [discriminate|]. intros (_ & _ & _ & sp & am & lm & H & _).
      discriminate. }
  destruct (f_aster_rate f) as [ar|].
  2:{ split; [destruct (f_lighter_rate f); discriminate|].
      intros (_ & H & _). congruence. }
  destruct (f_lighter_rate f) as [lr|].
  2:{ split; [discriminate|]. intros (_ & _ & H & _). congruence. }
  destruct sp as [x|].
  - destruct (Qltb max_spread_pct x) eqn:E.
    + apply Qltb_lt in E. split; [discriminate|].
      intros (_ & _ & _ & sp & am' & lm' & [= <- _ _] & Hle).
      specialize (Hle x eq_refl). lra.
    + apply Qltb_ge in E. destruct (Qleb _ _); (split; [intros _|reflexivity]);
        (split; [reflexivity|]); (split; [discriminate|]);
        (split; [discriminate|]); exists (Some x), am, lm;
        (split; [reflexivity|]); intros y [= <-]; exact E.
  - destruct (Qleb _ _); (split; [intros _|reflexivity]);
      (split; [reflexivity|]); (split; [discriminate|]);
      (split; [discriminate|]); exists None, am, lm;
      (split; [reflexivity|]); intros y; discriminate.
Qed.

(** X11: every available scan result carries the venue symbol, a
    non-negative [net_apr], both APRs, two different venues as long and short
    side, no exclusion reason and no error, and a spread that is either
    undefined or within the limit. *)
Theorem available_result_invariants (quote : string) (max_spread_pct : Q)
        (f : SymbolFeed) :
  r_available (fetch_with_timeout quote max_spread_pct f) = true ->
  let r := fetch_with_timeout quote max_spread_pct f in
  r_symbol r = (f_symbol f ++ quote)%string /\
  (exists net, r_net_apr r = Some net /\ 0 <= net) /\
  (exists a l, r_aster_apr r = Some a /\ r_lighter_apr r = Some l) /\
  ((r_long_exch r = Some "Aster"%string /\ r_short_exch r = Some "Lighter"%string) \/
   (r_long_exch r = Some "Lighter"%string /\ r_short_exch r = Some "Aster"%string)) /\
  r_missing_on r = None /\ r_excluded_reason r = None /\ r_error r = None /\
  (forall sp, r_spread_pct r = Some sp -> sp <= max_spread_pct).
Proof.
  unfold fetch_with_timeout, fetch_symbol_funding.
  destruct (f_timed_out f); [discriminate|].
  destruct (fetch_symbol_spread _ _ _ _) as [[[sp am] lm]|e]; [|discriminate].
  destruct (f_aster_rate f) as [ar|];
    [|destruct (f_lighter_rate f); discriminate].
  destruct (f_lighter_rate f) as [lr|]; [|discriminate].
  destruct (match sp with Some sp0 => Qltb max_spread_pct sp0 | None => false end)
    eqn:S; [discriminate|].
  assert (Hsp : forall x, sp = Some x -> x <= max_spread_pct).
  { intros x ->. now apply Qltb_ge. }
  destruct (Qleb (_calculate_apr ar 6 - _calculate_apr lr 3)
                 (_calculate_apr lr 3 - _calculate_apr ar 6)) eqn:E;
    intros _; cbn.
  - apply Qleb_le in E. split; [reflexivity|].
    split; [eexists; split; [reflexivity | lra]|].
    split; [eexists; eexists; split; reflexivity|].
    split; [left; split; reflexivity|]. repeat split; auto.
  - apply Qleb_gt in E. split; [reflexivity|].
    split; [eexists; split; [reflexivity | lra]|].
    split; [eexists; eexists; split; reflexivity|].
    split; [right; split; reflexivity|]. repeat split; auto.
Qed.

Lemma available_result_invariants_witness :
  exists net, r_net_apr (fetch_with_timeout "USDT" (15 # 100) btc_feed) = Some net /\
              0 <= net.
Proof.
  destruct (available_result_invariants "USDT" (15 # 100) btc_feed eq_refl)
    as (_ & H & _). exact H.
Defined.

(** ** Ranking and selection *)

Lemma insert_desc_perm (x : ScanResult) (l : list ScanResult) :
  Permutation (x :: l) (insert_desc x l).
Proof.
  induction l as [|y l IH]; simpl; [reflexivity|].
  destruct (Qltb (net_apr_of x) (net_apr_of y)); [|reflexivity].
  rewrite perm_swap. now constructor.
Qed.

Lemma insert_desc_sorted (x : ScanResult) (l : list ScanResult) :
  StronglySorted (fun a b => net_apr_of b <= net_apr_of a) l ->
  StronglySorted (fun a b => net_apr_of b <= net_apr_of a) (insert_desc x l).
Proof.
  induction l as [|y l IH]; intro Hs; simpl.
  - constructor; constructor.
  - inversion Hs as [|? ? Hs' Hall]; subst.
    destruct (Qltb (net_apr_of x) (net_apr_of y)) eqn:E.
    + apply Qltb_lt in E. constructor; [now apply IH|].
      rewrite Forall_forall in *. intros z Hz.
      apply (proj1 (In_insert_desc x z l)) in Hz. destruct Hz as [->|Hz].
      * lra.
      * now apply Hall.
    + apply Qltb_ge in E. constructor; [exact Hs|].
      constructor; [exact E|].
      rewrite Forall_forall in *. intros z Hz. specialize (Hall z Hz). lra.
Qed.

(** X12: the sort that ranks the opportunities returns the same results,
    each as often as before, in order of descending [net_apr]. *)
Theorem sort_by_net_apr_desc_sorts (l : list ScanResult) :
  Permutation l (sort_by_net_apr_desc l) /\
  StronglySorted (fun a b => net_apr_of b <= net_apr_of a) (sort_by_net_apr_desc l).
Proof.
  induction l as [|x l [IHp IHs]]; simpl.
  - split; constructor.
  - split.
    + rewrite <- insert_desc_perm. now constructor.
    + now apply insert_desc_sorted.
Qed.

Lemma sort_sorted (l : list ScanResult) :
  StronglySorted (fun a b => net_apr_of b <= net_apr_of a) (sort_by_net_apr_desc l).
Proof.
  induction l as [|x l IH]; simpl; [constructor | now apply insert_desc_sorted].
Qed.

Lemma first_candidate_is_head (threshold : Q) (l : list ScanResult) :
  StronglySorted (fun a b => net_apr_of b <= net_apr_of a) l ->
  match scan_candidates threshold l with
  | [] => forall r, In r l -> net_apr_of r < threshold
  | best :: _ =>
      In best l /\ threshold <= net_apr_of best /\
      forall r, In r l -> net_apr_of r <= net_apr_of best
  end.
Proof.
  unfold scan_candidates. induction l as [|x l IH]; intro Hs; simpl.
  - intros r [].
  - inversion Hs as [|? ? Hs' Hall]; subst. rewrite Forall_forall in Hall.
    destruct (Qleb threshold (net_apr_of x)) eqn:E.
    + apply Qleb_le in E. split; [now left|]. split; [exact E|].
      intros r [<-|Hr]; [lra | now apply Hall].
    + apply Qleb_gt in E. specialize (IH Hs').
      destruct (filter _ l) as [|best rest].
      * intros r [<-|Hr]; [exact E | now apply IH].
      * destruct IH as (Hin & Hth & _). specialize (Hall best Hin). lra.
Qed.

(** X13: the candidate that the loop picks is an available result whose
    [net_apr] reaches the threshold and is the highest of all available
    results; no candidate is picked exactly when every available result is
    below the threshold. *)
Theorem best_candidate_is_maximal (threshold : Q) (results : list ScanResult) :
  match scan_candidates threshold (scan_available results) with
  | [] =>
      forall r, In r results -> r_available r = true -> net_apr_of r < threshold
  | best :: _ =>
      In best results /\ r_available best = true /\
      threshold <= net_apr_of best /\
      forall r, In r results -> r_available r = true ->
                net_apr_of r <= net_apr_of best
  end.
Proof.
  assert (Hin : forall r, In r (scan_available results)
                          <-> In r results /\ r_available r = true).
  { intro r. unfold scan_available. rewrite In_sort_by_net_apr_desc.
    apply filter_In. }
  assert (H := first_candidate_is_head threshold (scan_available results)
                 (sort_sorted _)).
  destruct (scan_candidates threshold (scan_available results)) as [|best rest].
  - intros r Hr Ha. apply H. apply Hin. now split.
  - destruct H as (Hb & Hth & Hmax). apply Hin in Hb. destruct Hb as [Hb Ha].
    repeat split; auto. intros r Hr Hra. apply Hmax. apply Hin. now split.
Qed.

(** ** Opening: the two legs *)

Lemma leg_order_returns (i : OpenInput) (leg : string) (long : bool) (sb : Q)
      (o : Order) :
  leg_order i leg long sb = Returns o ->
  ord_venue o = leg /\ (leg = "lighter"%string \/ leg = "aster"%string) /\
  ord_size o = sb /\ (if long then is_buy o else is_sell o).
Proof.
  unfold leg_order, is_buy, is_sell.
  destruct (String.eqb leg "lighter") eqn:El.
  - apply String.eqb_eq in El. subst leg.
    destruct long;
      repeat match goal with
             | |- context [match ?x with _ => _ end] => destruct x
             end; intros [= <-]; cbn; auto.
  - destruct (String.eqb leg "aster") eqn:Ea; [|discriminate].
    apply String.eqb_eq in Ea. subst leg.
    destruct long; intros [= <-]; cbn; auto.
Qed.

(** What [open_delta_neutral_position] does once the size has passed its
    checks. *)
Lemma open_after_checks (i : OpenInput) :
  fst (open_delta_neutral_position i) = [] \/
  exists avg_mid size_base long_order short_order,
    get_avg_mid (o_lighter_bid i) (o_lighter_ask i) (o_aster_bid i) (o_aster_ask i)
      = Returns avg_mid /\
    open_size_base avg_mid (o_notional_quote i)
                   (o_l_amount_tick i) (o_aster_step_size i) = Returns size_base /\
    0 < size_base /\
    o_l_amount_tick i * 10 <= size_base /\ o_aster_step_size i * 10 <= size_base /\
    String.eqb (lower (o_long_exchange i)) (lower (o_short_exchange i)) = false /\
    leg_order i (lower (o_long_exchange i)) true size_base = Returns long_order /\
    leg_order i (lower (o_short_exchange i)) false size_base = Returns short_order /\
    fst (open_delta_neutral_position i) = [long_order; short_order] /\
    snd (open_delta_neutral_position i)
    = match o_long_fill i, o_short_fill i with
      | Returns _, Returns _ =>
          Returns {| m_lighter_amount_tick := o_l_amount_tick i;
                     m_aster_step_size := o_aster_step_size i;
                     m_aster_bid := o_aster_bid i; m_aster_ask := o_aster_ask i;
                     m_lighter_bid := o_lighter_bid i;
                     m_lighter_ask := o_lighter_ask i;
                     m_size_base := size_base; m_avg_mid := avg_mid |}
      | _, _ => Raises placement_failed
      end.
Proof.
  unfold open_delta_neutral_position.
  destruct (negb (_ || _ || _ || _)); [now left|].
  destruct (negb (_ || _)); [now left|].
  destruct (negb (_ || _)); [now left|].
  destruct (get_avg_mid _ _ _ _) as [avg_mid|e] eqn:G; [|now left].
  destruct (open_size_base _ _ _ _) as [sb|e] eqn:S; [|now left].
  destruct (Qleb sb 0) eqn:E0; [now left|]. apply Qleb_gt in E0.
  destruct (Qltb sb (o_l_amount_tick i * 10)) eqn:E1; [now left|].
  destruct (Qltb sb (o_aster_step_size i * 10)) eqn:E2; [now left|].
  apply Qltb_ge in E1, E2. cbn [app].
  destruct (String.eqb _ _) eqn:Es; [now left|].
  destruct (leg_order i (lower (o_long_exchange i)) true sb) as [lo|e] eqn:L1;
    [|now left].
  destruct (leg_order i (lower (o_short_exchange i)) false sb) as [so|e] eqn:L2;
    [|now left].
  right. exists avg_mid, sb, lo, so. cbn [fst snd].
  repeat split; auto.
Qed.

(** X14: [open_delta_neutral_position] never submits one leg alone: it
    submits either nothing or exactly two orders, a buy and a sell of the same
    positive size on two different venues, one on Lighter and one on
    Aster. *)
Theorem open_submits_both_legs_or_none (i : OpenInput) :
  fst (open_delta_neutral_position i) = [] \/
  exists long_order short_order,
    fst (open_delta_neutral_position i) = [long_order; short_order] /\
    is_buy long_order /\ is_sell short_order /\
    ord_size long_order = ord_size short_order /\ 0 < ord_size long_order /\
    ord_venue long_order <> ord_venue short_order /\
    (ord_venue long_order = "lighter"%string \/ ord_venue long_order = "aster"%string) /\
    (ord_venue short_order = "lighter"%string \/ ord_venue short_order = "aster"%string).
Proof.
  destruct (open_after_checks i)
    as [H|(m & sb & lo & so & _ & _ & Hpos & _ & _ & Hne & L1 & L2 & Hf & _)];
    [now left|].
  right. exists lo, so.
  apply leg_order_returns in L1, L2.
  destruct L1 as (V1 & K1 & S1 & B1). destruct L2 as (V2 & K2 & S2 & B2).
  split; [exact Hf|]. split; [exact B1|]. split; [exact B2|].
  split; [congruence|]. split; [now rewrite S1|].
  split; [|split; congruence].
  rewrite V1, V2. intro E. rewrite E, String.eqb_refl in Hne. discriminate.
Qed.

(** X15: the call returns exactly when two orders were submitted and both
    venues accepted theirs; when a venue rejects its order the call raises
    with both orders already out and no order that would undo the leg that
    went through. *)
Theorem open_returns_iff_both_legs_accepted (i : OpenInput) :
  ((exists md, snd (open_delta_neutral_position i) = Returns md) <->
   (List.length (fst (open_delta_neutral_position i)) = 2%nat /\
    ~ raises (o_long_fill i) /\ ~ raises (o_short_fill i))) /\
  (fst (open_delta_neutral_position i) <> [] ->
   raises (o_long_fill i) \/ raises (o_short_fill i) ->
   snd (open_delta_neutral_position i) = Raises placement_failed /\
   List.length (fst (open_delta_neutral_position i)) = 2%nat).
Proof.
  destruct (open_after_checks i)
    as [H|(m & sb & lo & so & _ & _ & _ & _ & _ & _ & _ & _ & Hf & Hs)].
  - split.
    + rewrite H. cbn. split; [|intros [H2 _]; discriminate].
      intros [md Hmd]. exfalso. revert H Hmd.
      unfold open_delta_neutral_position.
      repeat match goal with
             | |- context [if ?b then _ else _] => destruct b; cbn [fst snd app]
             | |- context [match ?x with _ => _ end] => destruct x; cbn [fst snd app]
             end; intros; discriminate.
    + intros Hne. contradiction.
  - rewrite Hf, Hs. unfold raises. split.
    + split.
      * intros [md Hmd]. split; [reflexivity|].
        destruct (o_long_fill i); destruct (o_short_fill i); try discriminate.
        split; intros [e He]; discriminate.
      * intros (_ & Hl & Hsh).
        destruct (o_long_fill i) as [u1|e1]; [|exfalso; apply Hl; eexists; reflexivity].
        destruct (o_short_fill i) as [u2|e2]; [|exfalso; apply Hsh; eexists; reflexivity].
        eexists. reflexivity.
    + intros _ [[e He]|[e He]]; rewrite He; split; try reflexivity.
      destruct (o_long_fill i); reflexivity.
Qed.

Lemma open_returns_iff_both_legs_accepted_witness :
  snd (open_delta_neutral_position
         {| o_symbol := "BTCUSDT"; o_long_exchange := "Lighter";
            o_short_exchange := "Aster"; o_leverage := 3; o_notional_quote := 1000;
            o_lighter_bid := Some 49999; o_lighter_ask := Some 50001;
            o_aster_bid := Some 49998; o_aster_ask := Some 50002;
            o_l_amount_tick := 1 # 1000; o_aster_step_size := 1 # 1000;
            o_long_fill := Returns tt;
            o_short_fill := Raises (Exn KException "rejected") |})
  = Raises placement_failed.
Proof.
  apply open_returns_iff_both_legs_accepted.
  - discriminate.
  - right. eexists. reflexivity.
Defined.

Lemma open_no_orders_raises (i : OpenInput) :
  fst (open_delta_neutral_position i) = [] ->
  raises (snd (open_delta_neutral_position i)).
Proof.
  unfold open_delta_neutral_position, raises.
  repeat match goal with
         | |- context [if ?b then _ else _] => destruct b; cbn [fst snd app]
         | |- context [match ?x with _ => _ end] => destruct x; cbn [fst snd app]
         end; intros; try discriminate; eexists; reflexivity.
Qed.

Lemma open_size_base_positive_mid (avg_mid notional l_tick a_step sb : Q) :
  open_size_base avg_mid notional l_tick a_step = Returns sb -> 0 < avg_mid.
Proof.
  unfold open_size_base, compute_base_size_from_quote.
  destruct (Qleb avg_mid 0) eqn:E; [discriminate|]. intros _. now apply Qleb_gt.
Qed.

(** X16: when the open returns, with positive amount ticks, the size in the
    metadata is a whole number of coarser ticks, at least ten of them; the
    average mid is positive; the value of the position, size times mid, does
    not exceed the notional and misses it by less than one tick's worth; and
    every order that was submitted carries exactly that size. *)
Theorem open_success_size (i : OpenInput) (md : OpenMetadata) :
  0 < o_l_amount_tick i ->
  0 < o_aster_step_size i ->
  snd (open_delta_neutral_position i) = Returns md ->
  let tick := py_max (o_l_amount_tick i) (o_aster_step_size i) in
  0 < m_avg_mid md /\
  (exists k : Z, (10 <= k)%Z /\ m_size_base md == inject_Z k * tick) /\
  m_size_base md * m_avg_mid md <= o_notional_quote i /\
  o_notional_quote i < (m_size_base md + tick) * m_avg_mid md /\
  Forall (fun o => ord_size o = m_size_base md) (fst (open_delta_neutral_position i)).
Proof.
  intros Hl Ha Hret tick.
  destruct (open_after_checks i)
    as [H|(m & sb & lo & so & _ & S & Hpos & H10l & H10a & _ & L1 & L2 & Hf & Hs)].
  { apply open_no_orders_raises in H. destruct H as [e He]. congruence. }
  rewrite Hs in Hret.
  destruct (o_long_fill i); [|discriminate].
  destruct (o_short_fill i); [|discriminate].
  injection Hret as <-. cbn [m_avg_mid m_size_base].
  assert (Hm := open_size_base_positive_mid _ _ _ _ _ S).
  destruct (open_size_base_floor m (o_notional_quote i) _ _ Hl Ha Hm)
    as (sb' & S' & Hfloor).
  rewrite S in S'. injection S' as <-. fold tick in Hfloor.
  assert (Ht : 0 < tick).
  { unfold tick. destruct (py_max_cases (o_l_amount_tick i) (o_aster_step_size i))
      as [[-> _]|[-> _]]; assumption. }
  assert (H10 : 10 * tick <= sb).
  { unfold tick. destruct (py_max_cases (o_l_amount_tick i) (o_aster_step_size i))
      as [[-> _]|[-> _]]; lra. }
  rewrite (_floor_to_tick_positive _ _ Ht) in Hfloor.
  set (q := o_notional_quote i / m / tick) in *.
  destruct (round_down_bounds q) as [Bpos _].
  destruct (round_down_sign q) as [_ Sneg].
  assert (Hq : 0 <= q).
  { destruct (Qlt_le_dec q 0) as [Hn|Hn]; [|exact Hn].
    assert (Hk := Sneg ltac:(lra)). nra. }
  destruct (Bpos Hq) as [B1 B2].
  assert (En : o_notional_quote i == q * tick * m) by (unfold q; field; lra).
  split; [exact Hm|]. split; [|split; [|split]].
  - exists (round_down q). split; [|exact Hfloor].
    assert (Hz : (9 < round_down q)%Z); [|lia].
    rewrite Zlt_Qlt. change (inject_Z 9) with 9.
    set (k := inject_Z (round_down q)) in *. nra.
  - rewrite Hfloor, En. set (k := inject_Z (round_down q)) in *.
    apply Qmult_le_compat_r; [nra | lra].
  - rewrite Hfloor, En. set (k := inject_Z (round_down q)) in *.
    apply Qmult_lt_compat_r; [lra | nra].
  - rewrite Hf. apply leg_order_returns in L1, L2.
    constructor; [apply L1|]. constructor; [apply L2 | constructor].
Qed.

Lemma open_success_size_witness :
  exists md, snd (open_delta_neutral_position btc_open_1000) = Returns md /\
             m_size_base md * m_avg_mid md <= 1000.
Proof.
  destruct (snd (open_delta_neutral_position btc_open_1000)) as [md|e] eqn:E;
    [|vm_compute in E; discriminate].
  exists md. split; [reflexivity|].
  apply (open_success_size btc_open_1000 md); [reflexivity | reflexivity | exact E].
Defined.

(** ** Closing *)

Lemma signed_size_cancels (size : Q) (o : Order) :
  ord_size o = Qabs size ->
  (Qltb 0 size = true -> ord_side o = "sell"%string \/ ord_side o = "SELL"%string) ->
  (Qltb 0 size = false -> ord_side o = "buy"%string \/ ord_side o = "BUY"%string) ->
  size + signed_size o == 0.
Proof.
  intros Hs Hpos Hneg. unfold signed_size. rewrite Hs.
  destruct (Qltb 0 size) eqn:E.
  - apply Qltb_lt in E. destruct (Hpos eq_refl) as [-> | ->]; cbn;
      rewrite Qabs_pos by lra; ring.
  - apply Qltb_ge in E. destruct (Hneg eq_refl) as [-> | ->]; cbn;
      rewrite Qabs_neg by lra; ring.
Qed.

Lemma aster_close_side (size : Q) :
  (Qltb 0 size = true -> (if Qltb size 0 then "BUY" else "SELL")%string = "SELL"%string) /\
  (Qltb 0 size = false -> (1 # 10000) < Qabs size ->
     (if Qltb size 0 then "BUY" else "SELL")%string = "BUY"%string).
Proof.
  split.
  - intro H. apply Qltb_lt in H. destruct (Qltb size 0) eqn:E; [|reflexivity].
    apply Qltb_lt in E. lra.
  - intros H Habs. apply Qltb_ge in H. destruct (Qltb size 0) eqn:E; [reflexivity|].
    apply Qltb_ge in E. assert (E0 : size == 0) by lra.
    rewrite E0 in Habs. discriminate Habs.
Qed.

Lemma close_reads_cases (i : CloseInput) :
  close_reads_fail i \/
  exists tick bid ask positions lighter_size,
    close_reads i tick bid ask positions lighter_size.
Proof.
  unfold close_reads_fail, close_reads, raises.
  destruct (str_truthy (k_check_client i)); [left; now left|].
  destruct (k_market_details i) as [tick|e];
    [|left; right; left; now exists e].
  destruct (k_best_bid_ask i) as [[bid ask]|e];
    [|left; do 2 right; left; now exists e].
  destruct (k_aster_account i) as [positions|e];
    [|left; do 3 right; left; now exists e].
  destruct (k_lighter_open_size i) as [size|e];
    [|left; do 4 right; now exists e].
  right. now exists tick, bid, ask, positions, size.
Qed.

Lemma close_reads_exclusive (i : CloseInput) tick bid ask positions lighter_size :
  close_reads i tick bid ask positions lighter_size -> ~ close_reads_fail i.
Proof.
  unfold close_reads, close_reads_fail, raises.
  intros (C & M & B & A & S) [H|[[e H]|[[e H]|[[e H]|[e H]]]]]; congruence.
Qed.

Lemma close_without_reads (i : CloseInput) :
  close_reads_fail i ->
  exists e, close_delta_neutral_position i = ([], Raises e).
Proof.
  unfold close_reads_fail, raises, close_delta_neutral_position. cbv zeta.
  destruct (str_truthy (k_check_client i)); [intros _; eexists; reflexivity|].
  destruct (k_market_details i) as [tick|e1]; [|intros _; eexists; reflexivity].
  destruct (k_best_bid_ask i) as [[bid ask]|e2]; [|intros _; eexists; reflexivity].
  destruct (k_aster_account i) as [positions|e3]; [|intros _; eexists; reflexivity].
  destruct (k_lighter_open_size i) as [size|e4]; [|intros _; eexists; reflexivity].
  intros [H|[[e H]|[[e H]|[[e H]|[e H]]]]]; discriminate.
Qed.

Lemma close_split (i : CloseInput) tick bid ask positions lighter_size :
  close_reads i tick bid ask positions lighter_size ->
  let lighter := lighter_close_orders bid ask tick lighter_size in
  let aster := aster_close_orders (aster_position_amt positions (k_symbol i)) in
  close_delta_neutral_position i
  = (lighter ++ aster,
     if rejected lighter (k_lighter_fill i) || rejected aster (k_aster_fill i)
     then Raises (Exn KRuntimeError "Failed to close positions on one or more venues.")
     else close_report i tick).
Proof.
  intros (C & M & B & A & S). cbv zeta.
  unfold close_delta_neutral_position, lighter_close_orders, aster_close_orders,
    closing_quote, close_report, rejected.
  rewrite C, M, B, A, S. cbv zeta.
  destruct (Qltb tick (Qabs lighter_size));
    destruct (Qltb 0 lighter_size);
    cbn [andb String.eqb Ascii.eqb Bool.eqb];
    try destruct (truthy bid);
    try destruct (truthy ask);
    destruct (Qltb (1 # 10000) (Qabs _));
    destruct (k_lighter_fill i); destruct (k_aster_fill i);
    cbn [app map fst snd filter orb];
    try reflexivity;
    destruct (k_aster_account_after i); try reflexivity;
    destruct (k_lighter_open_size_after i); reflexivity.
Qed.

Lemma lighter_close_orders_spec (bid ask : option Q) (tick size : Q) (o : Order) :
  In o (lighter_close_orders bid ask tick size) ->
  ord_venue o = "lighter"%string /\ size + signed_size o == 0 /\
  tick < Qabs size /\ truthy (closing_quote bid ask size) = true.
Proof.
  unfold lighter_close_orders.
  destruct (Qltb tick (Qabs size)) eqn:E; [|intros []].
  destruct (truthy (closing_quote bid ask size)) eqn:T; [|intros []].
  intros [<-|[]]. apply Qltb_lt in E. repeat split; auto.
  apply signed_size_cancels; cbn [ord_size ord_side]; [reflexivity| |];
    intros ->; auto.
Qed.

Lemma aster_close_orders_spec (size : Q) (o : Order) :
  In o (aster_close_orders size) ->
  ord_venue o = "aster"%string /\ size + signed_size o == 0 /\
  (1 # 10000) < Qabs size.
Proof.
  unfold aster_close_orders.
  destruct (Qltb (1 # 10000) (Qabs size)) eqn:E; [|intros []].
  intros [<-|[]]. apply Qltb_lt in E. repeat split; auto.
  apply signed_size_cancels; cbn [ord_size ord_side]; [reflexivity| |]; intro H.
  - right. now apply aster_close_side.
  - right. now apply aster_close_side.
Qed.

Lemma lighter_close_orders_due (bid ask : option Q) (tick size : Q) :
  tick < Qabs size -> truthy (closing_quote bid ask size) = true ->
  exists o, lighter_close_orders bid ask tick size = [o] /\
            ord_venue o = "lighter"%string /\ ord_size o = Qabs size.
Proof.
  intros H T. unfold lighter_close_orders. apply Qltb_lt in H. rewrite H, T.
  eexists. repeat split.
Qed.

Lemma aster_close_orders_due (size : Q) :
  (1 # 10000) < Qabs size ->
  exists o, aster_close_orders size = [o] /\
            ord_venue o = "aster"%string /\ ord_size o = Qabs size.
Proof.
  intros H. unfold aster_close_orders. apply Qltb_lt in H. rewrite H.
  eexists. repeat split.
Qed.

(** X17: every order that [close_delta_neutral_position] submits closes the
    live position of its venue, as the call has read it, in full: added to
    the signed live size it gives zero.  A Lighter order is submitted exactly
    when the live size exceeds the amount tick and the quote on the closing
    side is there; an Aster order exactly when the live size exceeds 0.0001.
    When [check_client] reports an error or a read that comes before the
    orders raises, no order is submitted at all. *)
Theorem close_orders_flatten (i : CloseInput) :
  let orders := fst (close_delta_neutral_position i) in
  (close_reads_fail i -> orders = []) /\
  (forall tick bid ask positions lighter_size,
     close_reads i tick bid ask positions lighter_size ->
     let aster_size := aster_position_amt positions (k_symbol i) in
     (forall o, In o orders ->
        (ord_venue o = "lighter"%string /\ lighter_size + signed_size o == 0) \/
        (ord_venue o = "aster"%string /\ aster_size + signed_size o == 0)) /\
     (submitted_to "lighter" orders <->
      tick < Qabs lighter_size /\
      truthy (closing_quote bid ask lighter_size) = true) /\
     (submitted_to "aster" orders <-> (1 # 10000) < Qabs aster_size)).
Proof.
  cbv zeta. split.
  { intro H. destruct (close_without_reads i H) as [e E]. now rewrite E. }
  intros tick bid ask positions lighter_size R.
  rewrite (close_split i _ _ _ _ _ R). cbn [fst]. unfold submitted_to.
  split; [|split].
  - intros o Hin. apply in_app_or in Hin. destruct Hin as [Hin|Hin].
    + left. apply lighter_close_orders_spec in Hin. tauto.
    + right. apply aster_close_orders_spec in Hin. tauto.
  - split.
    + intros (o & Hin & Hv). apply in_app_or in Hin. destruct Hin as [Hin|Hin].
      * apply lighter_close_orders_spec in Hin. tauto.
      * apply aster_close_orders_spec in Hin. destruct Hin as [Hv' _].
        rewrite Hv in Hv'. discriminate.
    + intros [H T].
      destruct (lighter_close_orders_due _ _ _ _ H T) as (o & E & Hv & _).
      exists o. split; [|exact Hv]. apply in_or_app. left. rewrite E. now left.
  - split.
    + intros (o & Hin & Hv). apply in_app_or in Hin. destruct Hin as [Hin|Hin].
      * apply lighter_close_orders_spec in Hin. destruct Hin as [Hv' _].
        rewrite Hv in Hv'. discriminate.
      * apply aster_close_orders_spec in Hin. tauto.
    + intros H. destruct (aster_close_orders_due _ H) as (o & E & Hv & _).
      exists o. split; [|exact Hv]. apply in_or_app. right. rewrite E. now left.
Qed.

Lemma close_orders_flatten_witness :
  submitted_to "lighter" (fst (close_delta_neutral_position btc_close)) /\
  submitted_to "aster" (fst (close_delta_neutral_position btc_close)).
Proof.
  destruct (close_orders_flatten btc_close) as [_ H].
  destruct (H (1 # 1000) (Some 49999) (Some 50001)
              [("ETHUSDT"%string, 1); ("BTCUSDT"%string, - (2 # 100))] (2 # 100))
    as (_ & HL & HA).
  - repeat split.
  - split; [apply HL | apply HA]; vm_compute; repeat split; discriminate.
Defined.

Lemma rejected_iff (venue : string) (mine others : list Order) (fill : outcome unit)
      (front : bool) :
  (forall o, In o mine -> ord_venue o = venue) ->
  (forall o, In o others -> ord_venue o <> venue) ->
  rejected mine fill = true
  <-> submitted_to venue (if front then mine ++ others else others ++ mine)
      /\ raises fill.
Proof.
  intros Hm Ho. unfold rejected, submitted_to, raises. split.
  - destruct mine as [|o mine']; [discriminate|].
    destruct fill as [u|e]; [discriminate|]. intros _. split; [|now exists e].
    exists o. split; [|apply Hm; now left].
    destruct front; apply in_or_app; [left | right]; now left.
  - intros [(o & Hin & Hv) [e ->]].
    destruct mine as [|o' mine']; [|reflexivity].
    exfalso. apply (Ho o); [|exact Hv].
    destruct front; [|rewrite app_nil_r in Hin]; exact Hin.
Qed.

(** X18: [close_delta_neutral_position] raises exactly when [check_client]
    reports an error, a venue read raises, before or after the orders, or a
    venue rejects a close order that was submitted to it.  In every other
    case it returns, also when no order was submitted or a position is
    still open afterwards: what is left open only shows in the two flags of
    its report, Aster closed below 0.0001 and Lighter closed below one amount
    tick.  A failure before the orders leaves nothing submitted; a rejected
    order or a failing read after the orders does not take back what was
    submitted. *)
Theorem close_raises_iff_read_or_order_fails (i : CloseInput) :
  let orders := fst (close_delta_neutral_position i) in
  let result := snd (close_delta_neutral_position i) in
  (raises result <->
   close_reads_fail i \/
   (submitted_to "lighter" orders /\ raises (k_lighter_fill i)) \/
   (submitted_to "aster" orders /\ raises (k_aster_fill i)) \/
   raises (k_aster_account_after i) \/
   raises (k_lighter_open_size_after i)) /\
  (close_reads_fail i -> orders = []) /\
  (~ raises result ->
   exists tick positions_after size_after,
     k_market_details i = Returns tick /\
     k_aster_account_after i = Returns positions_after /\
     k_lighter_open_size_after i = Returns size_after /\
     result
     = Returns
         (Qltb (Qabs (aster_position_amt positions_after (k_symbol i))) (1 # 10000),
          Qltb (Qabs size_after) tick)).
Proof.
  cbv zeta.
  destruct (close_reads_cases i) as [F|(tick & bid & ask & positions & size & R)].
  - destruct (close_without_reads i F) as [e E]. rewrite E. cbn [fst snd].
    split; [|split].
    + split; [intros _; now left | intros _; now exists e].
    + reflexivity.
    + intros H. exfalso. apply H. now exists e.
  - assert (NF := close_reads_exclusive _ _ _ _ _ _ R).
    rewrite (close_split i _ _ _ _ _ R). cbn [fst snd].
    set (L := lighter_close_orders _ _ _ _).
    set (A := aster_close_orders _).
    assert (HL : forall o, In o L -> ord_venue o = "lighter"%string).
    { intros o H. now apply lighter_close_orders_spec in H. }
    assert (HA : forall o, In o A -> ord_venue o = "aster"%string).
    { intros o H. now apply aster_close_orders_spec in H. }
    assert (RL := rejected_iff "lighter" L A (k_lighter_fill i) true HL).
    assert (RA := rejected_iff "aster" A L (k_aster_fill i) false HA).
    cbv iota in RL, RA.
    assert (RL' : rejected L (k_lighter_fill i) = true
                  <-> submitted_to "lighter" (L ++ A) /\ raises (k_lighter_fill i)).
    { apply RL. intros o H E. apply HA in H. congruence. }
    assert (RA' : rejected A (k_aster_fill i) = true
                  <-> submitted_to "aster" (L ++ A) /\ raises (k_aster_fill i)).
    { apply RA. intros o H E. apply HL in H. congruence. }
    clear RL RA.
    assert (Hrep : raises (close_report i tick)
                   <-> raises (k_aster_account_after i)
                       \/ raises (k_lighter_open_size_after i)).
    { unfold close_report, raises.
      destruct (k_aster_account_after i) as [pa|ea];
        destruct (k_lighter_open_size_after i) as [sa|es]; split;
        try (intros [e H]; discriminate H);
        try (intros [[e H]|[e H]]; discriminate H);
        try (intros _; eexists; reflexivity).
      - intros _. right. now exists es.
      - intros _. left. now exists ea.
      - intros _. left. now exists ea. }
    destruct (rejected L (k_lighter_fill i)) eqn:EL;
      destruct (rejected A (k_aster_fill i)) eqn:EA; cbn [orb].
    1-3: split; [|split];
      [ split; [intros _|intros _; eexists; reflexivity]
      | intro; contradiction
      | intros H; exfalso; apply H; eexists; reflexivity ].
    + right. left. now apply RL'.
    + right. left. now apply RL'.
    + right. right. left. now apply RA'.
    + split; [|split].
      * rewrite Hrep. split; [tauto|].
        intros [H|[H|[H|H]]]; [contradiction| | |tauto].
        -- apply RL' in H. congruence.
        -- apply RA' in H. congruence.
      * intro; contradiction.
      * intros H. destruct R as (_ & M & _). exists tick.
        unfold close_report in *.
        destruct (k_aster_account_after i) as [pa|ea];
          [|exfalso; apply H; now exists ea].
        destruct (k_lighter_open_size_after i) as [sa|es];
          [|exfalso; apply H; now exists es].
        exists pa, sa. repeat split. exact M.
Qed.

Lemma close_raises_iff_read_or_order_fails_witness :
  snd (close_delta_neutral_position btc_close) = Returns (true, true).
Proof.
  destruct (close_raises_iff_read_or_order_fails btc_close) as (_ & _ & H).
  destruct H as (tick & pa & sa & M & A & S & E).
  - intros [e He]. vm_compute in He. discriminate.
  - rewrite E. injection M as <-. injection A as <-. injection S as <-.
    reflexivity.
Defined.

(** ** Emergency exit *)

Lemma In_match_delta_neutral_positions
        (aster_positions lighter_positions : list EPosition) (pair : MatchedPair) :
  In pair (match_delta_neutral_positions aster_positions lighter_positions) ->
  In (mp_aster pair) aster_positions /\
  In (mp_lighter pair) lighter_positions /\
  mp_symbol pair = ep_symbol (mp_aster pair) /\
  ep_symbol (mp_aster pair) = (ep_symbol (mp_lighter pair) ++ "USDT")%string /\
  opposite_signed (ep_size (mp_aster pair)) (ep_size (mp_lighter pair)) = true.
Proof.
  unfold match_delta_neutral_positions, opposite_signed.
  rewrite in_flat_map.
  intros (a & Ha & Hin). rewrite in_flat_map in Hin.
  destruct Hin as (l & Hl & Hin).
  destruct (String.eqb (ep_symbol a) (ep_symbol l ++ "USDT")) eqn:Es;
    [|destruct Hin].
  destruct (_ || _) eqn:Eo; [|destruct Hin].
  destruct Hin as [<-|[]]. cbn. apply String.eqb_eq in Es. auto.
Qed.

(** X19: the emergency tool pairs an Aster position with a Lighter position
    exactly when the Aster symbol is the Lighter symbol followed by "USDT" and
    the two sizes have opposite signs; every such combination is paired and
    nothing else is. *)
Theorem match_delta_neutral_positions_spec
        (aster_positions lighter_positions : list EPosition) (pair : MatchedPair) :
  In pair (match_delta_neutral_positions aster_positions lighter_positions) <->
  In (mp_aster pair) aster_positions /\
  In (mp_lighter pair) lighter_positions /\
  mp_symbol pair = ep_symbol (mp_aster pair) /\
  ep_symbol (mp_aster pair) = (ep_symbol (mp_lighter pair) ++ "USDT")%string /\
  opposite_signed (ep_size (mp_aster pair)) (ep_size (mp_lighter pair)) = true.
Proof.
  split; [apply In_match_delta_neutral_positions|].
  unfold match_delta_neutral_positions, opposite_signed.
  rewrite in_flat_map.
  intros (Ha & Hl & Hs & Hsym & Ho).
  exists (mp_aster pair). split; [exact Ha|]. rewrite in_flat_map.
  exists (mp_lighter pair). split; [exact Hl|].
  rewrite Hsym, String.eqb_refl, Ho. left.
  destruct pair as [sym a l]. cbn in *. congruence.
Qed.

Lemma aster_open_positions_spec (raw : list AsterRaw) (pos : EPosition) :
  In pos (aster_open_positions raw) ->
  (1 # 10000) < Qabs (ep_size pos) /\
  (ep_side pos = "LONG"%string <-> 0 < ep_size pos) /\
  exists r, In r raw /\ ar_symbol r = ep_symbol pos /\ ar_positionAmt r = ep_size pos.
Proof.
  unfold aster_open_positions. rewrite in_flat_map. intros (r & Hr & Hin).
  destruct (Qltb (1 # 10000) (Qabs (ar_positionAmt r))) eqn:E; [|destruct Hin].
  destruct Hin as [<-|[]]. cbn. apply Qltb_lt in E. split; [exact E|]. split.
  - destruct (Qltb 0 (ar_positionAmt r)) eqn:S.
    + apply Qltb_lt in S. tauto.
    + apply Qltb_ge in S. split; [discriminate | intro; lra].
  - exists r. auto.
Qed.

Lemma close_pair_orders_split (pair : MatchedPair) (v : PairVenue)
      (tick : Q) (bid ask : option Q) :
  pv_market_details v = Returns tick ->
  pv_best_bid_ask v = Returns (bid, ask) ->
  close_pair_orders pair v
  = (lighter_close_orders bid ask tick (ep_size (mp_lighter pair))
     ++ aster_close_orders (ep_size (mp_aster pair)), None).
Proof.
  intros M B.
  unfold close_pair_orders, lighter_close_orders, aster_close_orders, closing_quote.
  rewrite M, B. cbv zeta. f_equal. f_equal.
  destruct (Qltb tick (Qabs (ep_size (mp_lighter pair)))); [|reflexivity].
  destruct (Qltb 0 (ep_size (mp_lighter pair)));
    cbn [andb String.eqb Ascii.eqb Bool.eqb]; reflexivity.
Qed.

Lemma close_pair_orders_fail (pair : MatchedPair) (v : PairVenue) :
  lookups_fail v -> exists e, close_pair_orders pair v = ([], Some e).
Proof.
  unfold lookups_fail, raises, close_pair_orders.
  destruct (pv_market_details v) as [tick|e1]; [|intros _; now exists e1].
  destruct (pv_best_bid_ask v) as [[bid ask]|e2]; [|intros _; now exists e2].
  intros [[e H]|[e H]]; discriminate.
Qed.

Lemma lookups_cases (v : PairVenue) :
  lookups_fail v \/
  exists tick bid ask,
    pv_market_details v = Returns tick /\ pv_best_bid_ask v = Returns (bid, ask).
Proof.
  unfold lookups_fail, raises.
  destruct (pv_market_details v) as [tick|e1]; [|left; left; now exists e1].
  destruct (pv_best_bid_ask v) as [[bid ask]|e2]; [|left; right; now exists e2].
  right. now exists tick, bid, ask.
Qed.

Lemma close_loop_stops (before after : list (MatchedPair * PairVenue))
      (pair : MatchedPair) (v : PairVenue) :
  lookups_fail v ->
  fst (close_loop (before ++ (pair, v) :: after)) = fst (close_loop before) /\
  snd (close_loop (before ++ (pair, v) :: after)) <> None.
Proof.
  intro F. destruct (close_pair_orders_fail pair v F) as [e E].
  induction before as [|[p u] before IH]; cbn [app close_loop].
  - rewrite E. cbn. split; [reflexivity | discriminate].
  - destruct (close_pair_orders p u) as [orders [e'|]].
    + cbn. split; [reflexivity | discriminate].
    + destruct IH as [IH1 IH2].
      destruct (close_loop (before ++ (pair, v) :: after)) as [l1 err1].
      destruct (close_loop before) as [l2 err2].
      cbn [fst snd] in *. subst l1. split; [reflexivity | exact IH2].
Qed.

Lemma close_loop_all (pairs : list (MatchedPair * PairVenue)) :
  Forall (fun pv => ~ lookups_fail (snd pv)) pairs ->
  snd (close_loop pairs) = None /\
  forall pair v o, In (pair, v) pairs -> In o (fst (close_pair_orders pair v)) ->
                   In o (fst (close_loop pairs)).
Proof.
  induction 1 as [|[p u] pairs Hu _ IH]; cbn [close_loop].
  - split; [reflexivity | intros ? ? ? []].
  - cbn [snd] in Hu.
    destruct (lookups_cases u) as [F|(tick & bid & ask & M & B)]; [contradiction|].
    rewrite (close_pair_orders_split p u _ _ _ M B).
    destruct IH as [IH1 IH2].
    destruct (close_loop pairs) as [later err]. cbn [fst snd] in *.
    split; [exact IH1|].
    intros pair v o [[= <- <-]|Hin] Ho; apply in_or_app.
    + left. now rewrite (close_pair_orders_split p u _ _ _ M B) in Ho.
    + right. exact (IH2 pair v o Hin Ho).
Qed.

(** X20: for the same quote, amount tick and sizes, the emergency tool
    submits for a pair exactly the orders that the bot's own
    [close_delta_neutral_position] submits; when the lookup of the tick or
    of the quote raises, neither submits anything. *)
Theorem emergency_close_same_orders (pair : MatchedPair) (v : PairVenue)
        (i : CloseInput) (positions : list (string * Q)) :
  str_truthy (k_check_client i) = false ->
  k_market_details i = pv_market_details v ->
  k_best_bid_ask i = pv_best_bid_ask v ->
  k_lighter_open_size i = Returns (ep_size (mp_lighter pair)) ->
  k_aster_account i = Returns positions ->
  aster_position_amt positions (k_symbol i) = ep_size (mp_aster pair) ->
  fst (close_pair_orders pair v) = fst (close_delta_neutral_position i).
Proof.
  intros C M B S A Has.
  destruct (lookups_cases v) as [F|(tick & bid & ask & Mv & Bv)].
  - destruct (close_pair_orders_fail pair v F) as [e E]. rewrite E.
    assert (Fi : close_reads_fail i).
    { unfold close_reads_fail. rewrite M, B. right.
      destruct F as [F|F]; [left | right; left]; exact F. }
    destruct (close_without_reads i Fi) as [e' E']. now rewrite E'.
  - rewrite (close_pair_orders_split pair v _ _ _ Mv Bv).
    assert (R : close_reads i tick bid ask positions (ep_size (mp_lighter pair))).
    { unfold close_reads. rewrite M, B. auto. }
    rewrite (close_split i _ _ _ _ _ R). cbn [fst]. now rewrite Has.
Qed.

(** X21: for a pair that the emergency tool finds among the open Aster
    positions, an Aster close order for the full size is submitted exactly
    when both Lighter lookups of the pair return; the orders of the pair
    close each leg in full, and when both legs get an order, one order buys
    and the other sells.  A failing lookup submits no order for the pair and
    ends the run: whatever comes after the pair gets no order, and the tool
    raises.  When [check_client] reports no error and no lookup fails, the
    run submits the Aster order of every such pair. *)
Theorem emergency_pair_is_closed (raw : list AsterRaw)
        (lighter_positions : list EPosition) (pair : MatchedPair) (v : PairVenue) :
  In pair (match_delta_neutral_positions (aster_open_positions raw) lighter_positions) ->
  let orders := fst (close_pair_orders pair v) in
  let aster_order o :=
    ord_venue o = "aster"%string /\ ord_size o = Qabs (ep_size (mp_aster pair)) in
  ((exists o, In o orders /\ aster_order o) <-> ~ lookups_fail v) /\
  (lookups_fail v ->
     orders = [] /\
     forall check before after,
       fst (close_positions check (before ++ (pair, v) :: after))
       = fst (close_positions check before) /\
       raises (snd (close_positions check (before ++ (pair, v) :: after)))) /\
  (forall check pairs,
     str_truthy check = false ->
     Forall (fun pv => ~ lookups_fail (snd pv)) pairs ->
     In (pair, v) pairs ->
     exists o, In o (fst (close_positions check pairs)) /\ aster_order o) /\
  (forall o, In o orders ->
     (ord_venue o = "lighter"%string /\
      ep_size (mp_lighter pair) + signed_size o == 0) \/
     (ord_venue o = "aster"%string /\
      ep_size (mp_aster pair) + signed_size o == 0)) /\
  (forall o1 o2, In o1 orders -> In o2 orders ->
     ord_venue o1 = "lighter"%string -> ord_venue o2 = "aster"%string ->
     signed_size o1 + signed_size o2
     == - (ep_size (mp_lighter pair) + ep_size (mp_aster pair)) /\
     (0 < signed_size o1 <-> signed_size o2 < 0)).
Proof.
  intros Hin. cbv zeta.
  apply In_match_delta_neutral_positions in Hin.
  destruct Hin as (Ha & Hl & _ & _ & Hopp).
  apply aster_open_positions_spec in Ha. destruct Ha as (Habs & _ & _).
  assert (Hsub : ~ lookups_fail v ->
                 exists o, In o (fst (close_pair_orders pair v)) /\
                           ord_venue o = "aster"%string /\
                           ord_size o = Qabs (ep_size (mp_aster pair))).
  { intro NF.
    destruct (lookups_cases v) as [F|(tick & bid & ask & M & B)]; [contradiction|].
    rewrite (close_pair_orders_split pair v _ _ _ M B). cbn [fst].
    destruct (aster_close_orders_due _ Habs) as (o & E & Hv & Hs).
    exists o. split; [|auto]. apply in_or_app. right. rewrite E. now left. }
  assert (Hfail : lookups_fail v -> fst (close_pair_orders pair v) = []).
  { intro F. destruct (close_pair_orders_fail pair v F) as [e E]. now rewrite E. }
  split; [|split; [|split]].
  - split; [|exact Hsub].
    intros (o & Ho & _) F. rewrite (Hfail F) in Ho. destruct Ho.
  - intro F. split; [exact (Hfail F)|].
    intros check before after. unfold close_positions.
    destruct (str_truthy check); [split; [reflexivity | eexists; reflexivity]|].
    destruct (close_loop_stops before after pair v F) as [E1 E2].
    destruct (close_loop (before ++ (pair, v) :: after)) as [l1 [e1|]];
      [|now cbn in E2].
    cbn [fst snd] in *. split; [|now exists e1].
    rewrite E1. now destruct (close_loop before) as [l2 [e2|]].
  - intros check pairs C Hall Hp. unfold close_positions. rewrite C.
    destruct (close_loop_all pairs Hall) as [E1 E2].
    assert (NF : ~ lookups_fail v).
    { rewrite Forall_forall in Hall. exact (Hall _ Hp). }
    destruct (Hsub NF) as (o & Ho & Hv).
    exists o. split; [|exact Hv].
    specialize (E2 pair v o Hp Ho).
    destruct (close_loop pairs) as [l [e|]]; [discriminate E1 | exact E2].
  - destruct (lookups_cases v) as [F|(tick & bid & ask & M & B)].
    { rewrite (Hfail F). split; [intros o []|intros o1 o2 []]. }
    rewrite (close_pair_orders_split pair v _ _ _ M B). cbn [fst].
    set (L := lighter_close_orders _ _ _ _). set (A := aster_close_orders _).
    assert (HL := lighter_close_orders_spec bid ask tick (ep_size (mp_lighter pair))).
    assert (HA := aster_close_orders_spec (ep_size (mp_aster pair))).
    fold L in HL. fold A in HA.
    split.
    + intros o Ho. apply in_app_or in Ho. destruct Ho as [Ho|Ho].
      * left. apply HL in Ho. tauto.
      * right. apply HA in Ho. tauto.
    + intros o1 o2 H1 H2 V1 V2.
      assert (H1' : In o1 L).
      { apply in_app_or in H1. destruct H1 as [H1|H1]; [exact H1|].
        apply HA in H1. destruct H1 as [V _]. congruence. }
      assert (H2' : In o2 A).
      { apply in_app_or in H2. destruct H2 as [H2|H2]; [|exact H2].
        apply HL in H2. destruct H2 as [V _]. congruence. }
      apply HL in H1'. apply HA in H2'.
      destruct H1' as (_ & C1 & _). destruct H2' as (_ & C2 & _).
      split; [lra|].
      unfold opposite_signed in Hopp. apply orb_true_iff in Hopp.
      rewrite !andb_true_iff, !Qltb_lt in Hopp. lra.
Qed.

Lemma emergency_pair_is_closed_witness :
  exists pair,
    match_delta_neutral_positions (aster_open_positions aster_account) lighter_account
    = [pair] /\
    exists o, In o (fst (close_positions None [(pair, btc_pair_venue)])) /\
              ord_venue o = "aster"%string /\
              ord_size o = Qabs (ep_size (mp_aster pair)).
Proof.
  eexists. split; [reflexivity|].
  refine (proj1 (proj2 (proj2 (emergency_pair_is_closed aster_account
                                 lighter_account _ btc_pair_venue _))) None _ _ _ _).
  - left. reflexivity.
  - reflexivity.
  - constructor; [|constructor]. cbn [snd].
    intros [[e H]|[e H]]; discriminate H.
  - left. reflexivity.
Defined.

Lemma emergency_close_same_orders_witness :
  fst (close_pair_orders
         {| mp_symbol := "BTCUSDT";
            mp_aster := {| ep_symbol := "BTCUSDT"; ep_size := - (2 # 100);
                           ep_entry_price := 50000; ep_unrealized_pnl := 3;
                           ep_side := "SHORT" |};
            mp_lighter := {| ep_symbol := "BTC"; ep_size := 2 # 100;
                             ep_entry_price := 50001; ep_unrealized_pnl := - (2);
                             ep_side := "LONG" |} |}
         btc_pair_venue)
  = fst (close_delta_neutral_position btc_close).
Proof.
  apply (emergency_close_same_orders _ _ _
           [("ETHUSDT"%string, 1); ("BTCUSDT"%string, - (2 # 100))]);
    reflexivity.
Defined.

(** ** The state file is replaced in one step *)

Lemma length_append (a b : string) :
  String.length (a ++ b) = (String.length a + String.length b)%nat.
Proof. induction a as [|c a IH]; simpl; [reflexivity | now rewrite IH]. Qed.

Lemma tmp_is_another_file (state_file : string) :
  (state_file ++ ".tmp")%string <> state_file.
Proof.
  intro H. apply (f_equal String.length) in H. rewrite length_append in H.
  simpl in H. lia.
Qed.

Lemma fs_set_other (fs : fs_state) (p q : string) (c : option string) :
  q <> p -> fs_set fs p c q = fs q.
Proof.
  intro H. unfold fs_set. destruct (String.eqb q p) eqn:E; [|reflexivity].
  apply String.eqb_eq in E. contradiction.
Qed.

Lemma fs_set_same (fs : fs_state) (p : string) (c : option string) :
  fs_set fs p c p = c.
Proof. unfold fs_set. now rewrite String.eqb_refl. Qed.

Lemma run_fs_quiet (tmp : string) (evs : list fs_event) :
  Forall (touches_only tmp) evs ->
  forall fs path, path <> tmp -> run_fs evs fs path = fs path.
Proof.
  unfold run_fs. induction evs as [|ev evs IH]; intros Hq fs path Hp;
    [reflexivity|].
  inversion Hq as [|? ? Hev Hrest]; subst. cbn [fold_left].
  rewrite (IH Hrest _ _ Hp).
  destruct ev; cbn in Hev |- *; try reflexivity; try contradiction;
    subst; now apply fs_set_other.
Qed.

Lemma run_fs_clean_attempt (state_file content : string) (fs : fs_state) :
  let after := run_fs (clean_attempt state_file content) fs in
  after state_file = Some content /\
  after (state_file ++ ".tmp")%string = None /\
  forall path, path <> state_file -> path <> (state_file ++ ".tmp")%string ->
               after path = fs path.
Proof.
  assert (Hne := tmp_is_another_file state_file).
  cbv zeta. unfold run_fs, clean_attempt. cbn [fold_left apply_fs_event].
  split; [|split].
  - rewrite fs_set_other by congruence. rewrite fs_set_same.
    apply fs_set_same.
  - apply fs_set_same.
  - intros path H1 H2. now rewrite !fs_set_other by assumption.
Qed.

Lemma save_attempt_quiet_or_clean (state_file content : string) (f : save_fault) :
  (f = NoFault /\
   save_attempt state_file content f = (clean_attempt state_file content, None)) \/
  (exists e, snd (save_attempt state_file content f) = Some e /\
     Forall (touches_only (state_file ++ ".tmp"))
            (fst (save_attempt state_file content f))).
Proof.
  destruct f; [left; split; reflexivity| | |];
    right; exists e; (split; [reflexivity|]); cbn; repeat constructor.
Qed.

Lemma save_loop_shape (state_file content : string) (faults : Z -> save_fault) :
  forall fuel attempt,
    exists quiet tail,
      save_loop state_file content faults fuel attempt = quiet ++ tail /\
      Forall (touches_only (state_file ++ ".tmp")) quiet /\
      (tail = [] \/ tail = clean_attempt state_file content).
Proof.
  induction fuel as [|fuel IH]; intro attempt.
  - exists [], []. repeat split; auto.
  - cbn [save_loop].
    destruct (save_attempt_quiet_or_clean state_file content (faults attempt))
      as [[_ E]|(e & Herr & Hq)].
    + rewrite E. exists [], (clean_attempt state_file content).
      repeat split; auto.
    + destruct (save_attempt state_file content (faults attempt)) as [evs err].
      cbn [fst snd] in *. subst err.
      destruct (IH (attempt + 1)%Z) as (q & t & E & Fq & Ht).
      destruct (exn_class e);
        try solve [exists evs, []; rewrite app_nil_r; repeat split; auto].
      destruct ((errno =? 16)%Z && (attempt <? save_max_retries - 1)%Z).
      * exists (evs ++ [FsSleep ((1 # 10) * inject_Z (attempt + 1))] ++ q), t.
        rewrite E, <- !app_assoc. repeat split; auto.
        apply Forall_app. split; [exact Hq|].
        constructor; [exact I | exact Fq].
      * destruct (attempt =? save_max_retries - 1)%Z.
        -- exists (evs ++ q), t. rewrite E, <- app_assoc. repeat split; auto.
           apply Forall_app. now split.
        -- exists evs, []. rewrite app_nil_r. repeat split; auto.
Qed.

Lemma Forall_prefix {A : Type} (P : A -> Prop) (l : list A) :
  Forall P l -> forall n, Forall P (firstn n l).
Proof.
  induction 1 as [|x l Hx Hl IH]; intros [|n]; cbn [firstn]; constructor; auto.
Qed.

Lemma firstn_clean_attempt (state_file content : string) (m : nat) :
  firstn m (clean_attempt state_file content) = clean_attempt state_file content \/
  Forall (touches_only (state_file ++ ".tmp"))
         (firstn m (clean_attempt state_file content)).
Proof.
  unfold clean_attempt.
  destruct m as [|[|[|[|m]]]]; cbn [firstn];
    [right; repeat constructor ..| left; now rewrite firstn_nil].
Qed.

(** X22: at whatever event a save is cut short, the state file holds either
    what it held before or the complete new content, never a part of it, and
    no file other than the state file and its [.tmp] sibling is changed.  A
    save that reaches its rename leaves the new content in the state file and
    no [.tmp] file behind; a save that does not leaves the state file as it
    was. *)
Theorem save_file_atomic (state_file content : string) (faults : Z -> save_fault)
        (fs : fs_state) (n : nat) :
  let tmp := (state_file ++ ".tmp")%string in
  let trace := save_file state_file content faults in
  let cut := run_fs (firstn n trace) fs in
  let done := run_fs trace fs in
  (cut state_file = fs state_file \/ cut state_file = Some content) /\
  (forall path, path <> state_file -> path <> tmp -> cut path = fs path) /\
  (In (FsReplace tmp state_file) trace ->
     done state_file = Some content /\ done tmp = None) /\
  (~ In (FsReplace tmp state_file) trace -> done state_file = fs state_file).
Proof.
  cbv zeta. unfold save_file.
  destruct (save_loop_shape state_file content faults
              (Z.to_nat save_max_retries) 0%Z) as (q & t & E & Fq & Ht).
  rewrite E. assert (Hne := tmp_is_another_file state_file).
  assert (Hne' : state_file <> (state_file ++ ".tmp")%string) by congruence.
  assert (Hrun : forall l1 l2 f, run_fs (l1 ++ l2) f = run_fs l2 (run_fs l1 f)).
  { intros. unfold run_fs. apply fold_left_app. }
  assert (Hnoq : ~ In (FsReplace (state_file ++ ".tmp") state_file) q).
  { intro H. rewrite Forall_forall in Fq. exact (Fq _ H). }
  split; [|split; [|split]].
  - rewrite firstn_app, Hrun.
    assert (Fq' : Forall (touches_only (state_file ++ ".tmp")) (firstn n q))
      by now apply Forall_prefix.
    destruct Ht as [->| ->].
    + rewrite firstn_nil. left. apply (run_fs_quiet _ _ Fq' fs _ Hne').
    + destruct (firstn_clean_attempt state_file content (n - List.length q))
        as [Ec|Fc].
      * rewrite Ec. right. apply run_fs_clean_attempt.
      * left. rewrite (run_fs_quiet _ _ Fc _ _ Hne').
        apply (run_fs_quiet _ _ Fq' fs _ Hne').
  - intros path H1 H2. rewrite firstn_app, Hrun.
    assert (Fq' : Forall (touches_only (state_file ++ ".tmp")) (firstn n q))
      by now apply Forall_prefix.
    destruct Ht as [->| ->].
    + rewrite firstn_nil. apply (run_fs_quiet _ _ Fq' fs _ H2).
    + destruct (firstn_clean_attempt state_file content (n - List.length q))
        as [Ec|Fc].
      * rewrite Ec.
        destruct (run_fs_clean_attempt state_file content (run_fs (firstn n q) fs))
          as (_ & _ & Hother).
        rewrite (Hother path H1 H2). apply (run_fs_quiet _ _ Fq' fs _ H2).
      * rewrite (run_fs_quiet _ _ Fc _ _ H2).
        apply (run_fs_quiet _ _ Fq' fs _ H2).
  - intros Hin. apply in_app_or in Hin. destruct Hin as [Hin|Hin]; [contradiction|].
    destruct Ht as [->| ->]; [destruct Hin|].
    rewrite Hrun.
    destruct (run_fs_clean_attempt state_file content (run_fs q fs)) as (H1 & H2 & _).
    now split.
  - intros Hnot. destruct Ht as [->| ->].
    + rewrite app_nil_r. apply (run_fs_quiet _ _ Fq fs _ Hne').
    + exfalso. apply Hnot. apply in_or_app. right.
      unfold clean_attempt. cbn. auto.
Qed.

(** ** Cycle accounting of the supervisor loop *)

Ltac solve_accounts :=
  unfold accounts, has_status, cycle_of; cbn; rewrite ?app_nil_r, ?Z.add_0_r;
  repeat split; try reflexivity; cbn; rewrite ?Z.add_0_r; try lia;
  try apply Forall_nil;
  try (apply Forall_cons;
       [first [left; reflexivity | right; reflexivity] | apply Forall_nil]).

Lemma accounts_trans (w1 w2 w3 : World) (n1 n2 : list CycleRecord)
      (a1 a2 : list VenueCall) :
  accounts w1 w2 n1 a1 -> accounts w2 w3 n2 a2 ->
  accounts w1 w3 (n1 ++ n2) (a1 ++ a2).
Proof.
  unfold accounts. cbv zeta.
  intros (C1 & T1 & S1 & F1 & A1 & K1 & L1) (C2 & T2 & S2 & F2 & A2 & K2 & L2).
  rewrite !filter_app, !length_app, !Nat2Z.inj_add.
  repeat split; try lia.
  - now rewrite C2, C1, app_assoc.
  - apply Forall_app. now split.
  - now rewrite K2, K1, app_assoc.
Qed.

Lemma analyze_and_open_accounts (config : BotConfig) (env : IterEnv) (w : World) :
  exists added, accounts w (analyze_and_open config env w) [] added.
Proof.
  unfold analyze_and_open.
  destruct (filter r_available _); [exists []; solve_accounts|].
  destruct (scan_candidates _ _) as [|best rest]; [exists []; solve_accounts|].
  eexists [_].
  destruct (snd (open_delta_neutral_position _)); solve_accounts.
Qed.

Lemma hold_and_monitor_accounts (config : BotConfig) (env : IterEnv) (w : World) :
  exists new added,
    accounts w (hold_and_monitor config env w) new added /\
    (List.length new <= 1)%nat.
Proof.
  unfold hold_and_monitor.
  destruct (current_position (mem w)) as [position|];
    [|exists [], []; split; [solve_accounts | cbn; lia]].
  destruct (Qleb _ _).
  - destruct (e_close env).
    + eexists [_], [_]. split; [solve_accounts | cbn; lia].
    + exists [], [CallClose (p_symbol position)].
      split; [solve_accounts | cbn; lia].
  - destruct (stop_loss_check _ _ _ _) as [hit|].
    + destruct (e_close env).
      * eexists [_], [_]. split; [solve_accounts | cbn; lia].
      * exists [], [CallClose (p_symbol position)].
        split; [solve_accounts | cbn; lia].
    + exists [], [].
      destruct (_ && _); split; solve [solve_accounts | cbn; lia].
Qed.

Lemma loop_iteration_accounts (config : BotConfig) (env : IterEnv) (w : World) :
  exists new added,
    accounts w (loop_iteration config env w) new added /\
    (List.length new <= 1)%nat.
Proof.
  unfold loop_iteration.
  pose proof (hold_and_monitor_accounts config env w) as Hh.
  destruct (analyze_and_open_accounts config env w) as (added & Ha).
  destruct (get_state w);
    first [ exact Hh
          | exists [], added; split; [exact Ha | cbn; lia]
          | exists [], []; split; [solve_accounts | cbn; lia] ].
Qed.

Lemma main_loop_accounts (config : BotConfig) (envs : list IterEnv) :
  forall w, exists new added,
    accounts w (main_loop config envs w) new added /\
    (List.length new <= List.length envs)%nat.
Proof.
  unfold main_loop.
  induction envs as [|env envs IH]; intro w; cbn [fold_left].
  - exists [], []. split; [solve_accounts | cbn; lia].
  - destruct (loop_iteration_accounts config env w) as (n1 & a1 & H1 & L1).
    destruct (IH (loop_iteration config env w)) as (n2 & a2 & H2 & L2).
    exists (n1 ++ n2), (a1 ++ a2). split.
    + exact (accounts_trans _ _ _ _ _ _ _ H1 H2).
    + rewrite length_app. cbn [List.length]. lia.
Qed.

(** X23: over any run of the supervisor loop the list of completed cycles
    only grows, by at most one cycle per pass; [total_cycles] grows by the
    number of cycles added, [successful_cycles] by the number of them with
    status "success" and [failed_cycles] by the number with status
    "stop-loss"; no other status is recorded, so the two counters add up to
    the total; and no more cycles are recorded than close calls were made. *)
Theorem main_loop_cycle_accounting (config : BotConfig) (envs : list IterEnv)
        (w : World) :
  let w' := main_loop config envs w in
  let st := cumulative_stats (mem w) in
  let st' := cumulative_stats (mem w') in
  exists new added,
    completed_cycles (mem w') = completed_cycles (mem w) ++ new /\
    (List.length new <= List.length envs)%nat /\
    total_cycles st' = (total_cycles st + Z.of_nat (List.length new))%Z /\
    successful_cycles st'
    = (successful_cycles st
       + Z.of_nat (List.length (filter (has_status "success") new)))%Z /\
    failed_cycles st'
    = (failed_cycles st
       + Z.of_nat (List.length (filter (has_status "stop-loss") new)))%Z /\
    Forall (fun c => c_status c = "success"%string \/ c_status c = "stop-loss"%string)
           new /\
    (successful_cycles st' + failed_cycles st' - total_cycles st'
     = successful_cycles st + failed_cycles st - total_cycles st)%Z /\
    calls w' = calls w ++ added /\
    (List.length new <= List.length (filter is_close_call added))%nat.
Proof.
  cbv zeta.
  destruct (main_loop_accounts config envs w) as (new & added & H & L).
  exists new, added. unfold accounts in H. cbv zeta in H.
  destruct H as (C & T & S & F & A & K & LK).
  repeat split; try assumption.
  rewrite T, S, F.
  assert (E : (List.length (filter (has_status "success") new)
               + List.length (filter (has_status "stop-loss") new)
               = List.length new)%nat).
  { clear - A. induction A as [|c new [Hc|Hc] _ IH]; [reflexivity| |];
      cbn [filter];
      assert (E1 := eq_refl (has_status "success" c));
      assert (E2 := eq_refl (has_status "stop-loss" c));
      unfold has_status at 2 in E1; unfold has_status at 2 in E2;
      rewrite Hc in E1, E2; cbn in E1, E2; rewrite E1, E2;
      cbn [List.length]; lia. }
  lia.
Qed.

(** ** What one pass of the supervisor loop does to the position *)

(** X24: a scan pass ends in one of three ways.  With nothing to open the
    bot waits: no venue call, nothing but the state changed.  When the open
    attempt raises, the bot is in [ERROR] with the error text and time noted
    and the stored position untouched.  When it returns, the bot is in
    [HOLDING] and the stored position is the one just opened, due to close
    [hold_duration_hours] after now.  The open call is made at most once, with
    the configured leverage and notional. *)
Theorem analyze_and_open_outcome (config : BotConfig) (env : IterEnv) (w : World) :
  let w' := analyze_and_open config env w in
  (calls w' = calls w /\ mem w' = put_state WAITING (mem w)) \/
  (exists call,
     calls w' = calls w ++ [CallOpen call] /\
     o_leverage call = leverage config /\
     o_notional_quote call = notional_per_position config /\
     match snd (open_delta_neutral_position call) with
     | Raises e =>
         get_state w' = ERROR /\
         current_position (mem w') = current_position (mem w) /\
         last_error (cumulative_stats (mem w')) = Some (exn_str e) /\
         last_error_at (cumulative_stats (mem w')) = Some (e_now env)
     | Returns metadata =>
         get_state w' = HOLDING /\
         cumulative_stats (mem w') = cumulative_stats (mem w) /\
         exists position,
           current_position (mem w') = Some position /\
           p_symbol position = o_symbol call /\
           p_long_exchange position = o_long_exchange call /\
           p_short_exchange position = o_short_exchange call /\
           p_leverage position = Some (leverage config) /\
           p_opened_at position = e_now env /\
           p_target_close_at position
           = e_now env + hold_duration_hours config * 3600 /\
           md_size_base (p_metadata position) = Some (m_size_base metadata) /\
           md_avg_mid (p_metadata position) = Some (m_avg_mid metadata)
     end).
Proof.
  cbv zeta. unfold analyze_and_open.
  destruct (filter r_available _); [left; split; reflexivity|].
  destruct (scan_candidates _ _) as [|best rest]; [left; split; reflexivity|].
  right. exists (open_call config best (e_venues env)).
  destruct (snd (open_delta_neutral_position _)) as [metadata|e].
  - repeat split. eexists. repeat split.
  - repeat split.
Qed.

Ltac hold_finish :=
  repeat match goal with
         | |- _ /\ _ => split
         | |- _ <-> _ => split
         | |- _ -> _ => intro
         | H : _ /\ _ |- _ => destruct H
         | H : exists _, _ |- _ => destruct H
         end;
  try reflexivity; try discriminate; try congruence;
  try solve [left; assumption];
  try solve [right; discriminate];
  try solve [eexists; reflexivity];
  try solve [eexists; repeat split; reflexivity];
  try solve [exfalso; eapply app_one_neq; eassumption];
  try solve [exfalso; eapply app_one_neq; symmetry; eassumption];
  try match goal with
      | H : ~ _ |- _ =>
          exfalso; apply H; solve [left; assumption | right; discriminate]
      end.

(** X25: in [HOLDING] with a stored position, a pass calls close exactly
    when the hold time is over or the stop-loss fires, and makes no other
    call.  Otherwise the bot stays in [HOLDING], records no cycle and keeps
    the position (only its refresh stamp may change).  The stored position is
    dropped exactly when close was due and returned, and then the bot is
    [IDLE] with one more cycle recorded. *)
Theorem position_dropped_iff_closed (config : BotConfig) (env : IterEnv)
        (w : World) (position : Position) :
  get_state w = HOLDING ->
  current_position (mem w) = Some position ->
  let w' := loop_iteration config env w in
  (close_due config env position
   <-> calls w' = calls w ++ [CallClose (p_symbol position)]) /\
  (~ close_due config env position ->
     calls w' = calls w /\ get_state w' = HOLDING /\
     completed_cycles (mem w') = completed_cycles (mem w) /\
     exists kept,
       current_position (mem w') = Some kept /\
       p_symbol kept = p_symbol position /\
       p_target_close_at kept = p_target_close_at position /\
       p_leverage kept = p_leverage position /\
       p_metadata kept = p_metadata position) /\
  (current_position (mem w') = None
   <-> close_due config env position /\ exists u, e_close env = Returns u) /\
  (current_position (mem w') = None ->
     get_state w' = IDLE /\
     exists c, completed_cycles (mem w') = completed_cycles (mem w) ++ [c] /\
               c_symbol c = p_symbol position /\ c_closed_at c = e_now env).
Proof.
  intros Hs Hp. cbv zeta. unfold loop_iteration, close_due. rewrite Hs.
  unfold hold_and_monitor. rewrite Hp.
  destruct (Qleb (p_target_close_at position) (e_now env)) eqn:T.
  - apply Qleb_le in T.
    destruct (e_close env) as [u|e]; cbn; rewrite ?Hp; hold_finish.
  - apply Qleb_gt in T.
    destruct (stop_loss_check config position (e_aster_pnl env) (e_lighter_pnl env))
      as [hit|] eqn:SL.
    + destruct (e_close env) as [u|e]; cbn; rewrite ?Hp; hold_finish.
    + assert (Hnot : ~ (p_target_close_at position <= e_now env
                        \/ @None (Q * Q * string) <> None)).
      { intros [H|H]; [apply Qlt_not_le in T; contradiction | now apply H]. }
      destruct (_ && e_refresh_ok env); cbn; rewrite ?Hp; hold_finish;
        exact Hs.
Qed.

Lemma position_dropped_iff_closed_witness :
  current_position (mem (loop_iteration default_config (quiet_env 28800 None None)
                                        (btc_world HOLDING))) = None
  <-> close_due default_config (quiet_env 28800 None None) btc_position /\
      exists u, e_close (quiet_env 28800 None None) = Returns u.
Proof.
  apply (position_dropped_iff_closed default_config (quiet_env 28800 None None)
           (btc_world HOLDING) btc_position eq_refl eq_refl).
Defined.

(** X26: when the close of a due position raises, the bot notes the error
    and goes to [ERROR] with the position still stored and no cycle
    recorded; the next pass only resets the state to [IDLE], and the pass
    after that is a scan for a new position.  Close is not called again on
    the way, and the old position is still the stored one when that scan
    starts. *)
Theorem failed_close_leads_to_scan (config : BotConfig) (env env2 env3 : IterEnv)
        (w : World) (position : Position) (e : pyexn) :
  get_state w = HOLDING ->
  current_position (mem w) = Some position ->
  close_due config env position ->
  e_close env = Raises e ->
  let w1 := loop_iteration config env w in
  let w2 := main_loop config [env; env2] w in
  get_state w1 = ERROR /\
  current_position (mem w1) = Some position /\
  completed_cycles (mem w1) = completed_cycles (mem w) /\
  (last_error (cumulative_stats (mem w1)) = Some (exn_str e) \/
   last_error (cumulative_stats (mem w1))
   = Some ("Stop-loss execution failed: " ++ exn_str e)%string) /\
  calls w1 = calls w ++ [CallClose (p_symbol position)] /\
  get_state w2 = IDLE /\
  current_position (mem w2) = Some position /\
  calls w2 = calls w1 /\
  main_loop config [env; env2; env3] w = analyze_and_open config env3 w2.
Proof.
  intros Hs Hp Hdue Hc. cbv zeta.
  assert (H1 : exists msg,
             (msg = exn_str e \/
              msg = ("Stop-loss execution failed: " ++ exn_str e)%string) /\
             loop_iteration config env w
             = enter_error msg (e_now env)
                 (with_call (CallClose (p_symbol position)) (set_state CLOSING w))).
  { unfold loop_iteration. rewrite Hs. unfold hold_and_monitor. rewrite Hp, Hc.
    destruct (Qleb (p_target_close_at position) (e_now env)) eqn:T.
    - eexists. split; [left; reflexivity | reflexivity].
    - destruct Hdue as [Hdue|Hdue]; [apply Qleb_le in Hdue; congruence|].
      destruct (stop_loss_check _ _ _ _); [|congruence].
      eexists. split; [right; reflexivity | reflexivity]. }
  destruct H1 as (msg & Hmsg & E1).
  unfold main_loop. cbn [fold_left]. rewrite E1.
  repeat split; try reflexivity; try assumption.
  destruct Hmsg as [->| ->]; [left | right]; reflexivity.
Qed.

Lemma failed_close_leads_to_scan_witness :
  get_state (main_loop default_config
               [failing_close_env 28800; failing_close_env 28860] (btc_world HOLDING))
  = IDLE /\
  current_position
    (mem (main_loop default_config
            [failing_close_env 28800; failing_close_env 28860] (btc_world HOLDING)))
  = Some btc_position.
Proof.
  destruct (failed_close_leads_to_scan default_config (failing_close_env 28800)
              (failing_close_env 28860) (failing_close_env 28920)
              (btc_world HOLDING) btc_position
              (Exn KRuntimeError "Failed to close") eq_refl eq_refl)
    as (_ & _ & _ & _ & _ & H1 & H2 & _).
  - left. vm_compute. discriminate.
  - reflexivity.
  - split; [exact H1 | exact H2].
Defined.

(** ** Recovery after a restart *)

Lemma no_mismatch_with_itself (x : Q) (b : bool) :
  Qltb (1 # 1000) (Qabs (x - x)) && b = false.
Proof.
  assert (H : Qltb (1 # 1000) (Qabs (x - x)) = false).
  { apply Qltb_ge. assert (E : x - x == 0) by ring.
    rewrite E. cbn. unfold Qle. cbn. lia. }
  now rewrite H.
Qed.

Lemma verify_false_clears (w w1 : World) (live : outcome (Q * Q)) :
  verify_and_recover_position w live = (false, w1) ->
  current_position (mem w1) = None.
Proof.
  unfold verify_and_recover_position.
  destruct (current_position (mem w)) as [position|] eqn:P.
  2: { intro H. inversion H. subst. exact P. }
  destruct (String.eqb _ _); [intro H; now inversion H|].
  destruct live as [[aster_size lighter_size]|e]; [|intro H; now inversion H].
  cbv zeta.
  destruct (has_pos aster_size && has_pos lighter_size).
  - destruct (opposite_signed _ _); [|intro H; now inversion H].
    destruct (_ && _); intro H; inversion H.
  - destruct (_ || _); intro H; now inversion H.
Qed.

Lemma verify_true_stable (w w1 : World) (live : outcome (Q * Q)) :
  verify_and_recover_position w live = (true, w1) ->
  forall w2, current_position (mem w2) = current_position (mem w1) ->
             verify_and_recover_position w2 live = (true, w2).
Proof.
  unfold verify_and_recover_position.
  destruct (current_position (mem w)) as [position|] eqn:P; [|discriminate].
  destruct (String.eqb (p_symbol position) "") eqn:S; [discriminate|].
  destruct live as [[aster_size lighter_size]|e]; [|discriminate].
  cbv zeta.
  destruct (has_pos aster_size && has_pos lighter_size) eqn:B.
  2: { destruct (_ || _); discriminate. }
  destruct (opposite_signed _ _) eqn:O; [|discriminate].
  destruct (Qltb (1 # 1000) _ && _) eqn:M; intro H; inversion H; subst;
    intros w2 E; rewrite E; cbn [mem with_mem save put_position current_position].
  - cbn [p_symbol put_size_base p_metadata md_size_base value_of].
    rewrite S. now rewrite no_mismatch_with_itself.
  - rewrite P, S, M. reflexivity.
Qed.

(** X27: the startup recovery is idempotent: run again on its own result
    with the same answers from the venues, it changes nothing, neither the
    state in memory nor the state file.  So a bot that is restarted twice in
    a row recovers the same position, or none, both times. *)
Theorem startup_recovery_idempotent (w : World) (live : outcome (Q * Q)) :
  startup_recovery (startup_recovery w live) live = startup_recovery w live.
Proof.
  assert (Hnone : forall w0, current_position (mem w0) = None ->
                             startup_recovery w0 live = w0).
  { intros w0 H. unfold startup_recovery. now rewrite H. }
  assert (Hheld : forall w0 w1,
             verify_and_recover_position w0 live = (true, w1) ->
             forall w2, current_position (mem w2) = current_position (mem w1) ->
                        get_state w2 = HOLDING ->
                        startup_recovery w2 live = w2).
  { intros w0 w1 H w2 E Hs. unfold startup_recovery.
    rewrite (verify_true_stable _ _ _ H w2 E), Hs. cbn.
    now destruct (current_position (mem w2)). }
  unfold startup_recovery at 2 3.
  destruct (current_position (mem w)) eqn:P; [|now apply Hnone].
  destruct (verify_and_recover_position w live) as [[|] w1] eqn:V.
  - destruct (BotState_eqb (get_state w1) HOLDING) eqn:S; cbn [negb].
    + apply (Hheld w w1 V); [reflexivity|].
      destruct (get_state w1); (reflexivity || discriminate).
    + apply (Hheld w w1 V); reflexivity.
  - apply Hnone. apply verify_false_clears in V.
    destruct (BotState_eqb _ _); [|exact V]. exact V.
Qed.

(** ** Edge cases of the stop-loss *)

(** X28: the stop-loss test never fires when the stop-loss is switched off,
    when neither venue reports a PnL, or when the position value is not
    positive; and with the stop-loss on, a positive position value and some
    PnL reported, a leverage of zero or less makes it fire whatever the PnL
    is, because the threshold is then zero. *)
Theorem stop_loss_check_edges (config : BotConfig) (position : Position)
        (aster_pnl lighter_pnl : option Q) :
  let fires := stop_loss_check config position aster_pnl lighter_pnl in
  (enable_stop_loss config = false -> fires = None) /\
  (aster_pnl = None /\ lighter_pnl = None -> fires = None) /\
  (position_value config position <= 0 -> fires = None) /\
  (enable_stop_loss config = true /\
   0 < position_value config position /\
   position_leverage config position <= 0 /\
   (aster_pnl <> None \/ lighter_pnl <> None) -> fires <> None).
Proof.
  cbv zeta. unfold stop_loss_check.
  repeat split.
  - intro H. rewrite H. destruct (worst_leg _ _) as [[? ?]|]; [|reflexivity].
    now destruct (Qltb _ _).
  - intros [-> ->]. reflexivity.
  - intro H. apply Qltb_ge in H. rewrite H.
    now destruct (worst_leg _ _) as [[? ?]|].
  - intros (He & Hv & Hl & Hpnl).
    apply Qltb_lt in Hv. rewrite Hv, He.
    unfold calculate_stop_loss_percentage.
    apply Qleb_le in Hl. rewrite Hl.
    destruct (worst_leg aster_pnl lighter_pnl) as [[worst ex]|] eqn:W.
    + assert (Ha : Qleb 0 (Qabs (worst / position_value config position * 100)) = true)
        by (apply Qleb_le, Qabs_nonneg).
      rewrite Ha. cbn. discriminate.
    + exfalso. unfold worst_leg in W.
      destruct aster_pnl as [a|], lighter_pnl as [l|]; try discriminate.
      * destruct (Qleb a l); discriminate.
      * destruct Hpnl as [H|H]; now apply H.
Qed.

(** X29: for a positive leverage the stop-loss percentage is positive, lies
    strictly below the liquidation distance [100 / leverage], equals 75
    divided by the leverage, and does not grow when the leverage does. *)
Theorem calculate_stop_loss_percentage_bounds (lev1 lev2 : Q) :
  0 < lev1 -> lev1 <= lev2 ->
  0 < calculate_stop_loss_percentage lev2 /\
  calculate_stop_loss_percentage lev2 <= calculate_stop_loss_percentage lev1 /\
  calculate_stop_loss_percentage lev1 < 100 / lev1 /\
  calculate_stop_loss_percentage lev1 * lev1 == 75.
Proof.
  intros H1 H12.
  assert (H2 : 0 < lev2) by lra.
  assert (E : forall lev, 0 < lev ->
                          calculate_stop_loss_percentage lev == 75 * / lev).
  { intros lev H. unfold calculate_stop_loss_percentage.
    assert (L : Qleb lev 0 = false) by now apply Qleb_gt.
    rewrite L. cbv zeta. field. lra. }
  assert (I1 : 0 < / lev1) by now apply Qinv_lt_0_compat.
  assert (I2 : 0 < / lev2) by now apply Qinv_lt_0_compat.
  assert (M1 : / lev1 * lev1 == 1) by (field; lra).
  assert (M2 : / lev2 * lev2 == 1) by (field; lra).
  assert (Hinv : / lev2 <= / lev1).
  { assert (P : 0 < / lev1 * / lev2) by nra.
    assert (D : / lev1 - / lev2 == (/ lev1 * / lev2) * (lev2 - lev1)).
    { field. lra. }
    nra. }
  rewrite (E lev1 H1), (E lev2 H2).
  repeat split.
  - lra.
  - lra.
  - unfold Qdiv. lra.
  - rewrite <- Qmult_assoc, M1. ring.
Qed.

Lemma calculate_stop_loss_percentage_bounds_witness :
  calculate_stop_loss_percentage 5 <= calculate_stop_loss_percentage 3 /\
  calculate_stop_loss_percentage 3 < 100 / 3.
Proof.
  destruct (calculate_stop_loss_percentage_bounds 3 5) as (_ & H1 & H2 & _).
  - reflexivity.
  - discriminate.
  - split; [exact H1 | exact H2].
Defined.
